(** * Healthcare analytics platform: ingestion and streaming pipeline

    A shallow embedding of the event pipeline
    ([src/models/event.py], [src/services/event_processor.py],
    [src/services/encryption.py]), the stream producer
    ([src/services/kinesis_producer.py]) and the stream consumer
    ([src/services/kinesis_consumer.py]), with the properties the
    specification states about them; and of the code around the
    pipeline ([src/utils/auth.py], [src/services/analytics_service.py],
    [src/services/database.py], [src/services/cache.py],
    [src/api/routes/events.py], [src/api/routes/analytics.py],
    [src/api/routes/health.py]), with properties read off that code.

    Conventions.
    - A Python [str] is a Rocq [string], one [ascii] per code point (code
      points below 256).
    - A Python [dict] is an association list in insertion order, without
      duplicate keys; objects that the code shares or mutates live in an
      explicit heap.
    - A finite Python [float] is held as the number literal that JSON has
      for it; not-a-number and the infinities are values of their own.
    - Collaborators that are not part of the repository (the Fernet cipher,
      the clock, the Redis client, the Kinesis transport, the downstream
      handler) are Section variables: oracles that answer each call. *)

From Stdlib Require Import ZArith NArith QArith String Ascii List Lia Bool.
From Stdlib Require DecimalString DecimalZ DecimalFacts.
From stdpp Require Import gmap strings list fin_maps.

Local Open Scope string_scope.
Local Open Scope list_scope.

(** * Part I: the program *)

(** ** Python strings *)

Module PyStr.

(** [str.isspace] on one code point below 256: TAB..CR, FS..US, SPACE,
    NEL (0x85) and NBSP (0xA0). *)
Definition isspace (c : ascii) : bool :=
  let n := nat_of_ascii c in
  (Nat.leb 9 n && Nat.leb n 13) || (Nat.leb 28 n && Nat.leb n 32)
  || Nat.eqb n 133 || Nat.eqb n 160.

Fixpoint lstrip (s : string) : string :=
  match s with
  | EmptyString => EmptyString
  | String c s' => if isspace c then lstrip s' else s
  end.

(** [rstrip] walks from the right: a whitespace character is dropped
    when everything after it has been dropped. *)
Fixpoint rstrip (s : string) : string :=
  match s with
  | EmptyString => EmptyString
  | String c s' =>
      match rstrip s' with
      | EmptyString => if isspace c then EmptyString else String c EmptyString
      | r => String c r
      end
  end.

(** [s.strip()] *)
Definition strip (s : string) : string := rstrip (lstrip s).

(** Truth value of a [str]: [bool(s)]. *)
Definition truthy (s : string) : bool :=
  match s with EmptyString => false | _ => true end.

Fixpoint all_space (s : string) : bool :=
  match s with
  | EmptyString => true
  | String c s' => isspace c && all_space s'
  end.

(** [not v or not v.strip()] *)
Definition blank (v : string) : bool :=
  negb (truthy v) || negb (truthy (strip v)).

(** [f"{x}"] for an [Optional[str]]. *)
Definition format_opt (o : option string) : string :=
  match o with Some s => s | None => "None" end.

(** [s.encode()]: UTF-8, for code points below 256. *)
Definition encode_char (c : ascii) : list N :=
  let n := N_of_ascii c in
  if (n <? 128)%N then [n]
  else [(192 + N.shiftr n 6)%N; (128 + N.land n 63)%N].

Fixpoint encode (s : string) : list N :=
  match s with
  | EmptyString => []
  | String c s' => encode_char c ++ encode s'
  end.

End PyStr.

(** ** [hashlib.sha256]

    SHA-256 as in FIPS 180-4, on bytes and 32-bit words held in [N]. *)

Module Sha256.

Local Open Scope N_scope.

Definition mask32 : N := 0xffffffff.
Definition add32 (a b : N) : N := N.land (a + b) mask32.
Definition rotr (n x : N) : N :=
  N.lor (N.shiftr x n) (N.land (N.shiftl x (32 - n)) mask32).
Definition not32 (x : N) : N := N.lxor x mask32.
Definition xor3 (a b c : N) : N := N.lxor (N.lxor a b) c.

Definition Ch (x y z : N) : N := N.lxor (N.land x y) (N.land (not32 x) z).
Definition Maj (x y z : N) : N := xor3 (N.land x y) (N.land x z) (N.land y z).
Definition Sigma0 (x : N) : N := xor3 (rotr 2 x) (rotr 13 x) (rotr 22 x).
Definition Sigma1 (x : N) : N := xor3 (rotr 6 x) (rotr 11 x) (rotr 25 x).
Definition sigma0 (x : N) : N := xor3 (rotr 7 x) (rotr 18 x) (N.shiftr x 3).
Definition sigma1 (x : N) : N := xor3 (rotr 17 x) (rotr 19 x) (N.shiftr x 10).

Definition is_prime (p : N) : bool :=
  (1 <? p)
  && forallb (fun d => negb (p mod N.of_nat d =? 0))
             (seq 2 (N.to_nat p - 2)).

(** The primes up to 311: the first sixty-four. *)
Definition primes : list N :=
  List.filter is_prime (map N.of_nat (seq 2 310)).

(** The integer cube root of [n], found bit by bit from bit [bits - 1]. *)
Fixpoint cube_root (bits : nat) (n r : N) : N :=
  match bits with
  | O => r
  | S bits' =>
      let r' := r + N.shiftl 1 (N.of_nat bits') in
      cube_root bits' n (if r' * r' * r' <=? n then r' else r)
  end.

(** The first 32 bits of the fractional part of the cube root of [p], and
    of its square root. *)
Definition cube_root_fraction (p : N) : N :=
  N.land (cube_root 36 (N.shiftl p 96) 0) mask32.

Definition square_root_fraction (p : N) : N :=
  N.land (N.sqrt (N.shiftl p 64)) mask32.

(** The round constants: from the cube roots of the first sixty-four
    primes. *)
Definition K : list N := map cube_root_fraction primes.

(** The initial hash value: from the square roots of the first eight
    primes. *)
Definition H0 : list N := map square_root_fraction (firstn 8 primes).

(** Big-endian bytes of [x], [n] of them. *)
Fixpoint be_bytes (n : nat) (x : N) : list N :=
  match n with
  | O => []
  | S n' => N.land (N.shiftr x (8 * N.of_nat n')) 255 :: be_bytes n' x
  end.

Definition be_word (bs : list N) : N :=
  fold_left (fun acc b => N.lor (N.shiftl acc 8) b) bs 0.

(** The message, a one bit, zeros up to 56 modulo 64, and the bit length. *)
Definition pad (msg : list N) : list N :=
  let len := N.of_nat (length msg) in
  let zeros := (64 - (len + 9) mod 64) mod 64 in
  msg ++ [128] ++ repeat 0 (N.to_nat zeros) ++ be_bytes 8 (8 * len).

Fixpoint chunks (fuel : nat) (size : nat) {A} (l : list A) : list (list A) :=
  match fuel with
  | O => []
  | S fuel' =>
      match l with
      | [] => []
      | _ => firstn size l :: chunks fuel' size (skipn size l)
      end
  end.

(** The message schedule, kept newest word first. *)
Fixpoint schedule (n : nat) (w : list N) : list N :=
  match n with
  | O => w
  | S n' =>
      let x := add32 (add32 (sigma1 (nth 1 w 0)) (nth 6 w 0))
                     (add32 (sigma0 (nth 14 w 0)) (nth 15 w 0)) in
      schedule n' (x :: w)
  end.

Record regs := Regs { ra : N; rb : N; rc : N; rd : N; re : N; rf : N; rg : N; rh : N }.

Definition round (s : regs) (kw : N * N) : regs :=
  let t1 := add32 (add32 (add32 (rh s) (Sigma1 (re s)))
                         (add32 (Ch (re s) (rf s) (rg s)) (fst kw))) (snd kw) in
  let t2 := add32 (Sigma0 (ra s)) (Maj (ra s) (rb s) (rc s)) in
  Regs (add32 t1 t2) (ra s) (rb s) (rc s) (add32 (rd s) t1) (re s) (rf s) (rg s).

Definition regs_of (h : list N) : regs :=
  Regs (nth 0 h 0) (nth 1 h 0) (nth 2 h 0) (nth 3 h 0)
       (nth 4 h 0) (nth 5 h 0) (nth 6 h 0) (nth 7 h 0).

Definition list_of (s : regs) : list N :=
  [ra s; rb s; rc s; rd s; re s; rf s; rg s; rh s].

Definition compress (h : list N) (block : list N) : list N :=
  let w16 := map be_word (chunks 16 4 block) in
  let w := rev (schedule 48 (rev w16)) in
  let s := fold_left round (combine K w) (regs_of h) in
  map (fun p => add32 (fst p) (snd p)) (combine h (list_of s)).

Definition digest (msg : list N) : list N :=
  let p := pad msg in
  fold_left compress (chunks (length p) 64 p) H0.

Definition hex_digit (n : N) : ascii :=
  if n <? 10 then ascii_of_N (48 + n) else ascii_of_N (87 + n).

Fixpoint hex (n : nat) (x : N) : string :=
  match n with
  | O => EmptyString
  | S n' => String (hex_digit (N.land (N.shiftr x (4 * N.of_nat n')) 15)) (hex n' x)
  end.

(** [hashlib.sha256(msg).hexdigest()] *)
Definition hexdigest (msg : list N) : string :=
  fold_right (fun w acc => hex 8 w +:+ acc) EmptyString (digest msg).

End Sha256.

(** ** [src/models/event.py]: the event models *)

Module Event.

Inductive EventType :=
| PATIENT_VISIT | LAB_RESULT | PRESCRIPTION | VITALS
| DIAGNOSIS | PROCEDURE | DISCHARGE | ADMISSION.

Definition EventType_value (t : EventType) : string :=
  match t with
  | PATIENT_VISIT => "patient_visit"
  | LAB_RESULT => "lab_result"
  | PRESCRIPTION => "prescription"
  | VITALS => "vitals"
  | DIAGNOSIS => "diagnosis"
  | PROCEDURE => "procedure"
  | DISCHARGE => "discharge"
  | ADMISSION => "admission"
  end.

Inductive EventSource :=
| EHR_EPIC | EHR_CERNER | LAB_SYSTEM | IOT_DEVICE | MANUAL_ENTRY.

Definition EventSource_value (s : EventSource) : string :=
  match s with
  | EHR_EPIC => "ehr_epic"
  | EHR_CERNER => "ehr_cerner"
  | LAB_SYSTEM => "lab_system"
  | IOT_DEVICE => "iot_device"
  | MANUAL_ENTRY => "manual_entry"
  end.

Record EventMetadata := {
  source : EventSource;
  version : string;
  correlation_id : option string;
  retry_count : Z
}.

Local Set Warnings "-register-all".

(** A Python [float], as far as JSON tells floats apart: not a number, an
    infinity, or a finite number.  A finite float is held as the number
    literal that the JSON writer gives for it ([0.1], [30.0], [-2.5e-7],
    [1e16]): the shortest one that reads back as the same float, so two
    finite floats with the same literal are the same float. *)
Inductive pyfloat :=
| FNaN
| FInfinity (negative : bool)
| FFinite (literal : string).

(** The values a payload ([Dict[str, Any]]) holds when it comes from a
    JSON body: [None], booleans, integers, floats, strings, lists and
    dicts. *)
Inductive pyval :=
| VNone
| VBool (b : bool)
| VInt (z : Z)
| VFloat (f : pyfloat)
| VStr (s : string)
| VList (l : list pyval)
| VDict (d : list (string * pyval)).

(** The characters of a number literal. *)
Definition digit_char (c : ascii) : bool :=
  let n := nat_of_ascii c in Nat.leb 48 n && Nat.leb n 57.

Definition number_char (c : ascii) : bool :=
  digit_char c || existsb (Ascii.eqb c) (list_ascii_of_string ".eE+-").

Fixpoint string_forallb (p : ascii -> bool) (s : string) : bool :=
  match s with
  | EmptyString => true
  | String c s' => p c && string_forallb p s'
  end.

Fixpoint string_existsb (p : ascii -> bool) (s : string) : bool :=
  match s with
  | EmptyString => false
  | String c s' => p c || string_existsb p s'
  end.

(** What tells the literal of a float from every other JSON text: it
    starts with a digit or a minus sign, is made of the characters of
    numbers, and has a fraction or an exponent. *)
Definition float_literal (s : string) : bool :=
  match s with
  | EmptyString => false
  | String c _ => digit_char c || Ascii.eqb c "-"
  end
  && string_forallb number_char s
  && string_existsb
       (fun c => existsb (Ascii.eqb c) (list_ascii_of_string ".eE")) s.

(** The digits at the head of a text: their value after [acc], how many
    they are, and the rest of the text. *)
Fixpoint take_digits (s : string) (acc : N) (count : nat) : N * nat * string :=
  match s with
  | String c s' =>
      if digit_char c
      then take_digits s' (10 * acc + (N_of_ascii c - 48))%N (S count)
      else (acc, count, s)
  | EmptyString => (acc, count, s)
  end.

(** The number a literal denotes, as [(-1)^negative * m * 10^e]:
    [-?digits(.digits)?([eE][+-]?digits)?]; [None] for any other text. *)
Definition float_value (s : string) : option (bool * N * Z) :=
  let '(negative, s) :=
    match s with
    | String "-" s' => (true, s')
    | _ => (false, s)
    end in
  let '(i, ni, s) := take_digits s 0%N 0 in
  if Nat.eqb ni 0 then None else
  let fraction :=
    match s with
    | String "." s' =>
        let '(m, nf, s'') := take_digits s' i 0 in
        if Nat.eqb nf 0 then None else Some (m, nf, s'')
    | _ => Some (i, 0, s)
    end in
  match fraction with
  | None => None
  | Some (m, nf, s) =>
      let exponent :=
        match s with
        | String c s' =>
            if Ascii.eqb c "e" || Ascii.eqb c "E"
            then
              let '(minus, s'') :=
                match s' with
                | String "-" t => (true, t)
                | String "+" t => (false, t)
                | _ => (false, s')
                end in
              let '(e, ne, rest) := take_digits s'' 0%N 0 in
              if Nat.eqb ne 0 then None
              else match rest with
                   | EmptyString =>
                       Some (if minus then (- Z.of_N e)%Z else Z.of_N e)
                   | _ => None
                   end
            else None
        | EmptyString => Some 0%Z
        end in
      match exponent with
      | Some e => Some (negative, m, (e - Z.of_nat nf)%Z)
      | None => None
      end
  end.

(** [f == n] for a float and an integer: the comparison is exact. *)
Definition float_eq_int (f : pyfloat) (n : Z) : bool :=
  match f with
  | FFinite literal =>
      match float_value literal with
      | Some (negative, m, e) =>
          let z := if negative then (- Z.of_N m)%Z else Z.of_N m in
          if (0 <=? e)%Z then (z * 10 ^ e =? n)%Z
          else (z =? n * 10 ^ (- e))%Z
      | None => false
      end
  | _ => false
  end.

(** [bool(f)]: only zero is false. *)
Definition float_truthy (f : pyfloat) : bool := negb (float_eq_int f 0).

(** A [dict] with [str] keys, in insertion order. *)
Definition pydict := list (string * pyval).

Fixpoint dict_get (d : pydict) (k : string) : option pyval :=
  match d with
  | [] => None
  | (k', v) :: d' => if String.eqb k' k then Some v else dict_get d' k
  end.

(** [k in d] *)
Definition dict_mem (d : pydict) (k : string) : bool :=
  match dict_get d k with Some _ => true | None => false end.

(** [d[k] = v]: an existing key keeps its position, a new key goes last. *)
Fixpoint dict_set (d : pydict) (k : string) (v : pyval) : pydict :=
  match d with
  | [] => [(k, v)]
  | (k', v') :: d' =>
      if String.eqb k' k then (k', v) :: d' else (k', v') :: dict_set d' k v
  end.

Definition dict_keys (d : pydict) : list string := map fst d.

(** Addresses of heap objects. *)
Definition loc := positive.

(** The fields of a [HealthcareEvent]; a datetime is held as its ISO 8601
    text, the payload is a reference to a [dict] object. *)
Record HealthcareEvent := {
  event_id : option string;
  event_type : EventType;
  timestamp : string;
  provider_id : string;
  patient_id : string;
  facility_id : option string;
  department : option string;
  payload : loc;
  metadata : EventMetadata
}.

(** [ProcessedEvent(HealthcareEvent)]: the inherited fields and four more. *)
Record ProcessedEvent := {
  base : HealthcareEvent;
  processed_at : string;
  encryption_key_id : option string;
  checksum : option string;
  partition_key : option string
}.

(** What the [HealthcareEvent] constructor is given: the same fields, with
    the payload still a plain [dict] value. *)
Record RawEvent := {
  raw_event_id : option string;
  raw_event_type : EventType;
  raw_timestamp : string;
  raw_provider_id : string;
  raw_patient_id : string;
  raw_facility_id : option string;
  raw_department : option string;
  raw_payload : pydict;
  raw_metadata : EventMetadata
}.

(** One entry of a pydantic [ValidationError]. *)
Inductive field_error :=
| string_too_short (field : string)
| string_too_long (field : string)
| value_error (field : string) (msg : string).

(** [Field(..., min_length=1, max_length=n)] followed by the field's
    [@validator]: the validator runs only when the length constraint holds. *)
Definition validate_str_field
    (name : string) (max_length : nat) (msg : string) (v : string)
  : list field_error :=
  if Nat.ltb (String.length v) 1 then [string_too_short name]
  else if Nat.ltb max_length (String.length v) then [string_too_long name]
  else if PyStr.blank v then [value_error name msg]
  else [].

Definition validate_provider_id (v : string) : list field_error :=
  validate_str_field "provider_id" 50 "provider_id cannot be empty" v.

Definition validate_patient_id (v : string) : list field_error :=
  validate_str_field "patient_id" 100 "patient_id cannot be empty" v.

(** Fields are validated in declaration order and all errors are reported
    together. *)
Definition validation_errors (provider patient : string) : list field_error :=
  validate_provider_id provider ++ validate_patient_id patient.

End Event.

(** ** Exceptions, the heap and the world of the ingestion process *)

(** The exceptions of the model: pydantic's [ValidationError], a failure
    of the cipher, botocore's [ClientError] with its error code, any other
    exception of a collaborator, and the use of an object that is not
    there. *)
Inductive exn :=
| ValidationError (errors : list Event.field_error)
| CipherError
| ClientError (code : string)
| OtherError
| AttributeError.

Inductive result (A : Type) :=
| Ok (a : A)
| Raise (e : exn).
Arguments Ok {A} a.
Arguments Raise {A} e.

Inductive pyobj :=
| ODict (d : Event.pydict)
| OEvent (e : Event.HealthcareEvent).

(** The answer of the stream to [put_record]. *)
Inductive put_outcome :=
| PutOk (shard_id sequence_number : string)
| PutFail (e : exn).

(** One entry of the [Records] list in the answer to [put_records]:
    [{SequenceNumber, ShardId}] or [{ErrorCode, ErrorMessage}]. *)
Inductive put_records_entry :=
| EntryOk (sequence_number shard_id : string)
| EntryError (error_code error_message : string).

Inductive put_records_outcome :=
| BatchOk (FailedRecordCount : option Z) (Records : list put_records_entry)
| BatchFail (e : exn).

(** One call of the ingestion process on the outside world, with the
    answer it got. *)
Inductive effect :=
| EPutRecord (stream : string) (data : list N) (key : option string)
             (answer : put_outcome)
| EPutRecords (stream : string) (records : list (list N * option string))
              (answer : put_records_outcome)
| ESleep (seconds : Q)
| ELog (level : string) (event : string).

Record World := {
  heap : gmap Event.loc pyobj;
  enc_calls : list string;      (* arguments of [encrypt_phi], oldest first *)
  clock_reads : nat;            (* calls of [datetime.utcnow] so far *)
  status_store : gmap string (string * string * nat);
  trace : list effect           (* oldest first *)
}.

Definition set_heap (h : gmap Event.loc pyobj) (w : World) : World :=
  {| heap := h; enc_calls := enc_calls w; clock_reads := clock_reads w;
     status_store := status_store w; trace := trace w |}.

Definition add_enc_call (s : string) (w : World) : World :=
  {| heap := heap w; enc_calls := enc_calls w ++ [s];
     clock_reads := clock_reads w; status_store := status_store w;
     trace := trace w |}.

Definition tick (w : World) : World :=
  {| heap := heap w; enc_calls := enc_calls w;
     clock_reads := S (clock_reads w); status_store := status_store w;
     trace := trace w |}.

Definition set_status_store (c : gmap string (string * string * nat)) (w : World)
  : World :=
  {| heap := heap w; enc_calls := enc_calls w; clock_reads := clock_reads w;
     status_store := c; trace := trace w |}.

Definition emit (e : effect) (w : World) : World :=
  {| heap := heap w; enc_calls := enc_calls w; clock_reads := clock_reads w;
     status_store := status_store w; trace := trace w ++ [e] |}.

(** A computation that reads and writes the world and may raise. *)
Definition M (A : Type) : Type := World -> result A * World.

Definition raise {A} (e : exn) : M A := fun w => (Raise e, w).

#[global] Instance M_ret : MRet M := fun A a w => (Ok a, w).

#[global] Instance M_bind : MBind M := fun A B k m w =>
  match m w with
  | (Ok a, w') => k a w'
  | (Raise e, w') => (Raise e, w')
  end.

Definition get_world : M World := fun w => (Ok w, w).
Definition modify (f : World -> World) : M unit := fun w => (Ok tt, f w).

(** Allocation of a new object at an address not in use. *)
Definition alloc (o : pyobj) : M Event.loc :=
  fun w => let l := fresh (dom (heap w)) in
           (Ok l, set_heap (<[l := o]> (heap w)) w).

Definition read_dict (l : Event.loc) : M Event.pydict :=
  fun w => match heap w !! l with
           | Some (ODict d) => (Ok d, w)
           | _ => (Raise AttributeError, w)
           end.

Definition read_event (l : Event.loc) : M Event.HealthcareEvent :=
  fun w => match heap w !! l with
           | Some (OEvent e) => (Ok e, w)
           | _ => (Raise AttributeError, w)
           end.

Definition write_obj (l : Event.loc) (o : pyobj) : M unit :=
  modify (fun w => set_heap (<[l := o]> (heap w)) w).

(** ** [model_dump_json]: pydantic's JSON serialisation

    Compact JSON: no spaces, model fields in declaration order, the
    entries of a [dict] in its own (insertion) order. *)

Module Json.

Import Event.

Definition dquote : ascii := "034"%char.
Definition backslash : ascii := "092"%char.

Definition hex_digit (n : nat) : ascii :=
  if Nat.ltb n 10 then ascii_of_nat (48 + n) else ascii_of_nat (87 + n).

Definition escape_char (c : ascii) : string :=
  let n := nat_of_ascii c in
  if Nat.eqb n 34 then String backslash (String dquote EmptyString)
  else if Nat.eqb n 92 then String backslash (String backslash EmptyString)
  else if Nat.eqb n 8 then String backslash "b"
  else if Nat.eqb n 9 then String backslash "t"
  else if Nat.eqb n 10 then String backslash "n"
  else if Nat.eqb n 12 then String backslash "f"
  else if Nat.eqb n 13 then String backslash "r"
  else if Nat.ltb n 32 then
    String backslash
      ("u00" +:+ String (hex_digit (n / 16)) (String (hex_digit (n mod 16)) EmptyString))
  else String c EmptyString.

Fixpoint escape (s : string) : string :=
  match s with
  | EmptyString => EmptyString
  | String c s' => escape_char c +:+ escape s'
  end.

Definition json_string (s : string) : string :=
  String dquote (escape s +:+ String dquote EmptyString).

Definition json_int (z : Z) : string :=
  DecimalString.NilZero.string_of_int (Z.to_int z).

Definition json_bool (b : bool) : string := if b then "true" else "false".

(** A float: its literal when it is finite; pydantic writes [null] for
    not-a-number and for the infinities. *)
Definition json_float (f : pyfloat) : string :=
  match f with
  | FFinite literal => literal
  | FNaN | FInfinity _ => "null"
  end.

Fixpoint dumps (v : pyval) : string :=
  match v with
  | VNone => "null"
  | VBool b => json_bool b
  | VInt z => json_int z
  | VFloat f => json_float f
  | VStr s => json_string s
  | VList l =>
      "[" +:+
      (fix items (l : list pyval) : string :=
         match l with
         | [] => "]"
         | x :: l' =>
             dumps x +:+ match l' with [] => "]" | _ => "," +:+ items l' end
         end) l
  | VDict d =>
      "{" +:+
      (fix entries (d : list (string * pyval)) : string :=
         match d with
         | [] => "}"
         | (k, x) :: d' =>
             json_string k +:+ ":" +:+ dumps x +:+
             match d' with [] => "}" | _ => "," +:+ entries d' end
         end) d
  end.

Definition opt_str (o : option string) : pyval :=
  match o with Some s => VStr s | None => VNone end.

Definition dump_metadata (m : EventMetadata) : pyval :=
  VDict [ ("source", VStr (EventSource_value (source m)));
          ("version", VStr (version m));
          ("correlation_id", opt_str (correlation_id m));
          ("retry_count", VInt (retry_count m)) ].

(** [event.model_dump(mode="json")] with the payload [dict] read from the
    heap: the fields of [HealthcareEvent], in declaration order. *)
Definition dump_fields (e : HealthcareEvent) (p : pydict) : list (string * pyval) :=
  [ ("event_id", opt_str (event_id e));
    ("event_type", VStr (EventType_value (event_type e)));
    ("timestamp", VStr (timestamp e));
    ("provider_id", VStr (provider_id e));
    ("patient_id", VStr (patient_id e));
    ("facility_id", opt_str (facility_id e));
    ("department", opt_str (department e));
    ("payload", VDict p);
    ("metadata", dump_metadata (metadata e)) ].

Definition dump_processed_fields (r : ProcessedEvent) (p : pydict)
  : list (string * pyval) :=
  dump_fields (base r) p ++
  [ ("processed_at", VStr (processed_at r));
    ("encryption_key_id", opt_str (encryption_key_id r));
    ("checksum", opt_str (checksum r));
    ("partition_key", opt_str (partition_key r)) ].

End Json.

(** [event.model_dump_json()] for a [HealthcareEvent] object at [ev]. *)
Definition model_dump_json (ev : Event.loc) : M string :=
  e ← read_event ev;
  p ← read_dict (Event.payload e);
  mret (Json.dumps (Event.VDict (Json.dump_fields e p))).

(** [event.model_dump_json()] for a [ProcessedEvent]. *)
Definition processed_dump_json (r : Event.ProcessedEvent) : M string :=
  p ← read_dict (Event.payload (Event.base r));
  mret (Json.dumps (Event.VDict (Json.dump_processed_fields r p))).

Fixpoint for_each {A} (f : A -> M unit) (l : list A) : M unit :=
  match l with
  | [] => mret tt
  | x :: l' => f x;; for_each f l'
  end.

(** The [HealthcareEvent] constructor: validation, then the new object.
    pydantic builds a new [dict] for the payload field. *)
Definition HealthcareEvent_new (r : Event.RawEvent) : M Event.loc :=
  match Event.validation_errors (Event.raw_provider_id r) (Event.raw_patient_id r) with
  | [] =>
      p ← alloc (ODict (Event.raw_payload r));
      alloc (OEvent {|
        Event.event_id := Event.raw_event_id r;
        Event.event_type := Event.raw_event_type r;
        Event.timestamp := Event.raw_timestamp r;
        Event.provider_id := Event.raw_provider_id r;
        Event.patient_id := Event.raw_patient_id r;
        Event.facility_id := Event.raw_facility_id r;
        Event.department := Event.raw_department r;
        Event.payload := p;
        Event.metadata := Event.raw_metadata r |})
  | errors => raise (ValidationError errors)
  end.

(** ** [src/services/encryption.py], [src/services/cache.py] and
       [src/services/event_processor.py] *)

Section Processor.

Import Event.

(** The Fernet cipher followed by the second base64 encoding: the answer
    to the [n]-th call of [encrypt_phi], [None] when the cipher raises. *)
Variable cipher : nat -> string -> option string.

(** [settings.KMS_KEY_ID] *)
Variable current_key_id : string.

(** The [n]-th reading of the clock, as ISO 8601 text. *)
Variable utcnow : nat -> string.

(** Whether the Redis server accepts a write at the [n]-th clock reading. *)
Variable redis_up : nat -> bool.

(** Python's builtin [str] on a payload value. *)
Variable py_str : pyval -> string.

(** [EncryptionService.encrypt_phi]: the empty string passes through, a
    cipher failure is logged and raised again. *)
Definition encrypt_phi (data : string) : M string :=
  fun w =>
    let w' := add_enc_call data w in
    if negb (PyStr.truthy data) then (Ok data, w')
    else match cipher (length (enc_calls w)) data with
         | Some c => (Ok c, w')
         | None => (Raise CipherError, w')
         end.

Definition datetime_utcnow : M string :=
  fun w => (Ok (utcnow (clock_reads w)), tick w).

(** [CacheService.set]: every failure is caught, the answer says whether
    the value was stored; [ttl or self.default_ttl]. *)
Definition cache_set (key : string) (value : string * string) (ttl : nat) : M bool :=
  fun w =>
    if redis_up (clock_reads w)
    then (Ok true,
          set_status_store
            (<[key := (value, if Nat.eqb ttl 0 then 300 else ttl)]> (status_store w)) w)
    else (Ok false, w).

Definition sensitive_fields : list string :=
  ["ssn"; "mrn"; "dob"; "address"; "phone"; "email"; "insurance_id";
   "diagnosis_code"].

(** The body of the loop of [_encrypt_payload], on the copy at [l]. *)
Definition encrypt_field (l : loc) (field : string) : M unit :=
  d ← read_dict l;
  match dict_get d field with
  | Some v =>
      c ← encrypt_phi (py_str v);
      d' ← read_dict l;
      write_obj l (ODict (dict_set d' field (VStr c)))
  | None => mret tt
  end.

Definition _encrypt_payload (payload : loc) : M loc :=
  d ← read_dict payload;
  encrypted_payload ← alloc (ODict d);
  for_each (encrypt_field encrypted_payload) sensitive_fields;;
  mret encrypted_payload.

Definition _generate_checksum (event : loc) : M string :=
  event_data ← model_dump_json event;
  mret (Sha256.hexdigest (PyStr.encode event_data)).

Definition _generate_partition_key (event : loc) : M string :=
  e ← read_event event;
  mret (provider_id e +:+ ":" +:+ EventType_value (event_type e)).

(** The [ProcessedEvent] constructor: the inherited constraints and
    validators of [provider_id] and [patient_id] run again, on the values
    given; the payload is copied into a new [dict]. *)
Definition ProcessedEvent_new
    (e : HealthcareEvent) (patient : string) (payload_ : loc)
    (processed_at_ : string) (key_id checksum_ partition_key_ : string)
  : M ProcessedEvent :=
  match validation_errors (provider_id e) patient with
  | [] =>
      d ← read_dict payload_;
      p ← alloc (ODict d);
      mret {|
        base := {|
          event_id := event_id e;
          event_type := event_type e;
          timestamp := timestamp e;
          provider_id := provider_id e;
          patient_id := patient;
          facility_id := facility_id e;
          department := department e;
          payload := p;
          metadata := metadata e |};
        processed_at := processed_at_;
        encryption_key_id := Some key_id;
        checksum := Some checksum_;
        partition_key := Some partition_key_ |}
  | errors => raise (ValidationError errors)
  end.

(** [EventProcessor.process] *)
Definition process (event : loc) : M ProcessedEvent :=
  e1 ← read_event event;
  encrypted_patient_id ← encrypt_phi (patient_id e1);
  e2 ← read_event event;
  encrypted_payload ← _encrypt_payload (payload e2);
  checksum_ ← _generate_checksum event;
  partition_key_ ← _generate_partition_key event;
  e3 ← read_event event;
  now ← datetime_utcnow;
  processed_event ←
    ProcessedEvent_new e3 encrypted_patient_id encrypted_payload now
      current_key_id checksum_ partition_key_;
  e4 ← read_event event;
  now' ← datetime_utcnow;
  cache_set ("event:" +:+ PyStr.format_opt (event_id e4) +:+ ":status")
            ("processed", now') 3600;;
  mret processed_event.

End Processor.

(** ** [src/utils/config.py] *)

Record Settings := {
  KINESIS_STREAM_NAME : string;
  KINESIS_DLQ_STREAM_NAME : string;
  KMS_KEY_ID : string
}.

Definition default_settings : Settings := {|
  KINESIS_STREAM_NAME := "healthcare-events";
  KINESIS_DLQ_STREAM_NAME := "healthcare-events-dlq";
  KMS_KEY_ID := "alias/healthcare-analytics-key"
|}.

(** ** [src/services/kinesis_producer.py] *)

Module Producer.

Record KinesisProducer := {
  stream_name : string;
  dlq_stream_name : string;
  max_retries : nat;
  base_delay : Q
}.

(** [KinesisProducer.__init__] *)
Definition KinesisProducer_init (settings : Settings) : KinesisProducer := {|
  stream_name := KINESIS_STREAM_NAME settings;
  dlq_stream_name := KINESIS_DLQ_STREAM_NAME settings;
  max_retries := 3;
  base_delay := 1 # 10
|}.

(** The dictionary [send_batch] returns. *)
Record batch_summary := { total : Z; success : Z; failed : Z }.

(** How one turn of the retry loop ends. *)
Inductive loop_exit := Continue | Break | Return (b : bool).

(** [try: body except ClientError as e: handler]: other exceptions pass. *)
Definition except_ClientError {A} (body : M A) (handler : string -> M A) : M A :=
  fun w => match body w with
           | (Raise (ClientError code), w') => handler code w'
           | r => r
           end.

Definition log (level event : string) : M unit := modify (emit (ELog level event)).

Definition sleep (seconds : Q) : M unit := modify (emit (ESleep seconds)).

Fixpoint map_M {A B} (f : A -> M B) (l : list A) : M (list B) :=
  match l with
  | [] => mret []
  | x :: l' => y ← f x; ys ← map_M f l'; mret (y :: ys)
  end.

Section Producer.

Import Event.

(** The stream client: its answer to a call, given everything the process
    did before. *)
Variable client_put_record :
  list effect -> string -> list N -> option string -> put_outcome.
Variable client_put_records :
  list effect -> string -> list (list N * option string) -> put_records_outcome.

Variable self : KinesisProducer.

(** [self.client.put_record(StreamName=..., Data=..., PartitionKey=...)] *)
Definition put_record (stream : string) (data : list N) (key : option string)
  : M (string * string) :=
  fun w =>
    let answer := client_put_record (trace w) stream data key in
    let w' := emit (EPutRecord stream data key answer) w in
    match answer with
    | PutOk shard sequence => (Ok (shard, sequence), w')
    | PutFail e => (Raise e, w')
    end.

Definition put_records (stream : string) (records : list (list N * option string))
  : M (option Z * list put_records_entry) :=
  fun w =>
    let answer := client_put_records (trace w) stream records in
    let w' := emit (EPutRecords stream records answer) w in
    match answer with
    | BatchOk failed_count results => (Ok (failed_count, results), w')
    | BatchFail e => (Raise e, w')
    end.

(** [{'Data': event.model_dump_json().encode(),
     'PartitionKey': event.partition_key}] *)
Definition wire_record (event : ProcessedEvent) : M (list N * option string) :=
  data ← processed_dump_json event;
  mret (PyStr.encode data, partition_key event).

Definition _put_record (event : ProcessedEvent) : M (string * string) :=
  r ← wire_record event;
  put_record (stream_name self) (fst r) (snd r).

Definition _send_to_dlq (event : ProcessedEvent) : M unit :=
  except_ClientError
    (r ← wire_record event;
     put_record (dlq_stream_name self) (fst r) (snd r);;
     log "warning" "event_sent_to_dlq")
    (fun _ => log "error" "dlq_publish_failed").

(** The body of the loop of [send_event]. *)
Definition send_attempt (event : ProcessedEvent) (attempt : nat) : M loop_exit :=
  except_ClientError
    (_put_record event;;
     log "info" "event_published";;
     mret (Return true))
    (fun error_code =>
       log "warning" "kinesis_publish_retry";;
       if String.eqb error_code "ProvisionedThroughputExceededException"
       then
         sleep (base_delay self * inject_Z (2 ^ Z.of_nat attempt));;
         mret Continue
       else mret Break).

(** [for attempt in attempts: ...]; [None] when the loop is left without
    [return]. *)
Fixpoint send_loop (event : ProcessedEvent) (attempts : list nat)
  : M (option bool) :=
  match attempts with
  | [] => mret None
  | attempt :: rest =>
      c ← send_attempt event attempt;
      match c with
      | Return b => mret (Some b)
      | Break => mret None
      | Continue => send_loop event rest
      end
  end.

Definition send_event (event : ProcessedEvent) : M bool :=
  r ← send_loop event (seq 0 (max_retries self));
  match r with
  | Some b => mret b
  | None => _send_to_dlq event;; mret false
  end.

Definition is_error (result : put_records_entry) : bool :=
  match result with EntryError _ _ => true | EntryOk _ _ => false end.

(** [for event, result in zip(events, results): ...] *)
Definition _handle_failed_records
    (events : list ProcessedEvent) (results : list put_records_entry) : M unit :=
  for_each
    (fun er : ProcessedEvent * put_records_entry =>
       if is_error (snd er) then _send_to_dlq (fst er) else mret tt)
    (combine events results).

Definition send_batch (events : list ProcessedEvent) : M batch_summary :=
  records ← map_M wire_record events;
  let n := Z.of_nat (length events) in
  except_ClientError
    (response ← put_records (stream_name self) records;
     let failed_count := default 0%Z (fst response) in
     let success_count := (n - failed_count)%Z in
     log "info" "batch_published";;
     (if (0 <? failed_count)%Z
      then _handle_failed_records events (snd response)
      else mret tt);;
     mret {| total := n; success := success_count; failed := failed_count |})
    (fun _ =>
       log "error" "batch_publish_failed";;
       for_each _send_to_dlq events;;
       mret {| total := n; success := 0; failed := n |}).

End Producer.

End Producer.

Import Producer.

(** ** [src/services/kinesis_consumer.py] *)

Module Consumer.

(** The [ShardIteratorType] of a [get_shard_iterator] request, with its
    [StartingSequenceNumber]. *)
Inductive iterator_type :=
| AFTER_SEQUENCE_NUMBER (StartingSequenceNumber : string)
| LATEST.

(** A record as [get_records] returns it. *)
Record stream_record := {
  Data : list N;
  SequenceNumber : string
}.

Inductive get_records_outcome :=
| RecordsOk (Records : list stream_record) (NextShardIterator : option string)
| RecordsFail (e : exn).

Inductive get_iterator_outcome :=
| IteratorOk (ShardIterator : string)
| IteratorFail (e : exn).

(** What the consumer does to the outside world, with the answers. *)
Inductive cevent :=
| CGetShardIterator (shard_id : string) (request : iterator_type)
                    (answer : get_iterator_outcome)
| CGetRecords (iterator : string) (limit : nat) (answer : get_records_outcome)
| CSleep (seconds : nat)
| CHandled (sequence_number : string) (returned : bool)
| CLog (level event detail : string).

(** The numeric value of a sequence number, a decimal string: the order of
    the records of a shard. *)
Definition seq_value (s : string) : N :=
  fold_left (fun acc c => (10 * acc + (N_of_ascii c - 48))%N)
            (list_ascii_of_string s) 0%N.

Definition seq_le (a b : string) : Prop := (seq_value a <= seq_value b)%N.

Inductive loop_result :=
| Exited
| Raised (e : exn)
| OutOfFuel.

Section Consumer.

(** The decoded record and the state of the downstream handler. *)
Context {data_t handler_t : Type}.

(** [json.loads(record['Data'].decode())], [None] when it raises. *)
Variable json_loads : list N -> option data_t.

(** [self.processor]: whether the call returns ([true]) or raises, and the
    handler's new state. *)
Variable processor : data_t -> handler_t -> bool * handler_t.

Variable client_get_shard_iterator :
  list cevent -> string -> string -> iterator_type -> get_iterator_outcome.
Variable client_get_records :
  list cevent -> string -> nat -> get_records_outcome.

(** Whether another task has called [stop()] by now. *)
Variable stop_called : list cevent -> bool.

Record KinesisConsumer := {
  consumer_stream_name : string;
  running : bool;
  checkpoint_table : gmap string string;
  handler : handler_t;
  events : list cevent             (* oldest first *)
}.

(** [KinesisConsumer.__init__] *)
Definition KinesisConsumer_init (settings : Settings) (h : handler_t)
  : KinesisConsumer := {|
  consumer_stream_name := KINESIS_STREAM_NAME settings;
  running := false;
  checkpoint_table := ∅;
  handler := h;
  events := []
|}.

Definition record_event (e : cevent) (c : KinesisConsumer) : KinesisConsumer := {|
  consumer_stream_name := consumer_stream_name c;
  running := running c;
  checkpoint_table := checkpoint_table c;
  handler := handler c;
  events := events c ++ [e]
|}.

Definition set_checkpoint (shard_id sequence_number : string) (c : KinesisConsumer)
  : KinesisConsumer := {|
  consumer_stream_name := consumer_stream_name c;
  running := running c;
  checkpoint_table := <[shard_id := sequence_number]> (checkpoint_table c);
  handler := handler c;
  events := events c
|}.

Definition set_handler (h : handler_t) (c : KinesisConsumer) : KinesisConsumer := {|
  consumer_stream_name := consumer_stream_name c;
  running := running c;
  checkpoint_table := checkpoint_table c;
  handler := h;
  events := events c
|}.

Definition set_running (b : bool) (c : KinesisConsumer) : KinesisConsumer := {|
  consumer_stream_name := consumer_stream_name c;
  running := b;
  checkpoint_table := checkpoint_table c;
  handler := handler c;
  events := events c
|}.

Definition record_processing_error (record : stream_record) (c : KinesisConsumer)
  : KinesisConsumer :=
  record_event (CLog "error" "record_processing_error" (SequenceNumber record)) c.

(** The body of the loop of [_process_records]: the checkpoint is written
    inside the [try], after the handler has returned. *)
Definition process_record (shard_id : string) (c : KinesisConsumer)
    (record : stream_record) : KinesisConsumer :=
  match json_loads (Data record) with
  | None => record_processing_error record c
  | Some data =>
      let '(returned, h) := processor data (handler c) in
      let c' := record_event (CHandled (SequenceNumber record) returned)
                             (set_handler h c) in
      if returned
      then set_checkpoint shard_id (SequenceNumber record) c'
      else record_processing_error record c'
  end.

Definition _process_records (records : list stream_record) (shard_id : string)
    (c : KinesisConsumer) : KinesisConsumer :=
  record_event (CLog "info" "records_processed" shard_id)
               (fold_left (process_record shard_id) records c).

(** The request [_get_shard_iterator] makes: [if checkpoint:] is the truth
    value of what [checkpoint_table.get(shard_id)] returns. *)
Definition iterator_request (c : KinesisConsumer) (shard_id : string)
  : iterator_type :=
  match checkpoint_table c !! shard_id with
  | Some checkpoint =>
      if PyStr.truthy checkpoint then AFTER_SEQUENCE_NUMBER checkpoint else LATEST
  | None => LATEST
  end.

Definition _get_shard_iterator (shard_id : string) (c : KinesisConsumer)
  : result string * KinesisConsumer :=
  let request := iterator_request c shard_id in
  let answer :=
    client_get_shard_iterator (events c) (consumer_stream_name c) shard_id request in
  let c' := record_event (CGetShardIterator shard_id request answer) c in
  match answer with
  | IteratorOk iterator => (Ok iterator, c')
  | IteratorFail e => (Raise e, c')
  end.

(** [stop()] run by another task takes effect at the next test of
    [self.running]. *)
Definition poll_stop (c : KinesisConsumer) : KinesisConsumer :=
  if stop_called (events c) then set_running false c else c.

Definition iterator_truthy (iterator : option string) : bool :=
  match iterator with Some s => PyStr.truthy s | None => false end.

(** The [while self.running and iterator:] loop of [_consume_shard], for at
    most [fuel] turns. *)
Fixpoint consume_loop (fuel : nat) (shard_id : string) (iterator : option string)
    (c : KinesisConsumer) : loop_result * KinesisConsumer :=
  match fuel with
  | O => (OutOfFuel, c)
  | S fuel' =>
      let c := poll_stop c in
      if running c && iterator_truthy iterator then
        let it := default EmptyString iterator in
        let answer := client_get_records (events c) it 100 in
        let c := record_event (CGetRecords it 100 answer) c in
        match answer with
        | RecordsOk records next =>
            let c := match records with
                     | [] => c
                     | _ => _process_records records shard_id c
                     end in
            let c := match records with
                     | [] => record_event (CSleep 1) c
                     | _ => c
                     end in
            consume_loop fuel' shard_id next c
        | RecordsFail (ClientError error_code) =>
            if String.eqb error_code "ExpiredIteratorException" then
              match _get_shard_iterator shard_id c with
              | (Ok iterator', c) => consume_loop fuel' shard_id (Some iterator') c
              | (Raise e, c) => (Raised e, c)
              end
            else
              let c := record_event (CLog "error" "shard_consume_error" shard_id) c in
              let c := record_event (CSleep 5) c in
              consume_loop fuel' shard_id iterator c
        | RecordsFail e => (Raised e, c)
        end
      else (Exited, c)
  end.

Definition _consume_shard (fuel : nat) (shard_id : string) (c : KinesisConsumer)
  : loop_result * KinesisConsumer :=
  match _get_shard_iterator shard_id c with
  | (Ok iterator, c) => consume_loop fuel shard_id (Some iterator) c
  | (Raise e, c) => (Raised e, c)
  end.

End Consumer.

Arguments KinesisConsumer handler_t : clear implicits.

End Consumer.

Import Consumer.

(** ** Fixtures, after [tests/test_events.py] *)

Module Fixture.

Import Event.

Definition metadata0 : EventMetadata :=
  {| source := EHR_EPIC; version := "1.0"; correlation_id := None;
     retry_count := 0 |}.

(** The [sample_event] of the tests. *)
Definition sample_event : RawEvent := {|
  raw_event_id := Some "7c9e6679-7425-40de-944b-e07fc1f90ae7";
  raw_event_type := PATIENT_VISIT;
  raw_timestamp := "2024-01-15T10:30:00";
  raw_provider_id := "PROV-001";
  raw_patient_id := "PAT-12345";
  raw_facility_id := Some "FAC-NYC-001";
  raw_department := Some "cardiology";
  raw_payload := [ ("visit_type", VStr "routine_checkup");
                   ("duration_minutes", VInt 30);
                   ("diagnosis_code", VStr "I10") ];
  raw_metadata := metadata0
|}.

Definition with_type (t : EventType) (r : RawEvent) : RawEvent := {|
  raw_event_id := raw_event_id r;
  raw_event_type := t;
  raw_timestamp := raw_timestamp r;
  raw_provider_id := raw_provider_id r;
  raw_patient_id := raw_patient_id r;
  raw_facility_id := raw_facility_id r;
  raw_department := raw_department r;
  raw_payload := raw_payload r;
  raw_metadata := raw_metadata r
|}.

Definition with_payload (p : pydict) (r : RawEvent) : RawEvent := {|
  raw_event_id := raw_event_id r;
  raw_event_type := raw_event_type r;
  raw_timestamp := raw_timestamp r;
  raw_provider_id := raw_provider_id r;
  raw_patient_id := raw_patient_id r;
  raw_facility_id := raw_facility_id r;
  raw_department := raw_department r;
  raw_payload := p;
  raw_metadata := raw_metadata r
|}.

Definition with_ids (provider patient : string) (r : RawEvent) : RawEvent := {|
  raw_event_id := raw_event_id r;
  raw_event_type := raw_event_type r;
  raw_timestamp := raw_timestamp r;
  raw_provider_id := provider;
  raw_patient_id := patient;
  raw_facility_id := raw_facility_id r;
  raw_department := raw_department r;
  raw_payload := raw_payload r;
  raw_metadata := raw_metadata r
|}.

(** [AsyncMock(return_value="encrypted")] in place of the cipher. *)
Definition mock_cipher : nat -> string -> option string :=
  fun _ _ => Some "encrypted".

Definition mock_utcnow : nat -> string := fun _ => "2024-01-15T10:30:01".

Definition mock_redis : nat -> bool := fun _ => true.

(** [str] on the strings of the sample payload. *)
Definition mock_str (v : pyval) : string :=
  match v with VStr s => s | _ => EmptyString end.

Definition empty_world : World := {|
  heap := ∅; enc_calls := []; clock_reads := 0; status_store := ∅; trace := []
|}.

(** The world in which the sample event has been built, at address 2 with
    its payload dictionary at address 1. *)
Definition sample_world : World := snd (HealthcareEvent_new sample_event empty_world).

Definition sample_loc : loc := 2%positive.

Definition lab_result_world : World :=
  snd (HealthcareEvent_new (with_type LAB_RESULT sample_event) empty_world).

(** The sample event built, then processed with the mocks of the tests. *)
Definition build_and_process (r : RawEvent) : result ProcessedEvent * World :=
  (event ← HealthcareEvent_new r;
   process mock_cipher "test-key" mock_utcnow mock_redis mock_str event)
    empty_world.

End Fixture.

(** ** Reading JSON text and bytes back *)

Section Text.

Import Event Json.

(** The text the digest is taken of, for an event [e] whose payload
    dictionary is [d]. *)
Definition event_json (e : HealthcareEvent) (d : pydict) : string :=
  Json.dumps (VDict (Json.dump_fields e d)).

Definition event_checksum (e : HealthcareEvent) (d : pydict) : string :=
  Sha256.hexdigest (PyStr.encode (event_json e d)).

(** Two strings that differ at a position they both have. *)
Fixpoint clash (a b : string) : bool :=
  match a, b with
  | String x a', String y b' => if Ascii.eqb x y then clash a' b' else true
  | _, _ => false
  end.

Definition is_digit (c : ascii) : bool :=
  let n := nat_of_ascii c in Nat.leb 48 n && Nat.leb n 57.

(** What may follow a number: the end of the text, or a character that is
    not a digit. *)
Definition delimited (r : string) : Prop :=
  match r with
  | EmptyString => True
  | String c _ => is_digit c = false
  end.

(** The digits of an integer, without its sign. *)
Definition digits_of (z : Z) : Decimal.uint :=
  match z with
  | Z0 => Decimal.D0 Decimal.Nil
  | Zpos p => Pos.to_uint p
  | Zneg p => Pos.to_uint p
  end.

(** The elements of a list and the entries of a dictionary, as [dumps]
    writes them after the opening bracket. *)
Fixpoint dump_items (l : list pyval) : string :=
  match l with
  | [] => "]"
  | x :: l' => dumps x +:+ match l' with [] => "]" | _ => "," +:+ dump_items l' end
  end.

Fixpoint dump_entries (d : list (string * pyval)) : string :=
  match d with
  | [] => "}"
  | (k, x) :: d' =>
      json_string k +:+ ":" +:+ dumps x +:+
      match d' with [] => "}" | _ => "," +:+ dump_entries d' end
  end.

(** Induction on payload values, through lists and dictionaries. *)
Section pyval_induction.

Variable P : pyval -> Prop.
Hypothesis HNone : P VNone.
Hypothesis HBool : forall b, P (VBool b).
Hypothesis HInt : forall z, P (VInt z).
Hypothesis HFloat : forall f, P (VFloat f).
Hypothesis HStr : forall s, P (VStr s).
Hypothesis HList : forall l, Forall P l -> P (VList l).
Hypothesis HDict : forall d, Forall (fun kv => P (snd kv)) d -> P (VDict d).

Fixpoint pyval_nested_ind (v : pyval) : P v :=
  match v with
  | VNone => HNone
  | VBool b => HBool b
  | VInt z => HInt z
  | VFloat f => HFloat f
  | VStr s => HStr s
  | VList l =>
      HList l ((fix go (l : list pyval) : Forall P l :=
                  match l with
                  | [] => @List.Forall_nil _ P
                  | x :: l' => @List.Forall_cons _ P x l' (pyval_nested_ind x) (go l')
                  end) l)
  | VDict d =>
      HDict d ((fix go (d : list (string * pyval))
                  : Forall (fun kv => P (snd kv)) d :=
                  match d with
                  | [] => @List.Forall_nil _ _
                  | kv :: d' =>
                      @List.Forall_cons _ (fun kv => P (snd kv)) kv d'
                                   (pyval_nested_ind (snd kv)) (go d')
                  end) d)
  end.

End pyval_induction.

(** The characters of an integer. *)
Definition integer_char (c : ascii) : bool := digit_char c || Ascii.eqb c "-".

(** The characters a JSON value can start with. *)
Definition value_start (c : ascii) : bool :=
  is_digit c || existsb (Ascii.eqb c) (list_ascii_of_string "ntf-[{")
  || Ascii.eqb c dquote.

(** What may follow a value in a JSON text: the end of the text, or a
    character that no number holds. *)
Definition number_end (r : string) : Prop :=
  match r with
  | EmptyString => True
  | String c _ => number_char c = false
  end.

(** Every float in a value is finite, and held as the literal of a
    float. *)
Fixpoint finite_floats (v : pyval) : bool :=
  match v with
  | VFloat (FFinite literal) => float_literal literal
  | VFloat _ => false
  | VList l => forallb finite_floats l
  | VDict d => forallb (fun kv => finite_floats (snd kv)) d
  | _ => true
  end.

(** A non-finite float replaced by [None], throughout a value. *)
Fixpoint nullify (v : pyval) : pyval :=
  match v with
  | VFloat FNaN | VFloat (FInfinity _) => VNone
  | VList l => VList (map nullify l)
  | VDict d => VDict (map (fun kv => (fst kv, nullify (snd kv))) d)
  | _ => v
  end.

(** [dumps v] followed by [r] can be read back in one way only, among the
    values whose floats are finite. *)
Definition reads_back (v : pyval) : Prop :=
  forall v' r r', finite_floats v' = true -> number_end r -> number_end r' ->
    dumps v +:+ r = dumps v' +:+ r' -> v = v' /\ r = r'.

Fixpoint clash_bytes (a b : list N) : bool :=
  match a, b with
  | x :: a', y :: b' => if N.eqb x y then clash_bytes a' b' else true
  | _, _ => false
  end.

(** The contents of an event object: its fields, with the payload
    dictionary [d] in place of the reference to it. *)
Definition contents (e : HealthcareEvent) (d : pydict) : RawEvent := {|
  raw_event_id := event_id e;
  raw_event_type := event_type e;
  raw_timestamp := timestamp e;
  raw_provider_id := provider_id e;
  raw_patient_id := patient_id e;
  raw_facility_id := facility_id e;
  raw_department := department e;
  raw_payload := d;
  raw_metadata := metadata e
|}.

Definition collision (x y : list N) : Prop :=
  x <> y /\ Sha256.hexdigest x = Sha256.hexdigest y.

(** A payload with [None] in place of every float that is not finite. *)
Definition nullify_payload (d : pydict) : pydict :=
  map (fun kv => (fst kv, nullify (snd kv))) d.

(** Two payloads with the same entries, inserted in different orders. *)
Definition same_mapping (d1 d2 : pydict) : Prop :=
  NoDup (dict_keys d1) /\ NoDup (dict_keys d2)
  /\ forall k, dict_get d1 k = dict_get d2 k.

End Text.

(** ** Reading the trace of the producer *)

(** What [wire_record] computes for an event whose payload dictionary is in
    the heap [h]. *)
Definition wire_of (h : gmap Event.loc pyobj) (event : Event.ProcessedEvent)
  : option (list N * option string) :=
  match h !! Event.payload (Event.base event) with
  | Some (ODict d) =>
      Some (PyStr.encode
              (Json.dumps (Event.VDict (Json.dump_processed_fields event d))),
            Event.partition_key event)
  | _ => None
  end.

Definition is_log (e : effect) : bool :=
  match e with ELog _ _ => true | _ => false end.

(** The calls on the stream client and the sleeps, without the log lines. *)
Definition calls (t : list effect) : list effect :=
  List.filter (fun e => negb (is_log e)) t.

(** The [put_record] calls on one stream: the record sent and the answer. *)
Fixpoint puts_on (stream : string) (t : list effect)
  : list (list N * option string * put_outcome) :=
  match t with
  | [] => []
  | EPutRecord s data key answer :: t' =>
      if String.eqb s stream
      then (data, key, answer) :: puts_on stream t'
      else puts_on stream t'
  | _ :: t' => puts_on stream t'
  end.

Definition accepted (answer : put_outcome) : bool :=
  match answer with PutOk _ _ => true | PutFail _ => false end.

(** Whether some [put_record] on the stream was accepted. *)
Definition delivered (stream : string) (t : list effect) : bool :=
  existsb (fun p => accepted (snd p)) (puts_on stream t).

(** The number of [put_records] calls. *)
Definition batch_calls (t : list effect) : nat :=
  length (List.filter (fun e => match e with EPutRecords _ _ _ => true | _ => false end) t).

(** The calls of a run of throttled attempts: each a [put_record] on the
    primary stream and the sleep that follows it. *)
Definition throttled_attempts
    (self : KinesisProducer) (r : list N * option string) (attempts : list nat)
  : list effect :=
  flat_map
    (fun attempt =>
       [ EPutRecord (stream_name self) (fst r) (snd r)
           (PutFail (ClientError "ProvisionedThroughputExceededException"));
         ESleep (base_delay self * inject_Z (2 ^ Z.of_nat attempt)) ])
    attempts.

Definition throttled : put_outcome :=
  PutFail (ClientError "ProvisionedThroughputExceededException").

(** Whether an exception is botocore's [ClientError]. *)
Definition is_ClientError (e : exn) : bool :=
  match e with ClientError _ => true | _ => false end.

(** How [send_event] ends after its dead-letter write, by the answer to
    that write: [_send_to_dlq] swallows a client error and lets any other
    exception pass. *)
Definition after_dead_letter (answer : put_outcome) : result bool :=
  match answer with
  | PutOk _ _ => Ok false
  | PutFail e => if is_ClientError e then Ok false else Raise e
  end.

(** The stream client raises nothing but [ClientError]. *)
Definition client_errors_only
    (client : list effect -> string -> list N -> option string -> put_outcome)
  : Prop :=
  forall history stream data key e,
    client history stream data key = PutFail e -> exists code, e = ClientError code.


(** The records of a batch that the stream reports as failed. *)
Definition failed_records
    (records : list (list N * option string)) (results : list put_records_entry)
  : list (list N * option string) :=
  map fst (List.filter (fun p => is_error (snd p)) (combine records results)).


(** A processed record ready for the producer, its payload dictionary at
    address 1, and three stream clients. *)
Module StreamFixture.

Import Event.

Definition record : ProcessedEvent := {|
  base := {|
    event_id := Some "7c9e6679-7425-40de-944b-e07fc1f90ae7";
    event_type := LAB_RESULT;
    timestamp := "2024-01-15T10:30:00";
    provider_id := "PROV-001";
    patient_id := "encrypted";
    facility_id := None;
    department := None;
    payload := 1%positive;
    metadata := Fixture.metadata0 |};
  processed_at := "2024-01-15T10:30:01";
  encryption_key_id := Some "test-key";
  checksum := Some "00";
  partition_key := Some "PROV-001:lab_result"
|}.

Definition world : World := {|
  heap := {[ 1%positive := ODict [("test", VStr "glucose")] ]};
  enc_calls := []; clock_reads := 0; status_store := ∅; trace := []
|}.

Definition wire : list N * option string :=
  default ([], None) (wire_of (heap world) record).

Definition producer : KinesisProducer := KinesisProducer_init default_settings.

(** Every call is throttled. *)
Definition always_throttled
  : list effect -> string -> list N -> option string -> put_outcome :=
  fun _ _ _ _ => throttled.

(** Every call fails with a client error that is not the throttling one. *)
Definition always_unavailable
  : list effect -> string -> list N -> option string -> put_outcome :=
  fun _ _ _ _ => PutFail (ClientError "InternalFailure").

(** The first call on the primary stream is throttled, the others fail
    with another client error. *)
Definition throttled_once
  : list effect -> string -> list N -> option string -> put_outcome :=
  fun history _ _ _ =>
    if Nat.ltb (length (puts_on "healthcare-events" history)) 1
    then throttled
    else PutFail (ClientError "InternalFailure").

(** The dead-letter stream accepts, the primary stream is unavailable. *)
Definition primary_unavailable
  : list effect -> string -> list N -> option string -> put_outcome :=
  fun _ stream _ _ =>
    if String.eqb stream "healthcare-events-dlq" then PutOk "shardId-0" "1"
    else PutFail (ClientError "InternalFailure").

(** The connection to the primary stream fails, which is no client
    error; the dead-letter stream accepts. *)
Definition primary_disconnected
  : list effect -> string -> list N -> option string -> put_outcome :=
  fun _ stream _ _ =>
    if String.eqb stream "healthcare-events-dlq" then PutOk "shardId-0" "1"
    else PutFail OtherError.

(** A batch of three records; the stream rejects the second. *)
Definition batch : list ProcessedEvent := [record; record; record].

Definition second_rejected : list put_records_entry :=
  [ EntryOk "1" "shardId-0";
    EntryError "ProvisionedThroughputExceededException" "Rate exceeded";
    EntryOk "2" "shardId-0" ].




End StreamFixture.

(** ** Reading the trace of the consumer *)

(** The checkpoint of a shard after the events [t], when it was [cp]
    before: the marker of the last record whose handler returned. *)
Fixpoint checkpoint_after (cp : option string) (t : list cevent) : option string :=
  match t with
  | [] => cp
  | CHandled sequence_number true :: t' => checkpoint_after (Some sequence_number) t'
  | _ :: t' => checkpoint_after cp t'
  end.

(** The position to ask for, by the rule of the specification: after the
    checkpoint when there is one, the newest record otherwise. *)
Definition position_for (cp : option string) : iterator_type :=
  match cp with
  | Some sequence_number => AFTER_SEQUENCE_NUMBER sequence_number
  | None => LATEST
  end.

(** Every [get_shard_iterator] request of [t] asks for the position of the
    checkpoint as it is at that moment, [cp] being the checkpoint before
    [t]. *)
Fixpoint positions_follow_checkpoint (cp : option string) (t : list cevent) : Prop :=
  match t with
  | [] => True
  | CGetShardIterator _ request _ :: t' =>
      request = position_for cp /\ positions_follow_checkpoint cp t'
  | CHandled sequence_number true :: t' =>
      positions_follow_checkpoint (Some sequence_number) t'
  | _ :: t' => positions_follow_checkpoint cp t'
  end.

(** The records handed to the handler, by sequence number, with the
    outcome. *)
Fixpoint handled (t : list cevent) : list (string * bool) :=
  match t with
  | [] => []
  | CHandled sequence_number returned :: t' =>
      (sequence_number, returned) :: handled t'
  | _ :: t' => handled t'
  end.

(** The sequence numbers of the [record_processing_error] log lines. *)
Fixpoint error_lines (t : list cevent) : list string :=
  match t with
  | [] => []
  | CLog level event detail :: t' =>
      if String.eqb level "error" && String.eqb event "record_processing_error"
      then detail :: error_lines t'
      else error_lines t'
  | _ :: t' => error_lines t'
  end.

(** The stream hands out records whose sequence numbers are not empty. *)
Definition sequence_numbers_nonempty
    (client_get_records : list cevent -> string -> nat -> get_records_outcome)
  : Prop :=
  forall history iterator limit records next,
    client_get_records history iterator limit = RecordsOk records next ->
    Forall (fun r => SequenceNumber r <> EmptyString) records.

(** The checkpoint of the shard, when there is one, is not the empty
    string. *)
Definition checkpoint_nonempty {handler_t} (c : KinesisConsumer handler_t)
    (shard : string) : Prop :=
  forall s, checkpoint_table c !! shard = Some s -> s <> EmptyString.

(** Records in the order of the shard: each at or after the one before. *)
Fixpoint ascending (sequence_numbers : list string) : Prop :=
  match sequence_numbers with
  | [] => True
  | a :: rest =>
      Forall (seq_le a) rest /\ ascending rest
  end.

(** Whether the bytes of a record decode. *)
Definition decodes {data_t} (json_loads : list N -> option data_t)
    (record : stream_record) : bool :=
  match json_loads (Data record) with Some _ => true | None => false end.

(** A consumer whose handler counts the records it is given and raises on
    the payload [poison]. *)
Module ConsumerFixture.

Definition loads : list N -> option (list N) := Some.

Definition poison : list N := [112; 111; 105; 115; 111; 110]%N.

Definition counting : list N -> nat -> bool * nat :=
  fun data count =>
    (negb (bool_decide (data = poison)), S count).

Definition consumer : KinesisConsumer nat := KinesisConsumer_init default_settings 0.

Definition good (sequence_number : string) : stream_record :=
  {| Data := [123; 125]%N; SequenceNumber := sequence_number |}.

Definition bad (sequence_number : string) : stream_record :=
  {| Data := poison; SequenceNumber := sequence_number |}.

Definition shard : string := "shardId-000000000000".

(** The consumer after a restart of the loop, with the checkpoint [5]
    persisted for the shard. *)
Definition resumed : KinesisConsumer nat :=
  set_running true (_process_records loads counting [good "5"] shard consumer).

(** A stream that hands out the record [6] once and then reports the
    iterator as expired. *)
Definition get_records : list cevent -> string -> nat -> get_records_outcome :=
  fun history _ _ =>
    if Nat.ltb (length history) 4
    then RecordsOk [good "6"] (Some "iterator-2")
    else RecordsFail (ClientError "ExpiredIteratorException").

Definition get_shard_iterator
  : list cevent -> string -> string -> iterator_type -> get_iterator_outcome :=
  fun _ _ _ _ => IteratorOk "iterator-1".

Definition never_stopped : list cevent -> bool := fun _ => false.

End ConsumerFixture.

(** ** The claims that do not hold as stated *)

Section Claims.

Import Event.

(** C1, as stated: the text that is digested is canonical, so that the same
    logical event (the same fields, the same payload entries) always gets
    the same checksum. *)
Definition checksum_is_canonical : Prop :=
  forall (r : RawEvent) (d1 d2 : pydict) pe1 w1 pe2 w2,
    same_mapping d1 d2 ->
    Fixture.build_and_process (Fixture.with_payload d1 r) = (Ok pe1, w1) ->
    Fixture.build_and_process (Fixture.with_payload d2 r) = (Ok pe2, w2) ->
    checksum pe1 = checksum pe2.

(** C9, as stated in its last part: an event whose identifiers are not
    blank passes validation. *)
Definition nonblank_identifiers_pass : Prop :=
  forall (body : RawEvent) (w : World),
    PyStr.blank (raw_provider_id body) = false ->
    PyStr.blank (raw_patient_id body) = false ->
    exists ev w', HealthcareEvent_new body w = (Ok ev, w').

(** C3, as stated in its last part: on a failure of the transport that
    is not the throttling one, [send_event] makes no further attempt and
    writes the record to the dead-letter stream. *)
Definition nonretryable_failure_is_dead_lettered : Prop :=
  forall client self event w r e,
    wire_of (heap w) event = Some r ->
    0 < max_retries self ->
    stream_name self <> dlq_stream_name self ->
    e <> ClientError "ProvisionedThroughputExceededException" ->
    (forall history data key,
       client history (stream_name self) data key = PutFail e) ->
    exists t,
      trace (snd (send_event client self event w)) = trace w ++ t
      /\ length (puts_on (stream_name self) t) = 1
      /\ length (puts_on (dlq_stream_name self) t) = 1.


(** C4, as stated: after [send_event], the record is in the dead-letter
    stream exactly when it is not in the primary stream. *)
Definition dead_lettered_iff_not_delivered : Prop :=
  forall client self event w r b w' t,
    wire_of (heap w) event = Some r ->
    client_errors_only client ->
    stream_name self <> dlq_stream_name self ->
    send_event client self event w = (Ok b, w') ->
    trace w' = trace w ++ t ->
    delivered (dlq_stream_name self) t = negb (delivered (stream_name self) t).

(** C2, as stated: a record whose handler raises still moves the
    checkpoint of the shard to its sequence number. *)
Definition poison_record_advances_checkpoint : Prop :=
  forall (json_loads : list N -> option (list N))
         (processor : list N -> nat -> bool * nat)
         shard (c : KinesisConsumer nat) record data h,
    json_loads (Data record) = Some data ->
    processor data (handler c) = (false, h) ->
    checkpoint_table (process_record json_loads processor shard c record) !! shard
    = Some (SequenceNumber record).

(** C8, as stated: whatever records a batch holds, the checkpoint of the
    shard after the batch is not before the checkpoint it had. *)
Definition checkpoint_never_decreases : Prop :=
  forall (json_loads : list N -> option (list N))
         (processor : list N -> nat -> bool * nat)
         records shard (c : KinesisConsumer nat) s s',
    checkpoint_table c !! shard = Some s ->
    checkpoint_table (_process_records json_loads processor records shard c) !! shard
    = Some s' ->
    seq_le s s'.

End Claims.

(** * Part I, continued: the code around the pipeline *)

(** ** What [process] asks of the cipher *)

Section CipherCalls.

Variable py_str : Event.pyval -> string.

(** [str(payload[field])] for the fields of [fields] that the payload
    holds, in the order of [fields]. *)
Definition values_of (fields : list string) (d : Event.pydict) : list string :=
  flat_map
    (fun field =>
       match Event.dict_get d field with Some v => [py_str v] | None => [] end)
    fields.

(** The arguments of the calls that [_encrypt_payload] makes. *)
Definition sensitive_values (d : Event.pydict) : list string :=
  values_of sensitive_fields d.

End CipherCalls.

(** The key under which [process] caches the status of an event, and
    under which [get_status] looks it up. *)
Definition status_key (event_id : option string) : string :=
  "event:" +:+ PyStr.format_opt event_id +:+ ":status".

(** The sample event of the tests as an object, once
    [Fixture.sample_world] holds it: its payload dictionary is at
    address 1. *)
Module Sample.

Import Event.

Definition payload_dict : pydict :=
  [ ("visit_type", VStr "routine_checkup");
    ("duration_minutes", VInt 30);
    ("diagnosis_code", VStr "I10") ].

Definition event : HealthcareEvent := {|
  event_id := Some "7c9e6679-7425-40de-944b-e07fc1f90ae7";
  event_type := PATIENT_VISIT;
  timestamp := "2024-01-15T10:30:00";
  provider_id := "PROV-001";
  patient_id := "PAT-12345";
  facility_id := Some "FAC-NYC-001";
  department := Some "cardiology";
  payload := 1%positive;
  metadata := Fixture.metadata0
|}.

(** A cipher that raises at every call. *)
Definition refusing_cipher : nat -> string -> option string := fun _ _ => None.

End Sample.

(** ** [base64.urlsafe_b64encode], [base64.urlsafe_b64decode] and
       [bytes.decode]: the codecs of [src/services/encryption.py] *)

Module Base64.

Local Open Scope N_scope.

(** The character of a six-bit value in the URL-safe alphabet:
    [A-Z], [a-z], [0-9], [-] and [_]. *)
Definition char_of (sextet : N) : N :=
  if sextet <? 26 then 65 + sextet
  else if sextet <? 52 then 71 + sextet
  else if sextet <? 62 then sextet - 4
  else if sextet =? 62 then 45
  else 95.

(** [=] *)
Definition pad_char : N := 61.

(** [base64.urlsafe_b64encode]: three bytes give four characters, the last
    group is padded with [=]. *)
Fixpoint urlsafe_b64encode (bs : list N) : list N :=
  match bs with
  | [] => []
  | [a] =>
      [char_of (N.shiftr a 2); char_of (N.shiftl (N.land a 3) 4);
       pad_char; pad_char]
  | [a; b] =>
      [char_of (N.shiftr a 2);
       char_of (N.lor (N.shiftl (N.land a 3) 4) (N.shiftr b 4));
       char_of (N.shiftl (N.land b 15) 2);
       pad_char]
  | a :: b :: c :: rest =>
      char_of (N.shiftr a 2)
      :: char_of (N.lor (N.shiftl (N.land a 3) 4) (N.shiftr b 4))
      :: char_of (N.lor (N.shiftl (N.land b 15) 2) (N.shiftr c 6))
      :: char_of (N.land c 63)
      :: urlsafe_b64encode rest
  end.

(** The six-bit value of a character.  [urlsafe_b64decode] turns [-] and
    [_] into [+] and [/] and calls the standard decoder, so it reads both
    alphabets. *)
Definition value_of (ch : N) : option N :=
  if (65 <=? ch) && (ch <=? 90) then Some (ch - 65)
  else if (97 <=? ch) && (ch <=? 122) then Some (ch - 71)
  else if (48 <=? ch) && (ch <=? 57) then Some (ch + 4)
  else if (ch =? 45) || (ch =? 43) then Some 62
  else if (ch =? 95) || (ch =? 47) then Some 63
  else None.

(** The decoder of [binascii.a2b_base64] when it is not strict, as of
    CPython 3.11: a character outside the alphabet is skipped, a pad
    character counts once two characters of a group have been read, a
    complete pad sequence ends the input, and the input must not end
    inside a group.  [None] is [binascii.Error]. *)
Fixpoint a2b_base64 (input : list N) (quad_pos : nat) (leftchar : N) (pads : nat)
  : option (list N) :=
  match input with
  | [] => if Nat.eqb quad_pos 0 then Some [] else None
  | ch :: rest =>
      if ch =? pad_char then
        if Nat.leb 2 quad_pos then
          if Nat.leb 4 (quad_pos + S pads) then Some []
          else a2b_base64 rest quad_pos leftchar (S pads)
        else a2b_base64 rest quad_pos leftchar pads
      else
        match value_of ch with
        | None => a2b_base64 rest quad_pos leftchar pads
        | Some v =>
            match quad_pos with
            | 0%nat => a2b_base64 rest 1 v 0
            | 1%nat =>
                cons (N.lor (N.shiftl leftchar 2) (N.shiftr v 4))
                  <$> a2b_base64 rest 2 (N.land v 15) 0
            | 2%nat =>
                cons (N.lor (N.shiftl leftchar 4) (N.shiftr v 2))
                  <$> a2b_base64 rest 3 (N.land v 3) 0
            | _ =>
                cons (N.lor (N.shiftl leftchar 6) v)
                  <$> a2b_base64 rest 0 0 0
            end
        end
  end.

(** [base64.urlsafe_b64decode] *)
Definition urlsafe_b64decode (input : list N) : option (list N) :=
  a2b_base64 input 0 0 0.

End Base64.

Module Utf8.

Local Open Scope N_scope.

(** [bytes.decode()]: UTF-8, for text whose code points are below 256.
    [None] is [UnicodeDecodeError], and also text that the strings of this
    development do not hold. *)
Fixpoint decode (bs : list N) : option string :=
  match bs with
  | [] => Some EmptyString
  | b :: rest =>
      if b <? 128 then String (ascii_of_N b) <$> decode rest
      else if (b =? 194) || (b =? 195) then
        match rest with
        | b2 :: rest' =>
            if (128 <=? b2) && (b2 <? 192)
            then String (ascii_of_N (N.lor (N.shiftl (N.land b 3) 6) (N.land b2 63)))
                   <$> decode rest'
            else None
        | [] => None
        end
      else None
  end.

End Utf8.

(** ** [src/services/encryption.py]: the encryption service *)

Module Encryption.

(** What [decrypt_phi] raises: [binascii.Error], Fernet's [InvalidToken],
    [UnicodeDecodeError]. *)
Inductive decrypt_error := Base64Error | InvalidToken | UnicodeDecodeError.

Inductive decrypted :=
| Plain (data : string)
| Fails (e : decrypt_error).

(** The settings the service reads. *)
Record EncryptionSettings := {
  ENCRYPTION_SECRET : string;
  ENCRYPTION_SALT : string
}.

Definition default_encryption_settings : EncryptionSettings := {|
  ENCRYPTION_SECRET := "dev-secret-key-change-in-production";
  ENCRYPTION_SALT := "dev-salt-change-in-production"
|}.

(** The fields of an [EncryptionService]: [_cipher] is held as the key of
    its [Fernet] object; [logged] is what the service has logged, oldest
    first. *)
Record EncryptionService := {
  current_key_id : string;
  _cipher : list N;
  logged : list (string * string)
}.

Definition log_line (level event : string) (self : EncryptionService)
  : EncryptionService := {|
  current_key_id := current_key_id self;
  _cipher := _cipher self;
  logged := logged self ++ [(level, event)]
|}.

Section Service.

(** [Fernet(key).encrypt(data)]: the token of the call number [n] of the
    process (Fernet reads the clock and draws an initialisation vector),
    [None] when it raises.  [Fernet(key).decrypt(token)]: [None] is
    [InvalidToken]. *)
Variable fernet_encrypt : list N -> nat -> list N -> option (list N).
Variable fernet_decrypt : list N -> list N -> option (list N).

(** [PBKDF2HMAC(SHA256, length=32, salt, iterations=100000).derive(password)] *)
Variable pbkdf2 : list N -> list N -> list N.

Variable settings : Settings.
Variable encryption_settings : EncryptionSettings.

Definition _derive_local_key : list N :=
  let password := PyStr.encode (ENCRYPTION_SECRET encryption_settings) in
  let salt := PyStr.encode (ENCRYPTION_SALT encryption_settings) in
  Base64.urlsafe_b64encode (pbkdf2 salt password).

Definition _initialize_local_cipher (self : EncryptionService)
  : EncryptionService :=
  log_line "info" "encryption_initialized_local_mode" {|
    current_key_id := current_key_id self;
    _cipher := _derive_local_key;
    logged := logged self
  |}.

(** [EncryptionService.__init__] *)
Definition EncryptionService_init : EncryptionService :=
  _initialize_local_cipher {|
    current_key_id := KMS_KEY_ID settings;
    _cipher := [];
    logged := []
  |}.

(** What [encrypt_phi] does with a string that is not empty:
    [base64.urlsafe_b64encode(self._cipher.encrypt(data.encode())).decode()];
    [None] when a step raises. *)
Definition service_cipher (self : EncryptionService)
  : nat -> string -> option string :=
  fun n data =>
    match fernet_encrypt (_cipher self) n (PyStr.encode data) with
    | Some encrypted => Utf8.decode (Base64.urlsafe_b64encode encrypted)
    | None => None
    end.

(** [EncryptionService.encrypt_phi] *)
Definition service_encrypt_phi (self : EncryptionService) (data : string)
  : M string :=
  encrypt_phi (service_cipher self) data.

(** [EncryptionService.decrypt_phi] *)
Definition decrypt_phi (self : EncryptionService) (encrypted_data : string)
  : decrypted :=
  if negb (PyStr.truthy encrypted_data) then Plain encrypted_data
  else
    match Base64.urlsafe_b64decode (PyStr.encode encrypted_data) with
    | None => Fails Base64Error
    | Some decoded =>
        match fernet_decrypt (_cipher self) decoded with
        | None => Fails InvalidToken
        | Some decrypted =>
            match Utf8.decode decrypted with
            | Some text => Plain text
            | None => Fails UnicodeDecodeError
            end
        end
    end.

(** [self.<name>()] for a method that takes no argument and returns
    nothing: the class defines one, [_initialize_local_cipher]; a name it
    does not define raises [AttributeError]. *)
Definition call_method (name : string) (self : EncryptionService)
  : result unit * EncryptionService :=
  if String.eqb name "_initialize_local_cipher"
  then (Ok tt, _initialize_local_cipher self)
  else (Raise AttributeError, self).

(** [EncryptionService.rotate_key] *)
Definition rotate_key (new_key_id : string) (self : EncryptionService)
  : result unit * EncryptionService :=
  let self := {| current_key_id := new_key_id;
                 _cipher := _cipher self;
                 logged := logged self |} in
  match call_method "_initialize_cipher" self with
  | (Ok _, self) => (Ok tt, log_line "info" "encryption_key_rotated" self)
  | (Raise e, self) => (Raise e, self)
  end.

End Service.

End Encryption.

(** A stand-in for Fernet, for examples: a token is 76 bytes followed by
    the data; data that is not a byte string is refused. *)
Module EncryptionFixture.

Definition is_bytes (m : list N) : bool := forallb (fun b => (b <? 256)%N) m.

Definition fernet_encrypt (key : list N) (n : nat) (m : list N)
  : option (list N) :=
  if is_bytes m then Some (repeat 128%N 76 ++ m) else None.

Definition fernet_decrypt (key : list N) (token : list N) : option (list N) :=
  if Nat.leb 76 (length token) then Some (skipn 76 token) else None.

Definition service : Encryption.EncryptionService := {|
  Encryption.current_key_id := "alias/healthcare-analytics-key";
  Encryption._cipher := [];
  Encryption.logged := []
|}.

End EncryptionFixture.

(** ** [src/utils/auth.py]: API keys and scopes *)

Module Auth.

Import Event.

(** The truth value of a Python value: [bool(v)]. *)
Definition truthy (v : pyval) : bool :=
  match v with
  | VNone => false
  | VBool b => b
  | VInt z => negb (z =? 0)%Z
  | VFloat f => float_truthy f
  | VStr s => PyStr.truthy s
  | VList l => match l with [] => false | _ => true end
  | VDict d => match d with [] => false | _ => true end
  end.

(** [not v] for what [dict.get] and [CacheService.get] return. *)
Definition falsy (v : option pyval) : bool :=
  match v with Some x => negb (truthy x) | None => true end.

Definition VALID_API_KEYS : pydict :=
  [ ("dev-api-key-12345",
     VDict [ ("name", VStr "Development Key");
             ("provider_id", VStr "DEV-001");
             ("scopes", VList [VStr "read"; VStr "write"; VStr "admin"]) ]) ].

(** [hash_key] *)
Definition hash_key (api_key : string) : string :=
  Sha256.hexdigest (PyStr.encode api_key).

(** How a route or one of its dependencies ends: it returns, it raises an
    [HTTPException], or it raises something else. *)
Inductive response (A : Type) :=
| Returned (a : A)
| HTTPException (status_code : nat) (detail : string)
| Failed (e : exn).
Arguments Returned {A} a.
Arguments HTTPException {A} status_code detail.
Arguments Failed {A} e.

(** [v.get(key)]: only a [dict] has the method. *)
Definition get_method (v : pyval) (key : string) : response (option pyval) :=
  match v with
  | VDict d => Returned (dict_get d key)
  | _ => Failed AttributeError
  end.

(** [x in scopes] for a string [x]: [scopes] is a list. *)
Definition contains (x : string) (scopes : pyval) : bool :=
  match scopes with
  | VList l =>
      existsb (fun y => match y with VStr s => String.eqb s x | _ => false end) l
  | _ => false
  end.

Section Auth.

(** [CacheService().get(key)]: the cached value; [None] when there is
    none and when Redis fails. *)
Variable cache_get : string -> option pyval.

(** [verify_api_key]: [x_api_key] is the [X-API-Key] header, [None] when
    the request has none. *)
Definition verify_api_key (x_api_key : option string) : response string :=
  match x_api_key with
  | None => HTTPException 401 "Missing API key. Provide X-API-Key header."
  | Some key =>
      if negb (PyStr.truthy key)
      then HTTPException 401 "Missing API key. Provide X-API-Key header."
      else
        let key_info := dict_get VALID_API_KEYS key in
        let verified (key_info : pyval) :=
          match get_method key_info "provider_id" with
          | Returned _ =>
              match get_method key_info "name" with
              | Returned _ => Returned key
              | HTTPException c d => HTTPException c d
              | Failed e => Failed e
              end
          | HTTPException c d => HTTPException c d
          | Failed e => Failed e
          end in
        if falsy key_info then
          let cached_key := cache_get ("api_key:" +:+ hash_key key) in
          if falsy cached_key
          then HTTPException 401 "Invalid API key"
          else verified (default VNone cached_key)
        else verified (default VNone key_info)
  end.

(** [check_scope] *)
Definition check_scope (required_scope api_key : string) : bool :=
  let key_info := default (VDict []) (dict_get VALID_API_KEYS api_key) in
  let scopes :=
    match key_info with
    | VDict d => default (VList []) (dict_get d "scopes")
    | _ => VList []
    end in
  contains required_scope scopes || contains "admin" scopes.

(** The dependency [require_scope(scope)] returns: [verify_api_key] runs
    first, as [Depends] has it. *)
Definition require_scope (scope : string) (x_api_key : option string)
  : response bool :=
  match verify_api_key x_api_key with
  | Returned api_key =>
      if negb (check_scope scope api_key)
      then HTTPException 403
             ("Insufficient permissions. Required scope: " +:+ scope)
      else Returned true
  | HTTPException c d => HTTPException c d
  | Failed e => Failed e
  end.

End Auth.

End Auth.

(** [AnalyticsService._hash_patient_id]: the first sixteen characters of
    the digest. *)
Definition _hash_patient_id (patient_id : string) : string :=
  substring 0 16 (Sha256.hexdigest (PyStr.encode patient_id)).

(** A lower-case hexadecimal digit. *)
Definition is_hex_digit (c : ascii) : bool :=
  let n := nat_of_ascii c in
  (Nat.leb 48 n && Nat.leb n 57) || (Nat.leb 97 n && Nat.leb n 102).

Fixpoint all_chars (p : ascii -> bool) (s : string) : bool :=
  match s with
  | EmptyString => true
  | String c s' => p c && all_chars p s'
  end.

(** A cache that holds one dynamically issued key, [hap_demo], under the
    hash of the key. *)
Module AuthFixture.

Import Event.

Definition issued_key : string := "hap_demo".

Definition cache_get (key : string) : option pyval :=
  if String.eqb key ("api_key:" +:+ Auth.hash_key issued_key)
  then Some (VDict [ ("name", VStr "Clinic"); ("provider_id", VStr "PROV-001");
                     ("scopes", VList [VStr "read"; VStr "write"]) ])
  else None.

End AuthFixture.

(** ** More readings of the producer's trace *)

(** The sleeps of a trace, in seconds, oldest first. *)
Definition sleeps (t : list effect) : list Q :=
  flat_map (fun e => match e with ESleep seconds => [seconds] | _ => [] end) t.

(** The [put_record] calls of a trace, whatever the stream. *)
Definition puts (t : list effect) : list (string * (list N * option string)) :=
  flat_map
    (fun e =>
       match e with
       | EPutRecord stream data key _ => [(stream, (data, key))]
       | _ => []
       end) t.

(** The delay after the attempt [attempt]: [base_delay * (2 ** attempt)]. *)
Definition backoff (self : KinesisProducer) (attempt : nat) : Q :=
  base_delay self * inject_Z (2 ^ Z.of_nat attempt).

Module BatchFixture.

Import StreamFixture.

(** The stream reports no failed record, yet the second entry of its
    answer carries an error code. *)
Definition miscounted
  : list effect -> string -> list (list N * option string)
    -> put_records_outcome :=
  fun _ _ _ => BatchOk (Some 0%Z) second_rejected.

End BatchFixture.

(** ** [KinesisConsumer._default_processor] *)

(** The default processor logs [record_received] with
    [data.get('event_id')]; only a [dict] has the method.  The state of
    this handler is the list of what it has logged, oldest first. *)
Definition _default_processor
    (data : Event.pyval) (received : list (option Event.pyval))
  : bool * list (option Event.pyval) :=
  match data with
  | Event.VDict d => (true, received ++ [Event.dict_get d "event_id"])
  | _ => (false, received)
  end.

(** The events of [turns] turns of the loop of [_consume_shard] in which
    [get_records] raises a client error other than the expiry of the
    iterator. *)
Definition failed_polls (shard iterator code : string) (turns : nat)
  : list cevent :=
  concat
    (repeat [ CGetRecords iterator 100 (RecordsFail (ClientError code));
              CLog "error" "shard_consume_error" shard;
              CSleep 5 ] turns).

Module PollFixture.

(** A stream on which every [get_records] fails. *)
Definition unavailable : list cevent -> string -> nat -> get_records_outcome :=
  fun _ _ _ => RecordsFail (ClientError "InternalFailure").

Definition consumer : KinesisConsumer nat :=
  set_running true ConsumerFixture.consumer.

End PollFixture.

(** ** Python values at run time: subscripts and equality *)

Module Py.

Import Event.

(** What the analytics and health code can raise besides the errors of the
    database driver. *)
Inductive error :=
| TypeError
| KeyError (key : pyval)
| IndexError
| SQLAlchemyError
| OtherException
| PydanticValidationError.

Inductive outcome (A : Type) :=
| Value (a : A)
| Raises (e : error).
Arguments Value {A} a.
Arguments Raises {A} e.

(** [container[key]]: a [dict] is read under a key, a list or a string at
    an integer index (a boolean is an integer), negative indices counting
    from the end.  A list or a [dict] is not hashable and cannot be a key;
    a string or a list cannot be read under a string; [None], a boolean,
    an integer or a float cannot be subscripted. *)
Definition index_of (i : Z) (len : nat) : option nat :=
  if (0 <=? i)%Z
  then (if (i <? Z.of_nat len)%Z then Some (Z.to_nat i) else None)
  else (if (0 <=? i + Z.of_nat len)%Z then Some (Z.to_nat (i + Z.of_nat len))
        else None).

Definition as_index (key : pyval) : option Z :=
  match key with
  | VInt i => Some i
  | VBool b => Some (if b then 1 else 0)%Z
  | _ => None
  end.

Definition subscript (container key : pyval) : outcome pyval :=
  match container with
  | VDict d =>
      match key with
      | VStr k =>
          match dict_get d k with
          | Some v => Value v
          | None => Raises (KeyError key)
          end
      | VList _ | VDict _ => Raises TypeError
      | _ => Raises (KeyError key)
      end
  | VList l =>
      match as_index key with
      | Some i =>
          match index_of i (length l) with
          | Some n => match nth_error l n with
                      | Some v => Value v
                      | None => Raises IndexError
                      end
          | None => Raises IndexError
          end
      | None => Raises TypeError
      end
  | VStr s =>
      match as_index key with
      | Some i =>
          match index_of i (String.length s) with
          | Some n => match String.get n s with
                      | Some c => Value (VStr (String c EmptyString))
                      | None => Raises IndexError
                      end
          | None => Raises IndexError
          end
      | None => Raises TypeError
      end
  | _ => Raises TypeError
  end.

(** [v == n] for an integer [n], and [v == s] for a string [s]: [True] is
    equal to [1] and [False] to [0], a float to the integer of the same
    value. *)
Definition eq_int (v : option pyval) (n : Z) : bool :=
  match v with
  | Some (VInt z) => (z =? n)%Z
  | Some (VBool b) => ((if b then 1 else 0) =? n)%Z
  | Some (VFloat f) => float_eq_int f n
  | _ => false
  end.

Definition eq_str (v : pyval) (s : string) : bool :=
  match v with VStr x => String.eqb x s | _ => false end.

End Py.

(** ** [get_db_health], [get_kinesis_health] and [src/api/routes/health.py] *)

Module Health.

Import Event.

(** What [DatabaseService().execute_query("SELECT 1 as health_check")]
    does: the constructor or the query raises, or the query returns the
    first row, if there is one. *)
Inductive db_answer :=
| Fetched (row : option pydict)
| DbRaises (e : Py.error).

(** What [boto3.client(...).describe_stream(...)] does. *)
Inductive describe_answer :=
| Described (response : pyval)
| DescribeRaises (e : Py.error).

(** The dictionary a health function returns. *)
Record component := {
  healthy : bool;
  status : pyval;
  error : option Py.error
}.

(** [DatabaseService.execute_query]: the first row as a [dict], an empty
    [dict] when there is none. *)
Definition execute_query (answer : db_answer) : Py.outcome pydict :=
  match answer with
  | Fetched (Some row) => Py.Value row
  | Fetched None => Py.Value []
  | DbRaises e => Py.Raises e
  end.

(** [get_db_health] *)
Definition get_db_health (answer : db_answer) : component :=
  match execute_query answer with
  | Py.Value result =>
      {| healthy := Py.eq_int (dict_get result "health_check") 1;
         status := VStr "connected";
         error := None |}
  | Py.Raises e =>
      {| healthy := false; status := VStr "error"; error := Some e |}
  end.

(** [get_kinesis_health] *)
Definition get_kinesis_health (answer : describe_answer) : component :=
  let failed e :=
    {| healthy := false; status := VStr "error"; error := Some e |} in
  match answer with
  | DescribeRaises e => failed e
  | Described response =>
      match Py.subscript response (VStr "StreamDescription") with
      | Py.Raises e => failed e
      | Py.Value description =>
          match Py.subscript description (VStr "StreamStatus") with
          | Py.Raises e => failed e
          | Py.Value stream_status =>
              {| healthy := Py.eq_str stream_status "ACTIVE";
                 status := stream_status;
                 error := None |}
          end
      end
  end.

(** The body of the answer of [/health/detailed]. *)
Record detailed := {
  overall : string;
  timestamp : string;
  database : component;
  kinesis : component
}.

(** [detailed_health_check] *)
Definition detailed_health_check
    (db : db_answer) (stream : describe_answer) (now : string) : detailed :=
  let db_status := get_db_health db in
  let kinesis_status := get_kinesis_health stream in
  {| overall := if forallb id [healthy db_status; healthy kinesis_status]
                then "healthy" else "degraded";
     timestamp := now;
     database := db_status;
     kinesis := kinesis_status |}.

End Health.

(** ** [src/services/analytics_service.py] and
       [src/api/routes/analytics.py]: time series *)

Module Analytics.

Import Event.

Inductive AggregationType := MINUTE | HOUR | DAY | WEEK.

(** [_parse_time_range]: [mapping.get(time_range, "INTERVAL '24 hours'")] *)
Definition _parse_time_range (time_range : string) : string :=
  if String.eqb time_range "1h" then "INTERVAL '1 hour'"
  else if String.eqb time_range "24h" then "INTERVAL '24 hours'"
  else if String.eqb time_range "7d" then "INTERVAL '7 days'"
  else if String.eqb time_range "30d" then "INTERVAL '30 days'"
  else "INTERVAL '24 hours'".

(** [_get_days_from_range] *)
Definition _get_days_from_range (time_range : string) : Z :=
  if String.eqb time_range "1h" then 1
  else if String.eqb time_range "24h" then 1
  else if String.eqb time_range "7d" then 7
  else if String.eqb time_range "30d" then 30
  else 1.

(** [_get_bucket_interval] *)
Definition _get_bucket_interval (aggregation : AggregationType) : string :=
  match aggregation with
  | MINUTE => "1 minute"
  | HOUR => "1 hour"
  | DAY => "1 day"
  | WEEK => "1 week"
  end.

(** The lookup of the column expression in [get_timeseries], with its
    default. *)
Definition metric_column (metric : string) : string :=
  if String.eqb metric "event_count" then "COUNT(*)"
  else if String.eqb metric "unique_patients" then "COUNT(DISTINCT patient_id)"
  else if String.eqb metric "error_rate"
  then "COUNT(*) FILTER (WHERE status = 'error') * 100.0 / NULLIF(COUNT(*), 0)"
  else if String.eqb metric "latency_p99"
  then "PERCENTILE_CONT(0.99) WITHIN GROUP (ORDER BY processing_time_ms)"
  else "COUNT(*)".

(** The line feed of the statement text. *)
Definition nl : string := String "010"%char EmptyString.

(** [if provider_id:] *)
Definition given (provider_id : option string) : bool :=
  match provider_id with Some p => PyStr.truthy p | None => false end.

(** What [get_timeseries] hands to [execute_query]: the text of the
    statement and its parameters. *)
Definition timeseries_request
    (metric time_range : string) (aggregation : AggregationType)
    (provider_id : option string) : string * list (string * string) :=
  let interval := _parse_time_range time_range in
  let bucket := _get_bucket_interval aggregation in
  let where_clause :=
    "WHERE timestamp > NOW() - %(interval)s"
    +:+ (if given provider_id then " AND provider_id = %(provider_id)s"
         else EmptyString) in
  let params :=
    [("interval", interval); ("bucket", bucket)]
    ++ (if given provider_id
        then [("provider_id", default EmptyString provider_id)]
        else []) in
  (nl +:+ "            SELECT" +:+ nl
   +:+ "                time_bucket(%(bucket)s, timestamp) as bucket_time," +:+ nl
   +:+ "                " +:+ metric_column metric +:+ " as value" +:+ nl
   +:+ "            FROM events" +:+ nl
   +:+ "            " +:+ where_clause +:+ nl
   +:+ "            GROUP BY bucket_time" +:+ nl
   +:+ "            ORDER BY bucket_time" +:+ nl
   +:+ "        ",
   params).

Definition valid_metrics : list string :=
  ["event_count"; "unique_patients"; "error_rate"; "latency_p99"].

(** How a route ends: with a body, with an [HTTPException], or with an
    exception that nothing catches. *)
Inductive reply (A : Type) :=
| Body (a : A)
| Rejected (status_code : nat) (detail : string)
| Uncaught (e : Py.error).
Arguments Body {A} a.
Arguments Rejected {A} status_code detail.
Arguments Uncaught {A} e.

Section Service.

(** The database: what [execute_query] does with a statement and its
    parameters. *)
Variable db_execute : string -> list (string * string) -> Health.db_answer.

(** Floating-point numbers and the arithmetic of [get_timeseries] on
    them: [sum(values)], [sum(values) / len(values)], [min(values)],
    [max(values)], and the float of an integer. *)
Variable float : Type.
Variable float_sum : list float -> float.
Variable float_average : list float -> float.
Variable float_min float_max : list float -> float.
Variable float_of_Z : Z -> float.

(** pydantic's validation of the two fields of a
    [TimeSeriesDataPoint]. *)
Variable validate_datetime : pyval -> option string.
Variable validate_float : pyval -> option float.

Record TimeSeriesDataPoint := { point_timestamp : string; value : float }.

Record TimeSeriesData := {
  metric : string;
  aggregation : AggregationType;
  data_points : list TimeSeriesDataPoint;
  total : float;
  average : float;
  min_value : float;
  max_value : float
}.

(** [TimeSeriesDataPoint(timestamp=row['bucket_time'], value=row['value'])] *)
Definition data_point (row : pyval) : Py.outcome TimeSeriesDataPoint :=
  match Py.subscript row (VStr "bucket_time") with
  | Py.Raises e => Py.Raises e
  | Py.Value bucket_time =>
      match Py.subscript row (VStr "value") with
      | Py.Raises e => Py.Raises e
      | Py.Value v =>
          match validate_datetime bucket_time, validate_float v with
          | Some t, Some x => Py.Value {| point_timestamp := t; value := x |}
          | _, _ => Py.Raises Py.PydanticValidationError
          end
      end
  end.

(** The list comprehension over [query_result]: the first exception ends
    it. *)
Fixpoint data_points_of (rows : list pyval)
  : Py.outcome (list TimeSeriesDataPoint) :=
  match rows with
  | [] => Py.Value []
  | row :: rest =>
      match data_point row with
      | Py.Raises e => Py.Raises e
      | Py.Value p =>
          match data_points_of rest with
          | Py.Raises e => Py.Raises e
          | Py.Value ps => Py.Value (p :: ps)
          end
      end
  end.

(** [AnalyticsService.get_timeseries].  [execute_query] returns one
    [dict], the first row, and iterating over a [dict] gives its keys. *)
Definition get_timeseries
    (metric_ time_range : string) (aggregation_ : AggregationType)
    (provider_id : option string) : Py.outcome TimeSeriesData :=
  let request := timeseries_request metric_ time_range aggregation_ provider_id in
  match Health.execute_query (db_execute (fst request) (snd request)) with
  | Py.Raises e => Py.Raises e
  | Py.Value query_result =>
      match data_points_of (map VStr (dict_keys query_result)) with
      | Py.Raises e => Py.Raises e
      | Py.Value points =>
          let values := map value points in
          let nonempty := match values with [] => false | _ => true end in
          Py.Value {|
            metric := metric_;
            aggregation := aggregation_;
            data_points := points;
            total := if nonempty then float_sum values else float_of_Z 0;
            average := if nonempty then float_average values else float_of_Z 0;
            min_value := if nonempty then float_min values else float_of_Z 0;
            max_value := if nonempty then float_max values else float_of_Z 0
          |}
      end
  end.

(** The route [/timeseries]: [time_range] is the value of the [TimeRange]
    of the request. *)
Definition get_timeseries_data
    (metric_ time_range : string) (aggregation_ : AggregationType)
    (provider_id : option string) : reply TimeSeriesData :=
  if negb (existsb (String.eqb metric_) valid_metrics)
  then Rejected 400
         "Invalid metric. Must be one of: ['event_count', 'unique_patients', 'error_rate', 'latency_p99']"
  else
    match get_timeseries metric_ time_range aggregation_ provider_id with
    | Py.Value data => Body data
    | Py.Raises e => Uncaught e
    end.

End Service.

End Analytics.

Module AnalyticsFixture.

Import Event.

(** A database that holds one bucket. *)
Definition one_bucket (query : string) (params : list (string * string))
  : Health.db_answer :=
  Health.Fetched
    (Some [("bucket_time", VStr "2024-01-15T10:00:00"); ("value", VInt 42)]).

End AnalyticsFixture.

(** ** [src/api/routes/events.py]: the batch route and the status route *)

Module Routes.

Import Event.

(** [EventResponse] *)
Record EventResponse := {
  response_event_id : string;
  response_status : string;
  response_timestamp : string;
  response_error : option string
}.

(** The state of a request: the world, and the records for which a task
    [kinesis_producer.send_event] has been added to [background_tasks],
    oldest first. *)
Definition RouteState : Type := World * list ProcessedEvent.

(** A computation of a route function. *)
Definition R (A : Type) : Type := RouteState -> result A * RouteState.

Definition R_ret {A} (a : A) : R A := fun s => (Ok a, s).

Definition R_bind {A B} (m : R A) (k : A -> R B) : R B :=
  fun s =>
    match m s with
    | (Ok a, s') => k a s'
    | (Raise e, s') => (Raise e, s')
    end.

(** A computation on the world alone. *)
Definition lift {A} (m : M A) : R A :=
  fun s => let '(r, w) := m (fst s) in (r, (w, snd s)).

(** [background_tasks.add_task(kinesis_producer.send_event, processed_event)] *)
Definition add_task (processed_event : ProcessedEvent) : R unit :=
  fun s => (Ok tt, (fst s, snd s ++ [processed_event])).

(** [try: body except Exception as e: handler]: what [body] did before it
    raised stays done. *)
Definition try_except {A} (body : R A) (handler : exn -> R A) : R A :=
  fun s =>
    match body s with
    | (Raise e, s') => handler e s'
    | r => r
    end.

Fixpoint map_R {A B} (f : A -> R B) (l : list A) : R (list B) :=
  match l with
  | [] => R_ret []
  | x :: l' => R_bind (f x) (fun y => R_bind (map_R f l') (fun ys => R_ret (y :: ys)))
  end.

(** The [EventResponse] constructor: [event_id] has to be a string. *)
Definition EventResponse_new
    (event_id : option string) (status timestamp : string)
    (error : option string) : R EventResponse :=
  match event_id with
  | Some id =>
      R_ret {| response_event_id := id;
               response_status := status;
               response_timestamp := timestamp;
               response_error := error |}
  | None =>
      fun s =>
        (Raise (ValidationError
                  [value_error "event_id" "Input should be a valid string"]), s)
  end.

Definition is_accepted (response : EventResponse) : bool :=
  String.eqb (response_status response) "accepted".

(** [x or "unknown"] *)
Definition or_unknown (event_id : option string) : string :=
  match event_id with
  | Some id => if PyStr.truthy id then id else "unknown"
  | None => "unknown"
  end.

Section Events.

Variable cipher : nat -> string -> option string.
Variable utcnow : nat -> string.
Variable redis_up : nat -> bool.
Variable py_str : pyval -> string.
Variable settings : Settings.

(** [str(e)] *)
Variable exn_str : exn -> string.

(** Whether Redis has dropped the entry under a key by the time of a
    reading of the clock: entries are written with a lifetime. *)
Variable expired : nat -> string -> bool.

(** The body of the loop of [ingest_batch]. *)
Definition ingest_one (event : loc) : R EventResponse :=
  try_except
    (R_bind (lift (process cipher (KMS_KEY_ID settings) utcnow redis_up py_str
                     event))
       (fun processed_event =>
     R_bind (add_task processed_event) (fun _ =>
     R_bind (lift (datetime_utcnow utcnow)) (fun now =>
     EventResponse_new (event_id (base processed_event)) "accepted" now None))))
    (fun e =>
     R_bind (lift (read_event event)) (fun ev =>
     R_bind (lift (datetime_utcnow utcnow)) (fun now =>
     EventResponse_new (Some (or_unknown (event_id ev))) "rejected" now
                       (Some (exn_str e))))).

(** [ingest_batch]: the events of the request are [HealthcareEvent]
    objects already.  [BatchEventRequest] validates to 500 events at
    most, so the first branch is taken only for a request that was built
    without validation. *)
Definition ingest_batch (events : list loc)
  : R (Auth.response (list EventResponse)) :=
  if Nat.ltb 500 (length events)
  then R_ret (Auth.HTTPException 400 "Batch size exceeds maximum of 500 events")
  else
    R_bind (map_R ingest_one events) (fun responses =>
    R_bind (lift (log "info" "batch_ingested")) (fun _ =>
    R_ret (Auth.Returned responses))).

(** [CacheService.get] on the entry of a status: [None] when there is no
    entry, when Redis has dropped it, and, after a warning, when Redis
    fails. *)
Definition cache_get_status (key : string) : M (option (string * string)) :=
  fun w =>
    if redis_up (clock_reads w)
    then (Ok (if expired (clock_reads w) key then None
              else fst <$> status_store w !! key), w)
    else (Ok None, emit (ELog "warning" "cache_get_error") w).

(** [EventProcessor.get_status] *)
Definition get_status (event_id : string) : M (option (string * string)) :=
  cache_get_status ("event:" +:+ event_id +:+ ":status").

(** [get_event_status].  A status is a [dict] with two entries, so it is
    never falsy. *)
Definition get_event_status (event_id : string)
  : M (Auth.response (string * string)) :=
  status ← get_status event_id;
  match status with
  | None => mret (Auth.HTTPException 404 "Event not found")
  | Some s => mret (Auth.Returned s)
  end.

End Events.

End Routes.

Module RoutesFixture.

Import Event.

(** The sample event with [event_id] null, as an object. *)
Definition anonymous_event : RawEvent := {|
  raw_event_id := None;
  raw_event_type := raw_event_type Fixture.sample_event;
  raw_timestamp := raw_timestamp Fixture.sample_event;
  raw_provider_id := raw_provider_id Fixture.sample_event;
  raw_patient_id := raw_patient_id Fixture.sample_event;
  raw_facility_id := raw_facility_id Fixture.sample_event;
  raw_department := raw_department Fixture.sample_event;
  raw_payload := raw_payload Fixture.sample_event;
  raw_metadata := raw_metadata Fixture.sample_event
|}.

Definition anonymous_world : World :=
  snd (HealthcareEvent_new anonymous_event Fixture.empty_world).

Definition anonymous_object : HealthcareEvent := {|
  event_id := None;
  event_type := PATIENT_VISIT;
  timestamp := "2024-01-15T10:30:00";
  provider_id := "PROV-001";
  patient_id := "PAT-12345";
  facility_id := Some "FAC-NYC-001";
  department := Some "cardiology";
  payload := 1%positive;
  metadata := Fixture.metadata0
|}.

Definition exn_str (e : exn) : string :=
  match e with
  | ValidationError _ => "validation error"
  | CipherError => "encryption failed"
  | ClientError code => code
  | OtherError => "error"
  | AttributeError => "attribute error"
  end.

Definition never_expired : nat -> string -> bool := fun _ _ => false.

End RoutesFixture.

(** ** [src/api/routes/events.py]: the single-event route *)

(** A background task: it runs after the response, what it returns or
    raises is dropped. *)
Definition background {A} (task : M A) : M unit :=
  fun w => (Ok tt, snd (task w)).

(** Whether an exception is a [ValueError]: pydantic's [ValidationError]
    is one; the failures of the collaborators are taken not to be. *)
Definition is_ValueError (e : exn) : bool :=
  match e with ValidationError _ => true | _ => false end.

(** [try: body except ValueError as e: handler]: other exceptions pass. *)
Definition except_ValueError {A}
    (body : Routes.R A) (handler : exn -> Routes.R A) : Routes.R A :=
  fun s =>
    match body s with
    | (Raise e, s') => if is_ValueError e then handler e s' else (Raise e, s')
    | r => r
    end.

Section Api.

Import Event Routes.

Variable cipher : nat -> string -> option string.
Variable utcnow : nat -> string.
Variable redis_up : nat -> bool.
Variable py_str : Event.pyval -> string.
Variable client_put_record :
  list effect -> string -> list N -> option string -> put_outcome.
Variable settings : Settings.

(** [str(e)] *)
Variable exn_str : exn -> string.

(** The body of the route function [ingest_event], on the validated
    event: [raise HTTPException(...)] is the answer [Auth.HTTPException]. *)
Definition ingest_event_body (event : loc)
  : R (Auth.response EventResponse) :=
  except_ValueError
    (R_bind (lift (process cipher (KMS_KEY_ID settings) utcnow redis_up py_str
                     event))
       (fun processed_event =>
     R_bind (add_task processed_event) (fun _ =>
     R_bind (lift (log "info" "event_ingested")) (fun _ =>
     R_bind (lift (datetime_utcnow utcnow)) (fun now =>
     R_bind (EventResponse_new (event_id (base processed_event)) "accepted"
                               now None) (fun response =>
     R_ret (Auth.Returned response)))))))
    (fun e =>
     R_bind (lift (log "error" "event_validation_failed")) (fun _ =>
     R_ret (Auth.HTTPException 400 (exn_str e)))).

(** The route function and then its background tasks: the task
    [kinesis_producer.send_event] runs after the route function has
    returned its response, and not at all when it has raised. *)
Definition ingest_event_and_tasks (event : loc)
  : M (Auth.response EventResponse) :=
  fun w =>
    match ingest_event_body event (w, []) with
    | (Ok (Auth.Returned response), (w', tasks)) =>
        (Ok (Auth.Returned response),
         snd (for_each
                (fun processed_event =>
                   background
                     (send_event client_put_record
                                 (KinesisProducer_init settings)
                                 processed_event))
                tasks w'))
    | (r, (w', _)) => (r, w')
    end.

(** The request as a whole: the request body is validated into a
    [HealthcareEvent] before the route function runs. *)
Definition ingest_event (body : RawEvent) : M (Auth.response EventResponse) :=
  event ← HealthcareEvent_new body;
  ingest_event_and_tasks event.

End Api.


(** * Part II: properties *)

#[local] Arguments String.append !_ _ : simpl nomatch.

(** ** Python strings *)

Lemma rstrip_empty_iff s :
  PyStr.rstrip s = EmptyString <-> PyStr.all_space s = true.
Proof.
  induction s as [|c s IH]; simpl; [tauto|].
  destruct (PyStr.rstrip s) eqn:E.
  - destruct (PyStr.isspace c); simpl.
    + split; intros _; [apply IH|]; reflexivity.
    + split; intros H; discriminate H.
  - split; intros H; [discriminate H|].
    apply andb_true_iff in H as [_ H]. apply IH in H. discriminate H.
Qed.

Lemma lstrip_all_space s : PyStr.all_space (PyStr.lstrip s) = PyStr.all_space s.
Proof.
  induction s as [|c s IH]; simpl; [reflexivity|].
  destruct (PyStr.isspace c) eqn:E; simpl; [exact IH | rewrite E; reflexivity].
Qed.

Lemma strip_empty_iff s :
  PyStr.strip s = EmptyString <-> PyStr.all_space s = true.
Proof.
  unfold PyStr.strip. rewrite rstrip_empty_iff, lstrip_all_space. tauto.
Qed.

(** A string is blank exactly when every character of it is whitespace
    (the empty string included). *)
Lemma blank_iff s : PyStr.blank s = true <-> PyStr.all_space s = true.
Proof.
  unfold PyStr.blank. destruct s as [|c s]; simpl; [tauto|].
  rewrite <- (strip_empty_iff (String c s)).
  destruct (PyStr.strip (String c s)); simpl; split; intros H;
    try reflexivity; discriminate H.
Qed.

Example strip_example :
  PyStr.strip "  PROV-001 " = "PROV-001" /\ PyStr.blank "   " = true
  /\ PyStr.blank "" = true /\ PyStr.blank " x " = false.
Proof. repeat split; reflexivity. Qed.

(** ** SHA-256 test vectors *)

Example sha256_abc : Sha256.hexdigest (PyStr.encode "abc") =
  "ba7816bf8f01cfea414140de5dae2223b00361a396177a9cb410ff61f20015ad".
Proof. vm_compute. reflexivity. Qed.

Example sha256_empty : Sha256.hexdigest [] =
  "e3b0c44298fc1c149afbf4c8996fb92427ae41e4649b934ca495991b7852b855".
Proof. vm_compute. reflexivity. Qed.

Example sha256_two_blocks :
  Sha256.hexdigest (repeat 97%N 70) =
  "6bd5e5034855a11241f0dee8fc72850ffd9955b28347a86428b5fa19119f6ad0".
Proof. vm_compute. reflexivity. Qed.

(** ** The world monad *)

Lemma bind_inv {A B} (m : M A) (k : A -> M B) w r w' :
  (m ≫= k) w = (r, w') ->
  (exists a w1, m w = (Ok a, w1) /\ k a w1 = (r, w'))
  \/ (exists e, m w = (Raise e, w') /\ r = Raise e).
Proof.
  unfold mbind, M_bind. destruct (m w) as [[a|e] w1]; intros H.
  - left. eauto.
  - right. inversion H; subst. eauto.
Qed.

Lemma bind_Ok_inv {A B} (m : M A) (k : A -> M B) w b w' :
  (m ≫= k) w = (Ok b, w') ->
  exists a w1, m w = (Ok a, w1) /\ k a w1 = (Ok b, w').
Proof.
  intros H. apply bind_inv in H as [H|(e & _ & H)]; [exact H | discriminate H].
Qed.

Lemma bind_Ok {A B} (m : M A) (k : A -> M B) w a w1 :
  m w = (Ok a, w1) -> (m ≫= k) w = k a w1.
Proof. unfold mbind, M_bind. intros ->. reflexivity. Qed.

Lemma bind_Raise {A B} (m : M A) (k : A -> M B) w e w1 :
  m w = (Raise e, w1) -> (m ≫= k) w = (Raise e, w1).
Proof. unfold mbind, M_bind. intros ->. reflexivity. Qed.

Lemma mret_inv {A} (a : A) w r w' :
  mret (M := M) a w = (r, w') -> r = Ok a /\ w' = w.
Proof. unfold mret, M_ret. intros H. inversion H. auto. Qed.

Lemma read_event_inv l w r w' :
  read_event l w = (r, w') ->
  w' = w /\ (forall e, r = Ok e -> heap w !! l = Some (OEvent e)).
Proof.
  unfold read_event. destruct (heap w !! l) as [[d|e]|]; intros H;
    inversion H; subst; split; auto; intros e' He'; congruence.
Qed.

Lemma read_dict_inv l w r w' :
  read_dict l w = (r, w') ->
  w' = w /\ (forall d, r = Ok d -> heap w !! l = Some (ODict d)).
Proof.
  unfold read_dict. destruct (heap w !! l) as [[d|e]|]; intros H;
    inversion H; subst; split; auto; intros d' Hd'; congruence.
Qed.

Lemma read_event_Some l w e :
  heap w !! l = Some (OEvent e) -> read_event l w = (Ok e, w).
Proof. unfold read_event. intros ->. reflexivity. Qed.

Lemma read_dict_Some l w d :
  heap w !! l = Some (ODict d) -> read_dict l w = (Ok d, w).
Proof. unfold read_dict. intros ->. reflexivity. Qed.

(** A new object never takes the address of an existing one. *)
Lemma alloc_inv o w r w' :
  alloc o w = (r, w') ->
  exists l, r = Ok l /\ heap w !! l = None /\ heap w' = <[l := o]> (heap w)
            /\ enc_calls w' = enc_calls w /\ trace w' = trace w.
Proof.
  unfold alloc. intros H. inversion H; subst; clear H.
  exists (fresh (dom (heap w))). repeat split; try reflexivity.
  apply not_elem_of_dom. apply is_fresh.
Qed.

(** ** Dictionaries *)

Lemma dict_get_set_eq d k v : Event.dict_get (Event.dict_set d k v) k = Some v.
Proof.
  induction d as [|[k' v'] d IH]; simpl.
  - rewrite String.eqb_refl. reflexivity.
  - destruct (String.eqb k' k) eqn:E; simpl; rewrite E; auto.
Qed.

Lemma dict_get_set_ne d k v k' :
  k' <> k -> Event.dict_get (Event.dict_set d k v) k' = Event.dict_get d k'.
Proof.
  intros Hne. induction d as [|[k0 v0] d IH]; simpl.
  - destruct (String.eqb k k') eqn:E; [|reflexivity].
    apply String.eqb_eq in E. congruence.
  - destruct (String.eqb k0 k) eqn:E; simpl.
    + apply String.eqb_eq in E. subst k0.
      destruct (String.eqb k k') eqn:E'; [|reflexivity].
      apply String.eqb_eq in E'. congruence.
    + destruct (String.eqb k0 k'); auto.
Qed.

(** Assignment to a key keeps the keys of the dictionary, in their order,
    when the key is present. *)
Lemma dict_keys_set d k v :
  Event.dict_mem d k = true ->
  Event.dict_keys (Event.dict_set d k v) = Event.dict_keys d.
Proof.
  unfold Event.dict_mem, Event.dict_keys.
  induction d as [|[k0 v0] d IH]; simpl; [discriminate|].
  destruct (String.eqb k0 k) eqn:E; simpl; [reflexivity|].
  intros H. f_equal. apply IH, H.
Qed.

(** ** The event pipeline: what [process] does to the heap *)

Ltac inv_bind H a w1 H1 :=
  let e := fresh "e" in
  apply bind_inv in H as [(a & w1 & H1 & H)|(e & H1 & H)].

Section ProcessorFacts.

Import Event.

Context (cipher : nat -> string -> option string) (current_key_id : string)
        (utcnow : nat -> string) (redis_up : nat -> bool)
        (py_str : pyval -> string).

Lemma encrypt_phi_inv data w r w' :
  encrypt_phi cipher data w = (r, w') ->
  heap w' = heap w /\ enc_calls w' = enc_calls w ++ [data]
  /\ trace w' = trace w.
Proof.
  unfold encrypt_phi. intros H.
  destruct (negb (PyStr.truthy data)); [|destruct (cipher _ _)];
    inversion H; subst; auto.
Qed.

Lemma write_obj_inv l o w r w' :
  write_obj l o w = (r, w') -> r = Ok tt /\ heap w' = <[l := o]> (heap w).
Proof. unfold write_obj, modify. intros H. inversion H; subst. auto. Qed.

(** One turn of the redaction loop rewrites the copy at [l] and nothing
    else, and in the copy only the entry of [field]. *)
Lemma encrypt_field_inv l field w r w' d :
  heap w !! l = Some (ODict d) ->
  encrypt_field cipher py_str l field w = (r, w') ->
  exists d', heap w' = <[l := ODict d']> (heap w)
    /\ (forall k, k <> field -> dict_get d' k = dict_get d k)
    /\ dict_keys d' = dict_keys d.
Proof.
  intros Hl H. unfold encrypt_field in H.
  rewrite (bind_Ok _ _ _ _ _ (read_dict_Some _ _ _ Hl)) in H.
  assert (Hid : heap w = <[l := ODict d]> (heap w))
    by (symmetry; apply insert_id, Hl).
  destruct (dict_get d field) as [v|] eqn:Hget.
  - inv_bind H a w0 H0.
    + apply encrypt_phi_inv in H0 as (Hh & _ & _).
      assert (Hl' : heap w0 !! l = Some (ODict d)) by (rewrite Hh; exact Hl).
      rewrite (bind_Ok _ _ _ _ _ (read_dict_Some _ _ _ Hl')) in H.
      apply write_obj_inv in H as [_ H]. rewrite Hh in H.
      exists (dict_set d field (VStr a)). split; [exact H|]. split.
      * intros k Hk. apply dict_get_set_ne, Hk.
      * apply dict_keys_set. unfold dict_mem. rewrite Hget. reflexivity.
    + apply encrypt_phi_inv in H0 as (Hh & _ & _).
      exists d. rewrite Hh. auto.
  - apply mret_inv in H as [_ ->]. exists d. auto.
Qed.

Lemma for_each_encrypt_field_inv l fields w r w' d :
  heap w !! l = Some (ODict d) ->
  for_each (encrypt_field cipher py_str l) fields w = (r, w') ->
  exists d', heap w' = <[l := ODict d']> (heap w)
    /\ (forall k, ~ In k fields -> dict_get d' k = dict_get d k)
    /\ dict_keys d' = dict_keys d.
Proof.
  revert w d. induction fields as [|f fields IH]; intros w d Hl H; simpl in H.
  - apply mret_inv in H as [_ ->]. exists d. split; [|auto].
    symmetry. apply insert_id, Hl.
  - inv_bind H a w0 H0.
    + destruct (encrypt_field_inv _ _ _ _ _ _ Hl H0) as (d1 & Hh1 & Hk1 & Hkeys1).
      assert (Hl1 : heap w0 !! l = Some (ODict d1))
        by (rewrite Hh1; apply lookup_insert_eq).
      destruct (IH _ _ Hl1 H) as (d2 & Hh2 & Hk2 & Hkeys2).
      exists d2. split; [|split].
      * rewrite Hh2, Hh1. apply insert_insert_eq.
      * intros k Hk. simpl in Hk.
        rewrite Hk2 by tauto. apply Hk1. intros ->. tauto.
      * congruence.
    + destruct (encrypt_field_inv _ _ _ _ _ _ Hl H0) as (d1 & Hh1 & Hk1 & Hkeys1).
      exists d1. split; [exact Hh1|]. split; [|exact Hkeys1].
      intros k Hk. apply Hk1. intros ->. simpl in Hk. tauto.
Qed.

(** [_encrypt_payload] leaves the dictionary it is given as it was: it
    works on a copy at a new address, and in the copy only entries of
    sensitive fields differ. *)
Lemma _encrypt_payload_inv p w r w' d :
  heap w !! p = Some (ODict d) ->
  _encrypt_payload cipher py_str p w = (r, w') ->
  exists l d', heap w !! l = None
    /\ heap w' = <[l := ODict d']> (heap w)
    /\ (forall k, ~ In k sensitive_fields -> dict_get d' k = dict_get d k)
    /\ dict_keys d' = dict_keys d
    /\ (forall l', r = Ok l' -> l' = l).
Proof.
  intros Hp H. unfold _encrypt_payload in H.
  rewrite (bind_Ok _ _ _ _ _ (read_dict_Some _ _ _ Hp)) in H.
  inv_bind H a w0 H0.
  2:{ apply alloc_inv in H0 as (l & Hr & _). discriminate Hr. }
  apply alloc_inv in H0 as (l & Hr & Hfresh & Hh & _).
  inversion Hr; subst a; clear Hr.
  assert (Hl : heap w0 !! l = Some (ODict d))
    by (rewrite Hh; apply lookup_insert_eq).
  exists l.
  inv_bind H u w1 H1.
  - destruct (for_each_encrypt_field_inv _ _ _ _ _ _ Hl H1) as (d' & Hh' & Hk & Hkeys).
    apply mret_inv in H as [-> ->].
    exists d'. repeat split; auto.
    + rewrite Hh', Hh. apply insert_insert_eq.
    + intros l' Hl'. congruence.
  - destruct (for_each_encrypt_field_inv _ _ _ _ _ _ Hl H1) as (d' & Hh' & Hk & Hkeys).
    exists d'. repeat split; auto.
    + rewrite Hh', Hh. apply insert_insert_eq.
    + intros l' Hl'. congruence.
Qed.

Lemma model_dump_json_eval ev w e d :
  heap w !! ev = Some (OEvent e) ->
  heap w !! payload e = Some (ODict d) ->
  model_dump_json ev w = (Ok (event_json e d), w).
Proof.
  intros He Hd. unfold model_dump_json.
  rewrite (bind_Ok _ _ _ _ _ (read_event_Some _ _ _ He)).
  rewrite (bind_Ok _ _ _ _ _ (read_dict_Some _ _ _ Hd)).
  reflexivity.
Qed.

Lemma _generate_checksum_eval ev w e d :
  heap w !! ev = Some (OEvent e) ->
  heap w !! payload e = Some (ODict d) ->
  _generate_checksum ev w = (Ok (event_checksum e d), w).
Proof.
  intros He Hd. unfold _generate_checksum.
  rewrite (bind_Ok _ _ _ _ _ (model_dump_json_eval _ _ _ _ He Hd)).
  reflexivity.
Qed.

Lemma _generate_partition_key_eval ev w e :
  heap w !! ev = Some (OEvent e) ->
  _generate_partition_key ev w
  = (Ok (provider_id e +:+ ":" +:+ EventType_value (event_type e)), w).
Proof.
  intros He. unfold _generate_partition_key.
  rewrite (bind_Ok _ _ _ _ _ (read_event_Some _ _ _ He)). reflexivity.
Qed.

Lemma datetime_utcnow_eval w :
  datetime_utcnow utcnow w = (Ok (utcnow (clock_reads w)), tick w).
Proof. reflexivity. Qed.

Lemma cache_set_inv key value ttl w r w' :
  cache_set redis_up key value ttl w = (r, w') ->
  (exists b, r = Ok b) /\ heap w' = heap w /\ enc_calls w' = enc_calls w
  /\ trace w' = trace w.
Proof.
  unfold cache_set. destruct (redis_up _); intros H; inversion H; subst;
    simpl; eauto.
Qed.

(** The constructor of the output record: the values it is given, and a
    payload dictionary of its own. *)
Lemma ProcessedEvent_new_inv e patient l now key cs pk w r w' d :
  heap w !! l = Some (ODict d) ->
  ProcessedEvent_new e patient l now key cs pk w = (r, w') ->
  (exists errors, r = Raise (ValidationError errors) /\ w' = w
     /\ validation_errors (provider_id e) patient = errors /\ errors <> [])
  \/ (exists p, heap w !! p = None /\ heap w' = <[p := ODict d]> (heap w)
        /\ enc_calls w' = enc_calls w /\ trace w' = trace w
        /\ validation_errors (provider_id e) patient = []
        /\ r = Ok {|
             base := {|
               event_id := event_id e;
               event_type := event_type e;
               timestamp := timestamp e;
               provider_id := provider_id e;
               patient_id := patient;
               facility_id := facility_id e;
               department := department e;
               payload := p;
               metadata := metadata e |};
             processed_at := now;
             encryption_key_id := Some key;
             checksum := Some cs;
             partition_key := Some pk |}).
Proof.
  intros Hl H. unfold ProcessedEvent_new in H.
  destruct (validation_errors (provider_id e) patient) as [|err errs] eqn:Hv.
  - right.
    rewrite (bind_Ok _ _ _ _ _ (read_dict_Some _ _ _ Hl)) in H.
    inv_bind H a w0 H0.
    + apply alloc_inv in H0 as (p & Hr & Hfresh & Hh & Henc & Htr).
      inversion Hr; subst a; clear Hr.
      apply mret_inv in H as [-> ->].
      exists p. repeat split; auto.
    + apply alloc_inv in H0 as (p & Hr & _). discriminate Hr.
  - left. inversion H; subst. exists (err :: errs). repeat split; auto.
Qed.

(** The whole of [process], on an event [e] at [ev] whose payload
    dictionary is [d]: the heap only grows, and a record that is returned
    is built from [e] and [d] as they were before the call. *)
Lemma process_inv ev w r w' e d :
  heap w !! ev = Some (OEvent e) ->
  heap w !! payload e = Some (ODict d) ->
  process cipher current_key_id utcnow redis_up py_str ev w = (r, w') ->
  heap w ⊆ heap w'
  /\ forall pe, r = Ok pe ->
       checksum pe = Some (event_checksum e d)
       /\ partition_key pe
          = Some (provider_id e +:+ ":" +:+ EventType_value (event_type e))
       /\ provider_id (base pe) = provider_id e
       /\ event_type (base pe) = event_type e
       /\ event_id (base pe) = event_id e
       /\ heap w !! payload (base pe) = None
       /\ exists d', heap w' !! payload (base pe) = Some (ODict d')
            /\ (forall k, ~ In k sensitive_fields -> dict_get d' k = dict_get d k)
            /\ dict_keys d' = dict_keys d.
Proof.
  intros He Hd H. unfold process in H.
  rewrite (bind_Ok _ _ _ _ _ (read_event_Some _ _ _ He)) in H.
  inv_bind H a w0 H0.
  2:{ apply encrypt_phi_inv in H0 as (Hh & _ & Ht). subst r.
      rewrite Hh. split; [reflexivity|]. discriminate. }
  apply encrypt_phi_inv in H0 as (Hh0 & _ & Ht0).
  assert (He0 : heap w0 !! ev = Some (OEvent e)) by (rewrite Hh0; exact He).
  assert (Hd0 : heap w0 !! payload e = Some (ODict d)) by (rewrite Hh0; exact Hd).
  rewrite (bind_Ok _ _ _ _ _ (read_event_Some _ _ _ He0)) in H.
  inv_bind H a0 w1 H1;
    destruct (_encrypt_payload_inv _ _ _ _ _ Hd0 H1)
      as (l & d' & Hfresh & Hh1 & Hk & Hkeys & Hl);
    rewrite Hh0 in Hfresh, Hh1.
  2:{ subst r. split; [|discriminate].
      rewrite Hh1. apply insert_subseteq, Hfresh. }
  assert (Hsub1 : heap w ⊆ heap w1)
    by (rewrite Hh1; apply insert_subseteq, Hfresh).
  specialize (Hl a0 eq_refl). subst a0.
  assert (Hne1 : ev <> l) by (intros ->; congruence).
  assert (Hne2 : payload e <> l) by (intros E; rewrite E in Hd; congruence).
  assert (He1 : heap w1 !! ev = Some (OEvent e))
    by (rewrite Hh1, lookup_insert_ne by auto; exact He).
  assert (Hd1 : heap w1 !! payload e = Some (ODict d))
    by (rewrite Hh1, lookup_insert_ne by auto; exact Hd).
  assert (Hl1 : heap w1 !! l = Some (ODict d'))
    by (rewrite Hh1; apply lookup_insert_eq).
  rewrite (bind_Ok _ _ _ _ _ (_generate_checksum_eval _ _ _ _ He1 Hd1)) in H.
  rewrite (bind_Ok _ _ _ _ _ (_generate_partition_key_eval _ _ _ He1)) in H.
  rewrite (bind_Ok _ _ _ _ _ (read_event_Some _ _ _ He1)) in H.
  rewrite (bind_Ok _ _ _ _ _ (datetime_utcnow_eval w1)) in H.
  set (w2 := tick w1) in H.
  assert (Hh2 : heap w2 = heap w1) by reflexivity.
  assert (Hl2 : heap w2 !! l = Some (ODict d')) by (rewrite Hh2; exact Hl1).
  inv_bind H a1 w3 H3.
  2:{ destruct (ProcessedEvent_new_inv _ _ _ _ _ _ _ _ _ _ _ Hl2 H3)
        as [(errs & Hr & Hw & _)|(p & _ & _ & _ & _ & _ & Hr)];
        [|discriminate Hr].
      subst. split; [exact Hsub1|]. discriminate. }
  destruct (ProcessedEvent_new_inv _ _ _ _ _ _ _ _ _ _ _ Hl2 H3)
    as [(errs & Hr & _)|(p & Hfresh3 & Hh3 & _ & _ & _ & Hr)];
    [discriminate Hr|].
  inversion Hr; subst a1; clear Hr.
  rewrite Hh2 in Hfresh3, Hh3.
  assert (Hsub3 : heap w ⊆ heap w3).
  { etrans; [exact Hsub1|]. rewrite Hh3. apply insert_subseteq, Hfresh3. }
  assert (He3 : heap w3 !! ev = Some (OEvent e)).
  { eapply lookup_weaken; [exact He|exact Hsub3]. }
  rewrite (bind_Ok _ _ _ _ _ (read_event_Some _ _ _ He3)) in H.
  rewrite (bind_Ok _ _ _ _ _ (datetime_utcnow_eval w3)) in H.
  inv_bind H a2 w4 H4.
  2:{ apply cache_set_inv in H4 as ((b & Hb) & _). discriminate Hb. }
  apply cache_set_inv in H4 as (_ & Hh4 & _). simpl in Hh4.
  apply mret_inv in H as [-> ->].
  split; [rewrite Hh4; exact Hsub3|].
  intros pe Hpe. inversion Hpe; subst pe; clear Hpe. simpl.
  repeat split; try reflexivity.
  - destruct (heap w !! p) eqn:Hp; [|reflexivity].
    eapply lookup_weaken in Hp; [|exact Hsub1]. congruence.
  - exists d'. rewrite Hh4, Hh3, lookup_insert_eq. auto.
Qed.

(** A record is returned only when the encrypted identifier passes the
    constraints that [ProcessedEvent] inherits for [patient_id]: the
    identifier of the record is what [encrypt_phi] answered for the
    identifier of the input, and it has at most 100 characters. *)
Lemma process_output_patient_id ev w pe w' e :
  heap w !! ev = Some (OEvent e) ->
  process cipher current_key_id utcnow redis_up py_str ev w = (Ok pe, w') ->
  (exists w0,
      encrypt_phi cipher (patient_id e) w = (Ok (patient_id (base pe)), w0))
  /\ validate_patient_id (patient_id (base pe)) = [].
Proof.
  intros He H. unfold process in H.
  rewrite (bind_Ok _ _ _ _ _ (read_event_Some _ _ _ He)) in H.
  apply bind_Ok_inv in H as (c & w0 & Hc & H).
  apply bind_Ok_inv in H as (e2 & w1 & _ & H).
  apply bind_Ok_inv in H as (l & w2 & _ & H).
  apply bind_Ok_inv in H as (cs & w3 & _ & H).
  apply bind_Ok_inv in H as (pk & w4 & _ & H).
  apply bind_Ok_inv in H as (e3 & w5 & _ & H).
  apply bind_Ok_inv in H as (now & w6 & _ & H).
  apply bind_Ok_inv in H as (p & w7 & Hp & H).
  apply bind_Ok_inv in H as (e4 & w8 & _ & H).
  apply bind_Ok_inv in H as (now' & w9 & _ & H).
  apply bind_Ok_inv in H as (b & w10 & _ & H).
  apply mret_inv in H as [Hpe _]. inversion Hpe; subst p; clear Hpe.
  unfold ProcessedEvent_new in Hp.
  destruct (validation_errors (provider_id e3) c) eqn:Hv; [|discriminate Hp].
  apply bind_Ok_inv in Hp as (d & w11 & _ & Hp).
  apply bind_Ok_inv in Hp as (q & w12 & _ & Hp).
  apply mret_inv in Hp as [Hq _]. inversion Hq; subst pe; clear Hq. simpl.
  split; [exists w0; exact Hc|].
  unfold validation_errors in Hv. apply app_eq_nil in Hv. apply Hv.
Qed.

(** With a cipher whose answer for the identifier is longer than 100
    characters, [process] returns no record. *)
Lemma process_needs_short_ciphertext ev w e c :
  heap w !! ev = Some (OEvent e) ->
  patient_id e <> EmptyString ->
  cipher (length (enc_calls w)) (patient_id e) = Some c ->
  100 < String.length c ->
  forall pe w',
    process cipher current_key_id utcnow redis_up py_str ev w <> (Ok pe, w').
Proof.
  intros He Hne Hc Hlen pe w' H.
  destruct (process_output_patient_id _ _ _ _ _ He H) as [[w0 Hphi] Hv].
  unfold encrypt_phi in Hphi.
  destruct (patient_id e) as [|a s] eqn:Hp; [congruence|].
  simpl in Hphi. rewrite Hc in Hphi. inversion Hphi as [[Hid Hw]].
  rewrite <- Hid in Hv. unfold validate_patient_id, validate_str_field in Hv.
  destruct (Nat.ltb (String.length c) 1); [discriminate Hv|].
  destruct (Nat.ltb_spec 100 (String.length c)); [discriminate Hv|lia].
Qed.

End ProcessorFacts.

(** ** The JSON text determines the value *)

Section JsonFacts.

Import Event Json.

Lemma append_assoc (a b c : string) : (a +:+ b) +:+ c = a +:+ (b +:+ c).
Proof. induction a as [|x a IH]; simpl; [reflexivity | rewrite IH; reflexivity]. Qed.

Lemma clash_app a b x y : clash a b = true -> a +:+ x <> b +:+ y.
Proof.
  revert b. induction a as [|c a IH]; intros [|c' b]; simpl; try discriminate.
  destruct (Ascii.eqb c c') eqn:E; intros H Heq; injection Heq as Hc Heq.
  - exact (IH _ H Heq).
  - apply Ascii.eqb_neq in E. contradiction.
Qed.

Lemma ascii_below_256 (P : ascii -> bool) :
  forallb (fun n => P (ascii_of_nat n)) (seq 0 256) = true ->
  forall c, P c = true.
Proof.
  intros H c. rewrite forallb_forall in H.
  rewrite <- (ascii_nat_embedding c). apply H.
  apply in_seq. pose proof (nat_ascii_bounded c). lia.
Qed.

Lemma escape_char_clash c c' :
  c <> c' -> clash (escape_char c) (escape_char c') = true.
Proof.
  intros Hne.
  assert (H : forallb (fun n => let c' := ascii_of_nat n in
                Ascii.eqb c c' || clash (escape_char c) (escape_char c'))
                (seq 0 256) = true).
  { revert c Hne. intros c _. revert c.
    apply (ascii_below_256
             (fun c => forallb (fun n => let c' := ascii_of_nat n in
                Ascii.eqb c c' || clash (escape_char c) (escape_char c'))
                (seq 0 256))).
    vm_compute. reflexivity. }
  rewrite forallb_forall in H.
  assert (Hin : In (nat_of_ascii c') (seq 0 256))
    by (apply in_seq; pose proof (nat_ascii_bounded c'); lia).
  specialize (H _ Hin). cbv zeta in H.
  rewrite ascii_nat_embedding in H.
  apply Ascii.eqb_neq in Hne. rewrite Hne in H. exact H.
Qed.

Lemma escape_char_not_quote c :
  clash (escape_char c) (String dquote EmptyString) = true.
Proof.
  revert c.
  apply (ascii_below_256
           (fun c => clash (escape_char c) (String dquote EmptyString))).
  vm_compute. reflexivity.
Qed.

(** An escaped string up to its closing quote determines the string. *)
Lemma escape_inj s : forall s' r r',
  escape s +:+ String dquote r = escape s' +:+ String dquote r' ->
  s = s' /\ r = r'.
Proof.
  induction s as [|c s IH]; intros [|c' s'] r r' H; simpl in H.
  - injection H as H. auto.
  - exfalso. rewrite append_assoc in H. symmetry in H.
    exact (clash_app _ (String dquote EmptyString) _ r
             (escape_char_not_quote c') H).
  - exfalso. rewrite append_assoc in H.
    exact (clash_app _ (String dquote EmptyString) _ r'
             (escape_char_not_quote c) H).
  - rewrite !append_assoc in H.
    destruct (ascii_dec c c') as [->|Hne].
    + apply String.app_inj in H. destruct (IH _ _ _ H) as [-> ->]. auto.
    + exfalso. exact (clash_app _ _ _ _ (escape_char_clash _ _ Hne) H).
Qed.

Lemma json_string_inj s s' r r' :
  json_string s +:+ r = json_string s' +:+ r' -> s = s' /\ r = r'.
Proof.
  unfold json_string. simpl. rewrite !append_assoc. simpl.
  intros H. injection H as H. exact (escape_inj _ _ _ _ H).
Qed.

Lemma uint_prefix d : forall d' r r',
  delimited r -> delimited r' ->
  DecimalString.NilEmpty.string_of_uint d +:+ r
  = DecimalString.NilEmpty.string_of_uint d' +:+ r' ->
  d = d' /\ r = r'.
Proof.
  induction d as [|d IH|d IH|d IH|d IH|d IH|d IH|d IH|d IH|d IH|d IH];
    intros [|d'|d'|d'|d'|d'|d'|d'|d'|d'|d'] r r' Hr Hr' H; simpl in H;
    try (subst; simpl in *; discriminate);
    try discriminate H;
    try (injection H as H; destruct (IH _ _ _ Hr Hr' H) as [-> ->]; auto).
  auto.
Qed.

Lemma json_int_eq z :
  json_int z =
  match z with
  | Zneg _ => String "-" (DecimalString.NilEmpty.string_of_uint (digits_of z))
  | _ => DecimalString.NilEmpty.string_of_uint (digits_of z)
  end.
Proof.
  destruct z as [|p|p]; simpl; try reflexivity;
    unfold json_int; simpl; unfold DecimalString.NilZero.string_of_uint;
    pose proof (DecimalPos.Unsigned.to_uint_nonnil p);
    destruct (Pos.to_uint p); congruence.
Qed.

Lemma digits_head z :
  exists c s, DecimalString.NilEmpty.string_of_uint (digits_of z) = String c s
              /\ is_digit c = true.
Proof.
  assert (H : digits_of z <> Decimal.Nil).
  { destruct z; simpl; try discriminate; apply DecimalPos.Unsigned.to_uint_nonnil. }
  destruct (digits_of z); try congruence; simpl; eauto.
Qed.

Lemma pos_to_uint_inj p q : Pos.to_uint p = Pos.to_uint q -> p = q.
Proof.
  intros H. apply (f_equal Pos.of_uint) in H.
  rewrite !DecimalPos.Unsigned.of_to in H. congruence.
Qed.

Lemma pos_to_uint_not_zero p : Pos.to_uint p <> Decimal.D0 Decimal.Nil.
Proof.
  intros H. apply (f_equal Pos.of_uint) in H.
  rewrite DecimalPos.Unsigned.of_to in H. discriminate H.
Qed.

Lemma minus_not_digits z s r :
  String "-" s <> DecimalString.NilEmpty.string_of_uint (digits_of z) +:+ r.
Proof.
  destruct (digits_head z) as (c & s' & -> & Hd). simpl.
  intros H. injection H as <- _. vm_compute in Hd. discriminate Hd.
Qed.

Lemma json_int_inj z z' r r' :
  delimited r -> delimited r' ->
  json_int z +:+ r = json_int z' +:+ r' -> z = z' /\ r = r'.
Proof.
  intros Hr Hr' H. rewrite !json_int_eq in H.
  assert (Hsame : forall x y : Z,
             DecimalString.NilEmpty.string_of_uint (digits_of x) +:+ r
             = DecimalString.NilEmpty.string_of_uint (digits_of y) +:+ r' ->
             digits_of x = digits_of y /\ r = r').
  { intros x y. apply uint_prefix; assumption. }
  destruct z as [|p|p], z' as [|p'|p'].
  - destruct (Hsame 0%Z 0%Z H) as [_ ->]. auto.
  - destruct (Hsame 0%Z (Zpos p') H) as [E _]. simpl in E.
    exfalso. symmetry in E. exact (pos_to_uint_not_zero _ E).
  - exfalso. symmetry in H. exact (minus_not_digits 0%Z _ _ H).
  - destruct (Hsame (Zpos p) 0%Z H) as [E _]. simpl in E.
    exfalso. exact (pos_to_uint_not_zero _ E).
  - destruct (Hsame (Zpos p) (Zpos p') H) as [E ->]. simpl in E.
    split; [|reflexivity]. f_equal. apply pos_to_uint_inj, E.
  - exfalso. symmetry in H. exact (minus_not_digits (Zpos p) _ _ H).
  - exfalso. exact (minus_not_digits 0%Z _ _ H).
  - exfalso. exact (minus_not_digits (Zpos p') _ _ H).
  - injection H as H.
    destruct (Hsame (Zneg p) (Zneg p') H) as [E ->]. simpl in E.
    split; [|reflexivity]. f_equal. apply pos_to_uint_inj, E.
Qed.

Lemma dumps_list l : dumps (VList l) = "[" +:+ dump_items l.
Proof. reflexivity. Qed.

Lemma dumps_dict d : dumps (VDict d) = "{" +:+ dump_entries d.
Proof. reflexivity. Qed.

Lemma json_int_head z :
  exists c s, json_int z = String c s
              /\ (is_digit c || Ascii.eqb c "-")%bool = true.
Proof.
  rewrite json_int_eq. destruct (digits_head z) as (c & s & Hc & Hd).
  destruct z; rewrite Hc; eexists _, _; split; try reflexivity.
  - rewrite Hd. reflexivity.
  - rewrite Hd. reflexivity.
Qed.

(** *** Numbers

    A number runs up to the first character that no number holds. *)

Lemma number_end_delimited r : number_end r -> delimited r.
Proof.
  destruct r as [|c r]; [auto|]. simpl. unfold number_char, is_digit, digit_char.
  intros H. apply orb_false_iff in H as [H _]. exact H.
Qed.

Lemma number_token s : forall s' r r',
  string_forallb number_char s = true ->
  string_forallb number_char s' = true ->
  number_end r -> number_end r' ->
  s +:+ r = s' +:+ r' -> s = s' /\ r = r'.
Proof.
  induction s as [|c s IH]; intros [|c' s'] r r' Hs Hs' Hr Hr' H; simpl in *.
  - auto.
  - exfalso. subst r. simpl in Hr.
    apply andb_true_iff in Hs' as [Hc _]. congruence.
  - exfalso. subst r'. simpl in Hr'.
    apply andb_true_iff in Hs as [Hc _]. congruence.
  - injection H as -> H.
    apply andb_true_iff in Hs as [_ Hs]. apply andb_true_iff in Hs' as [_ Hs'].
    destruct (IH _ _ _ Hs Hs' Hr Hr' H) as [-> ->]. auto.
Qed.

Lemma uint_chars d :
  string_forallb digit_char (DecimalString.NilEmpty.string_of_uint d) = true.
Proof. induction d; simpl; auto. Qed.

Lemma string_forallb_impl (p q : ascii -> bool) s :
  (forall c, p c = true -> q c = true) ->
  string_forallb p s = true -> string_forallb q s = true.
Proof.
  intros Hpq. induction s as [|c s IH]; simpl; [auto|].
  intros H. apply andb_true_iff in H as [Hc Hs].
  rewrite (Hpq _ Hc), (IH Hs). reflexivity.
Qed.

Lemma string_existsb_none (p q : ascii -> bool) s :
  (forall c, p c = true -> q c = false) ->
  string_forallb p s = true -> string_existsb q s = false.
Proof.
  intros Hpq. induction s as [|c s IH]; simpl; [auto|].
  intros H. apply andb_true_iff in H as [Hc Hs].
  rewrite (Hpq _ Hc), (IH Hs). reflexivity.
Qed.

Lemma json_int_chars z : string_forallb integer_char (json_int z) = true.
Proof.
  rewrite json_int_eq.
  assert (H : string_forallb integer_char
                (DecimalString.NilEmpty.string_of_uint (digits_of z)) = true).
  { apply (string_forallb_impl digit_char); [|apply uint_chars].
    intros c Hc. unfold integer_char. rewrite Hc. reflexivity. }
  destruct z; simpl; exact H.
Qed.

Lemma integer_char_number c : integer_char c = true -> number_char c = true.
Proof.
  intros H.
  pose proof (ascii_below_256
                (fun c => implb (integer_char c) (number_char c))
                ltac:(vm_compute; reflexivity) c) as Hi.
  cbv beta in Hi. rewrite H in Hi. exact Hi.
Qed.

Lemma integer_char_no_fraction c :
  integer_char c = true ->
  existsb (Ascii.eqb c) (list_ascii_of_string ".eE") = false.
Proof.
  intros H.
  pose proof (ascii_below_256
                (fun c => implb (integer_char c)
                            (negb (existsb (Ascii.eqb c)
                                     (list_ascii_of_string ".eE"))))
                ltac:(vm_compute; reflexivity) c) as Hi.
  cbv beta in Hi. rewrite H in Hi. apply negb_true_iff, Hi.
Qed.

Lemma float_literal_inv s :
  float_literal s = true ->
  (exists c t, s = String c t /\ integer_char c = true)
  /\ string_forallb number_char s = true
  /\ string_existsb
       (fun c => existsb (Ascii.eqb c) (list_ascii_of_string ".eE")) s = true.
Proof.
  unfold float_literal. intros H.
  apply andb_true_iff in H as [H He]. apply andb_true_iff in H as [Hh Ha].
  split; [|auto]. destruct s as [|c t]; [discriminate Hh|]. eauto.
Qed.

(** The text of an integer is not the literal of a float. *)
Lemma json_int_not_float z s r r' :
  float_literal s = true -> number_end r -> number_end r' ->
  json_int z +:+ r <> s +:+ r'.
Proof.
  intros Hs Hr Hr' H.
  destruct (float_literal_inv _ Hs) as (_ & Ha & He).
  pose proof (json_int_chars z) as Hz.
  destruct (number_token _ _ _ _
              (string_forallb_impl _ _ _ integer_char_number Hz) Ha Hr Hr' H)
    as [E _].
  rewrite <- E in He.
  rewrite (string_existsb_none _ _ _ integer_char_no_fraction Hz) in He.
  discriminate He.
Qed.

Lemma float_literal_inj s s' r r' :
  float_literal s = true -> float_literal s' = true ->
  number_end r -> number_end r' ->
  s +:+ r = s' +:+ r' -> s = s' /\ r = r'.
Proof.
  intros Hs Hs' Hr Hr' H.
  destruct (float_literal_inv _ Hs) as (_ & Ha & _).
  destruct (float_literal_inv _ Hs') as (_ & Ha' & _).
  exact (number_token _ _ _ _ Ha Ha' Hr Hr' H).
Qed.

Lemma integer_char_start c : integer_char c = true -> value_start c = true.
Proof.
  intros H.
  pose proof (ascii_below_256
                (fun c => implb (integer_char c) (value_start c))
                ltac:(vm_compute; reflexivity) c) as Hi.
  cbv beta in Hi. rewrite H in Hi. exact Hi.
Qed.

Lemma dumps_head v :
  finite_floats v = true ->
  exists c s, dumps v = String c s /\ value_start c = true.
Proof.
  destruct v as [|[]|z|[| |literal]|s|l|d]; intros Hv;
    try discriminate Hv; try (eexists _, _; split; reflexivity).
  - destruct (json_int_head z) as (c & s & Hc & Hd).
    exists c, s. split; [exact Hc|]. apply integer_char_start, Hd.
  - destruct (float_literal_inv _ Hv) as ((c & t & -> & Hc) & _).
    exists c, t. split; [reflexivity|]. apply integer_char_start, Hc.
Qed.

(** A value is never mistaken for a closing bracket, a comma or a colon. *)
Lemma dumps_not_punct v r c s :
  finite_floats v = true ->
  value_start c = false -> dumps v +:+ r <> String c s.
Proof.
  intros Hv. destruct (dumps_head v Hv) as (c' & s' & -> & Hc'). simpl.
  intros Hc H. injection H as -> _. congruence.
Qed.

Lemma tail_delimited (A : Type) (l : list A) (close rest r : string) :
  number_end (match l with [] => "]" | _ => "," +:+ rest end +:+ r)
  /\ number_end (match l with [] => "}" | _ => "," +:+ rest end +:+ r).
Proof. destruct l; split; reflexivity. Qed.

Lemma comma_inj a b r r' :
  ("," +:+ a) +:+ r = ("," +:+ b) +:+ r' -> a +:+ r = b +:+ r'.
Proof. simpl. intros H. injection H as H. exact H. Qed.

Lemma dump_items_inj l :
  Forall reads_back l -> forallb finite_floats l = true ->
  forall l' r r', forallb finite_floats l' = true ->
    dump_items l +:+ r = dump_items l' +:+ r' -> l = l' /\ r = r'.
Proof.
  induction 1 as [|x l Hx Hl IH]; intros Hf [|x' l'] r r' Hf' H.
  - simpl in H. injection H as ->. auto.
  - exfalso. cbn [dump_items] in H. rewrite append_assoc in H.
    simpl in Hf'. apply andb_true_iff in Hf' as [Hx' _].
    symmetry in H. eapply dumps_not_punct; [exact Hx'| |exact H]. reflexivity.
  - exfalso. cbn [dump_items] in H. rewrite append_assoc in H.
    simpl in Hf. apply andb_true_iff in Hf as [Hx0 _].
    eapply dumps_not_punct; [exact Hx0| |exact H]. reflexivity.
  - cbn [dump_items] in H. rewrite !append_assoc in H.
    simpl in Hf, Hf'.
    apply andb_true_iff in Hf as [_ Hf]. apply andb_true_iff in Hf' as [Hx' Hf'].
    apply Hx in H as [<- H];
      [|exact Hx'|apply (tail_delimited _ _ EmptyString)..].
    destruct l as [|y l], l' as [|y' l'];
      try (exfalso; revert H; apply clash_app; reflexivity).
    + simpl in H. injection H as ->. auto.
    + apply comma_inj in H. destruct (IH Hf _ _ _ Hf' H) as [E ->].
      rewrite E. auto.
Qed.

Lemma dump_entries_inj d :
  Forall (fun kv => reads_back (snd kv)) d ->
  forall d' r r', forallb (fun kv => finite_floats (snd kv)) d' = true ->
    dump_entries d +:+ r = dump_entries d' +:+ r' -> d = d' /\ r = r'.
Proof.
  induction 1 as [|[k x] d Hx Hd IH]; intros [|[k' x'] d'] r r' Hf' H.
  - simpl in H. injection H as ->. auto.
  - exfalso. cbn [dump_entries] in H. unfold json_string, dquote in H.
    simpl in H. discriminate H.
  - exfalso. cbn [dump_entries] in H. unfold json_string, dquote in H.
    simpl in H. discriminate H.
  - cbn [dump_entries] in H. rewrite !append_assoc in H.
    apply json_string_inj in H as [<- H].
    simpl in H. injection H as H. rewrite ?append_assoc in H.
    simpl in Hf'. apply andb_true_iff in Hf' as [Hx' Hf'].
    apply Hx in H as [E H];
      [|exact Hx'|apply (tail_delimited _ _ EmptyString)..].
    simpl in E. subst x'.
    destruct d as [|y d], d' as [|y' d'];
      try (exfalso; revert H; apply clash_app; reflexivity).
    + simpl in H. injection H as ->. auto.
    + apply comma_inj in H. destruct (IH _ _ _ Hf' H) as [E ->].
      rewrite E. auto.
Qed.

Ltac first_chars_differ H :=
  exfalso; simpl in H; unfold json_string, json_bool, dquote in H; simpl in H;
  first
    [ discriminate H
    | match type of H with
      | context [json_int ?z] =>
          let c := fresh "c" in
          let s := fresh "s" in
          let Hc := fresh "Hc" in
          let Hd := fresh "Hd" in
          let H1 := fresh "H" in
          let H2 := fresh "H" in
          destruct (json_int_head z) as (c & s & Hc & Hd);
          rewrite Hc in H; simpl in H; injection H as H1 H2; subst c;
          vm_compute in Hd; discriminate Hd
      end ].

(** The literal of a float starts like no other value but an integer. *)
Ltac float_head_differs H Hf :=
  exfalso;
  let c := fresh "c" in
  let t := fresh "t" in
  let Hc := fresh "Hc" in
  let H1 := fresh "H" in
  let H2 := fresh "H" in
  destruct (float_literal_inv _ Hf) as ((c & t & -> & Hc) & _);
  simpl in H; unfold json_string, json_bool, dquote in H; simpl in H;
  injection H as H1 H2; subst c; vm_compute in Hc; discriminate Hc.

Theorem dumps_reads_back v : finite_floats v = true -> reads_back v.
Proof.
  induction v as [|b|z|f|s|l IH|d IH] using pyval_nested_ind;
    intros Hv v' r r' Hv' Hr Hr' H.
  - destruct v' as [|[]|z'|[| |s']|s'|l'|d']; try discriminate Hv';
      try first_chars_differ H; try float_head_differs H Hv'.
    simpl in H. injection H as ->. auto.
  - destruct b, v' as [|[]|z'|[| |s']|s'|l'|d']; try discriminate Hv';
      try first_chars_differ H; try float_head_differs H Hv';
      simpl in H; injection H as ->; auto.
  - destruct v' as [|[]|z'|[| |s']|s'|l'|d']; try discriminate Hv';
      try first_chars_differ H.
    + simpl in H.
      destruct (json_int_inj _ _ _ _ (number_end_delimited _ Hr)
                  (number_end_delimited _ Hr') H) as [-> ->]. auto.
    + exfalso. exact (json_int_not_float _ _ _ _ Hv' Hr Hr' H).
  - destruct f as [| |s]; try discriminate Hv.
    destruct v' as [|[]|z'|[| |s']|s'|l'|d']; try discriminate Hv';
      try float_head_differs H Hv.
    + exfalso. symmetry in H. exact (json_int_not_float _ _ _ _ Hv Hr' Hr H).
    + simpl in H.
      destruct (float_literal_inj _ _ _ _ Hv Hv' Hr Hr' H) as [-> ->]. auto.
  - destruct v' as [|[]|z'|[| |s']|s'|l'|d']; try discriminate Hv';
      try first_chars_differ H; try float_head_differs H Hv'.
    simpl in H. destruct (json_string_inj _ _ _ _ H) as [-> ->]. auto.
  - destruct v' as [|[]|z'|[| |s']|s'|l'|d']; try discriminate Hv';
      try first_chars_differ H; try float_head_differs H Hv'.
    rewrite !dumps_list in H. simpl in H. injection H as H.
    assert (Hl : Forall reads_back l).
    { simpl in Hv. rewrite forallb_forall in Hv.
      rewrite List.Forall_forall in IH. apply List.Forall_forall.
      intros x Hx. exact (IH x Hx (Hv x Hx)). }
    destruct (dump_items_inj _ Hl Hv _ _ _ Hv' H) as [-> ->]. auto.
  - destruct v' as [|[]|z'|[| |s']|s'|l'|d']; try discriminate Hv';
      try first_chars_differ H; try float_head_differs H Hv'.
    rewrite !dumps_dict in H. simpl in H. injection H as H.
    assert (Hd : Forall (fun kv => reads_back (snd kv)) d).
    { simpl in Hv. rewrite forallb_forall in Hv.
      rewrite List.Forall_forall in IH. apply List.Forall_forall.
      intros x Hx. exact (IH x Hx (Hv x Hx)). }
    destruct (dump_entries_inj _ Hd _ _ _ Hv' H) as [-> ->]. auto.
Qed.

(** [dumps] is injective on the values whose floats are finite. *)
Corollary dumps_inj v v' :
  finite_floats v = true -> finite_floats v' = true ->
  dumps v = dumps v' -> v = v'.
Proof.
  intros Hv Hv' H.
  assert (H' : dumps v +:+ EmptyString = dumps v' +:+ EmptyString)
    by (rewrite H; reflexivity).
  exact (proj1 (dumps_reads_back v Hv v' EmptyString EmptyString Hv' I I H')).
Qed.

(** [dumps] does not tell a float that is not finite from [None]. *)
Lemma dumps_nullify v : dumps (nullify v) = dumps v.
Proof.
  induction v as [|b|z|f|s|l IH|d IH] using pyval_nested_ind;
    try reflexivity.
  - destruct f; reflexivity.
  - cbn [nullify]. rewrite !dumps_list. f_equal.
    induction IH as [|x l Hx _ IHl]; [reflexivity|].
    cbn [map dump_items]. rewrite Hx, IHl.
    destruct l; reflexivity.
  - cbn [nullify]. rewrite !dumps_dict. f_equal.
    induction IH as [|[k x] d Hx _ IHd]; [reflexivity|].
    cbn [map dump_entries fst snd]. simpl in Hx. rewrite Hx, IHd.
    destruct d; reflexivity.
Qed.

(** *** UTF-8 *)

Lemma clash_bytes_app a b x y : clash_bytes a b = true -> a ++ x <> b ++ y.
Proof.
  revert b. induction a as [|c a IH]; intros [|c' b]; simpl; try discriminate.
  destruct (N.eqb c c') eqn:E; intros H Heq; injection Heq as Hc Heq.
  - exact (IH _ H Heq).
  - apply N.eqb_neq in E. contradiction.
Qed.

Lemma encode_char_clash c c' :
  c <> c' -> clash_bytes (PyStr.encode_char c) (PyStr.encode_char c') = true.
Proof.
  intros Hne.
  assert (H : forallb (fun n => let c' := ascii_of_nat n in
                Ascii.eqb c c'
                || clash_bytes (PyStr.encode_char c) (PyStr.encode_char c'))
                (seq 0 256) = true).
  { revert c Hne. intros c _. revert c.
    apply (ascii_below_256
             (fun c => forallb (fun n => let c' := ascii_of_nat n in
                Ascii.eqb c c'
                || clash_bytes (PyStr.encode_char c) (PyStr.encode_char c'))
                (seq 0 256))).
    vm_compute. reflexivity. }
  rewrite forallb_forall in H.
  assert (Hin : In (nat_of_ascii c') (seq 0 256))
    by (apply in_seq; pose proof (nat_ascii_bounded c'); lia).
  specialize (H _ Hin). cbv zeta in H.
  rewrite ascii_nat_embedding in H.
  apply Ascii.eqb_neq in Hne. rewrite Hne in H. exact H.
Qed.

Lemma encode_char_nonempty c : PyStr.encode_char c <> [].
Proof.
  unfold PyStr.encode_char. destruct (N.ltb _ _); discriminate.
Qed.

(** [str.encode] is injective. *)
Lemma encode_inj s : forall s', PyStr.encode s = PyStr.encode s' -> s = s'.
Proof.
  induction s as [|c s IH]; intros [|c' s'] H; simpl in H.
  - reflexivity.
  - exfalso. symmetry in H. apply app_eq_nil in H as [H _].
    exact (encode_char_nonempty _ H).
  - exfalso. apply app_eq_nil in H as [H _].
    exact (encode_char_nonempty _ H).
  - destruct (ascii_dec c c') as [->|Hne].
    + apply app_inv_head in H. f_equal. apply IH, H.
    + exfalso. exact (clash_bytes_app _ _ _ _ (encode_char_clash _ _ Hne) H).
Qed.

(** *** The text of an event determines its contents *)

Lemma opt_str_inj a b : opt_str a = opt_str b -> a = b.
Proof. destruct a, b; simpl; intros H; congruence. Qed.

Lemma EventType_value_inj a b : EventType_value a = EventType_value b -> a = b.
Proof. destruct a, b; simpl; intros H; try reflexivity; discriminate H. Qed.

Lemma EventSource_value_inj a b :
  EventSource_value a = EventSource_value b -> a = b.
Proof. destruct a, b; simpl; intros H; try reflexivity; discriminate H. Qed.

Lemma dump_metadata_inj m m' : dump_metadata m = dump_metadata m' -> m = m'.
Proof.
  destruct m as [s v c n], m' as [s' v' c' n']. unfold dump_metadata. simpl.
  intros H. injection H as Hs Hv Hc Hn.
  apply EventSource_value_inj in Hs. apply opt_str_inj in Hc. congruence.
Qed.

Lemma dump_fields_inj e d e' d' :
  dump_fields e d = dump_fields e' d' -> contents e d = contents e' d'.
Proof.
  intros H.
  assert (Hm : metadata e = metadata e').
  { apply dump_metadata_inj.
    exact (f_equal (fun l => match nth_error l 8 with
                             | Some (_, v) => v
                             | None => VNone
                             end) H). }
  unfold dump_fields in H. injection H as H1 H2 H3 H4 H5 H6 H7 H8 _.
  apply opt_str_inj in H1, H6, H7. apply EventType_value_inj in H2.
  unfold contents. congruence.
Qed.

End JsonFacts.

(** ** The event pipeline: checksum, partition key, validation, frame *)

Section PipelineTheorems.

Import Event.

Lemma process_Ok_reads cipher key utcnow redis_up py_str ev w pe w' :
  process cipher key utcnow redis_up py_str ev w = (Ok pe, w') ->
  exists e d, heap w !! ev = Some (OEvent e)
              /\ heap w !! payload e = Some (ODict d).
Proof.
  intros H. unfold process in H.
  apply bind_Ok_inv in H as (e & w1 & He & H).
  apply read_event_inv in He as [-> He]. specialize (He e eq_refl).
  apply bind_Ok_inv in H as (c & w2 & Hc & H).
  apply encrypt_phi_inv in Hc as (Hh & _).
  apply bind_Ok_inv in H as (e2 & w3 & He2 & H).
  apply read_event_inv in He2 as [-> He2]. specialize (He2 e2 eq_refl).
  rewrite Hh, He in He2. inversion He2; subst e2; clear He2.
  apply bind_Ok_inv in H as (l & w4 & Hl & _).
  unfold _encrypt_payload in Hl.
  apply bind_Ok_inv in Hl as (d & w5 & Hd & _).
  apply read_dict_inv in Hd as [-> Hd]. specialize (Hd d eq_refl).
  rewrite Hh in Hd. eauto.
Qed.

Lemma contents_dump_fields e d e' d' :
  contents e d = contents e' d' -> Json.dump_fields e d = Json.dump_fields e' d'.
Proof.
  unfold contents. intros H. injection H as H1 H2 H3 H4 H5 H6 H7 H8 H9.
  unfold Json.dump_fields. congruence.
Qed.

Lemma finite_floats_dump_fields e d :
  finite_floats (VDict (Json.dump_fields e d)) = finite_floats (VDict d).
Proof.
  unfold Json.dump_fields, Json.dump_metadata.
  destruct (event_id e), (facility_id e), (department e),
    (correlation_id (metadata e)); cbn; rewrite ?andb_true_r; reflexivity.
Qed.

Lemma event_json_inj e d e' d' :
  finite_floats (VDict d) = true -> finite_floats (VDict d') = true ->
  event_json e d = event_json e' d' -> contents e d = contents e' d'.
Proof.
  unfold event_json. intros Hd Hd' H.
  apply dumps_inj in H; try (rewrite finite_floats_dump_fields; assumption).
  apply dump_fields_inj.
  exact (f_equal (fun v => match v with VDict l => l | _ => [] end) H).
Qed.

(** The text of an event does not tell a float that is not finite from
    [None]. *)
Lemma event_json_nullify e d : event_json e (nullify_payload d) = event_json e d.
Proof.
  unfold event_json. rewrite <- (dumps_nullify (VDict (Json.dump_fields e d))).
  f_equal. unfold Json.dump_fields, Json.dump_metadata, nullify_payload.
  destruct (event_id e), (facility_id e), (department e),
    (correlation_id (metadata e)); reflexivity.
Qed.

(** C1 (as amended).  The checksum of the record [process] returns is the
    SHA-256 digest of the JSON text of the input event as it was before the
    call: the model fields in declaration order, the payload entries in the
    order of the payload dictionary, values not redacted.  It does not
    depend on the cipher, the key or the clock, so an event with the same
    contents (the payload entries in the same order) gets the same checksum.
    A float that is not a number or is infinite is written as [null], so
    the checksum is also that of the event with [None] in its place.  Among
    the events whose payload floats are all finite, an event with other
    contents gets another checksum, unless the two texts are a collision of
    SHA-256. *)
Theorem checksum_of_original_event
    cipher key utcnow redis_up py_str ev w pe w' e d :
  heap w !! ev = Some (OEvent e) ->
  heap w !! payload e = Some (ODict d) ->
  process cipher key utcnow redis_up py_str ev w = (Ok pe, w') ->
  checksum pe = Some (Sha256.hexdigest (PyStr.encode (event_json e d)))
  /\ checksum pe = Some (event_checksum e (nullify_payload d))
  /\ forall cipher2 key2 utcnow2 redis_up2 py_str2 ev2 w2 pe2 w2' e2 d2,
       heap w2 !! ev2 = Some (OEvent e2) ->
       heap w2 !! payload e2 = Some (ODict d2) ->
       process cipher2 key2 utcnow2 redis_up2 py_str2 ev2 w2 = (Ok pe2, w2') ->
       (contents e2 d2 = contents e d -> checksum pe2 = checksum pe)
       /\ (finite_floats (VDict d) = true ->
           finite_floats (VDict d2) = true ->
           contents e2 d2 <> contents e d ->
           checksum pe2 <> checksum pe
           \/ collision (PyStr.encode (event_json e2 d2))
                        (PyStr.encode (event_json e d))).
Proof.
  intros He Hd H.
  destruct (process_inv _ _ _ _ _ _ _ _ _ _ _ He Hd H) as [_ Hpe].
  destruct (Hpe pe eq_refl) as (Hcs & _).
  split; [exact Hcs|].
  split; [rewrite Hcs; unfold event_checksum; rewrite event_json_nullify;
          reflexivity|].
  intros cipher2 key2 utcnow2 redis_up2 py_str2 ev2 w2 pe2 w2' e2 d2 He2 Hd2 H2.
  destruct (process_inv _ _ _ _ _ _ _ _ _ _ _ He2 Hd2 H2) as [_ Hpe2].
  destruct (Hpe2 pe2 eq_refl) as (Hcs2 & _).
  rewrite Hcs, Hcs2. unfold event_checksum. split.
  - intros Hc. apply contents_dump_fields in Hc.
    unfold event_json. rewrite Hc. reflexivity.
  - intros Hf Hf2 Hne.
    destruct (string_dec
                (Sha256.hexdigest (PyStr.encode (event_json e2 d2)))
                (Sha256.hexdigest (PyStr.encode (event_json e d)))) as [E|E].
    + right. split; [|exact E].
      intros Hb. apply encode_inj in Hb.
      apply (event_json_inj _ _ _ _ Hf2 Hf) in Hb.
      contradiction.
    + left. congruence.
Qed.

(** The sample event of the tests, processed with their mocks: the checksum
    is the SHA-256 digest of its JSON text. *)
Lemma checksum_of_sample_event :
  exists pe w',
    process Fixture.mock_cipher "test-key" Fixture.mock_utcnow
            Fixture.mock_redis Fixture.mock_str
            Fixture.sample_loc Fixture.sample_world = (Ok pe, w')
    /\ checksum pe
       = Some "4edd6b587082385bfbdfe9387f2cbf9f7d73fc7d670af1fefc22d409b95da3be".
Proof.
  let r := eval vm_compute in
      (process Fixture.mock_cipher "test-key" Fixture.mock_utcnow
               Fixture.mock_redis Fixture.mock_str
               Fixture.sample_loc Fixture.sample_world) in
  match r with (Ok ?pe, ?w') => exists pe, w' end.
  assert (Hp : process Fixture.mock_cipher "test-key" Fixture.mock_utcnow
                 Fixture.mock_redis Fixture.mock_str
                 Fixture.sample_loc Fixture.sample_world = (Ok _, _))
    by (vm_compute; reflexivity).
  split; [exact Hp|].
  destruct (process_Ok_reads _ _ _ _ _ _ _ _ _ Hp) as (e & d & He & Hd).
  pose proof (proj1 (checksum_of_original_event _ _ _ _ _ _ _ _ _ _ _ He Hd Hp))
    as Hc.
  vm_compute in He. injection He as <-.
  vm_compute in Hd. injection Hd as <-.
  vm_compute in Hc. vm_compute. exact Hc.
Defined.

(** C1, counterexample: the payload [{"visit_type": ..., "duration_minutes":
    30}] and the same entries inserted the other way round give two
    checksums. *)
Lemma checksum_depends_on_insertion_order : ~ checksum_is_canonical.
Proof.
  intros H.
  set (d1 := [("visit_type", VStr "routine_checkup"); ("duration_minutes", VInt 30)]).
  set (d2 := [("duration_minutes", VInt 30); ("visit_type", VStr "routine_checkup")]).
  assert (Hsame : same_mapping d1 d2).
  { split; [|split].
    - compute_done.
    - compute_done.
    - intros k. unfold d1, d2. cbn [dict_get].
      destruct (String.eqb_spec "visit_type" k) as [E1|E1],
               (String.eqb_spec "duration_minutes" k) as [E2|E2];
        try reflexivity.
      subst k. discriminate E2. }
  destruct (Fixture.build_and_process (Fixture.with_payload d1 Fixture.sample_event))
    as [r1 w1] eqn:E1.
  destruct (Fixture.build_and_process (Fixture.with_payload d2 Fixture.sample_event))
    as [r2 w2] eqn:E2.
  vm_compute in E1. vm_compute in E2.
  injection E1 as <- <-. injection E2 as <- <-.
  specialize (H Fixture.sample_event d1 d2 _ _ _ _ Hsame eq_refl eq_refl).
  vm_compute in H. discriminate H.
Qed.

(** A payload that holds not-a-number under a key and the payload that
    holds [None] there are two payloads with one checksum. *)
Example not_a_number_has_the_checksum_of_none e :
  [("reading", VFloat FNaN)] <> [("reading", VNone)]
  /\ event_checksum e [("reading", VFloat FNaN)]
     = event_checksum e [("reading", VNone)].
Proof.
  split; [discriminate|].
  unfold event_checksum.
  rewrite <- (event_json_nullify e [("reading", VFloat FNaN)]). reflexivity.
Qed.

(** C6.  The partition key of the record [process] returns is the
    provider identifier, a colon and the value of the event type, of the
    event as given: two events with the same provider and type get the same
    key, whatever else differs (payload, patient, cipher, clock). *)
Theorem partition_key_of_provider_and_type
    cipher key utcnow redis_up py_str ev w pe w' e :
  heap w !! ev = Some (OEvent e) ->
  process cipher key utcnow redis_up py_str ev w = (Ok pe, w') ->
  partition_key pe
  = Some (provider_id e +:+ ":" +:+ EventType_value (event_type e))
  /\ forall cipher2 key2 utcnow2 redis_up2 py_str2 ev2 w2 pe2 w2' e2,
       heap w2 !! ev2 = Some (OEvent e2) ->
       process cipher2 key2 utcnow2 redis_up2 py_str2 ev2 w2 = (Ok pe2, w2') ->
       provider_id e2 = provider_id e ->
       event_type e2 = event_type e ->
       partition_key pe2 = partition_key pe.
Proof.
  assert (Hkey : forall cipher key utcnow redis_up py_str ev w pe w' e,
             heap w !! ev = Some (OEvent e) ->
             process cipher key utcnow redis_up py_str ev w = (Ok pe, w') ->
             partition_key pe
             = Some (provider_id e +:+ ":" +:+ EventType_value (event_type e))).
  { clear. intros cipher key utcnow redis_up py_str ev w pe w' e He H.
    destruct (process_Ok_reads _ _ _ _ _ _ _ _ _ H) as (e' & d & He' & Hd).
    rewrite He in He'. inversion He'; subst e'; clear He'.
    destruct (process_inv _ _ _ _ _ _ _ _ _ _ _ He Hd H) as [_ Hpe].
    destruct (Hpe pe eq_refl) as (_ & Hpk & _). exact Hpk. }
  intros He H. split; [exact (Hkey _ _ _ _ _ _ _ _ _ _ He H)|].
  intros cipher2 key2 utcnow2 redis_up2 py_str2 ev2 w2 pe2 w2' e2 He2 H2 Hp Ht.
  rewrite (Hkey _ _ _ _ _ _ _ _ _ _ He H), (Hkey _ _ _ _ _ _ _ _ _ _ He2 H2).
  rewrite Hp, Ht. reflexivity.
Qed.

(** The example of the specification: provider [PROV-001], type
    [lab_result]. *)
Lemma partition_key_of_lab_result :
  exists pe w',
    process Fixture.mock_cipher "test-key" Fixture.mock_utcnow
            Fixture.mock_redis Fixture.mock_str
            Fixture.sample_loc Fixture.lab_result_world = (Ok pe, w')
    /\ partition_key pe = Some "PROV-001:lab_result".
Proof.
  let r := eval vm_compute in
      (process Fixture.mock_cipher "test-key" Fixture.mock_utcnow
               Fixture.mock_redis Fixture.mock_str
               Fixture.sample_loc Fixture.lab_result_world) in
  match r with (Ok ?pe, ?w') => exists pe, w' end.
  assert (Hp : process Fixture.mock_cipher "test-key" Fixture.mock_utcnow
                 Fixture.mock_redis Fixture.mock_str
                 Fixture.sample_loc Fixture.lab_result_world = (Ok _, _))
    by (vm_compute; reflexivity).
  split; [exact Hp|].
  destruct (process_Ok_reads _ _ _ _ _ _ _ _ _ Hp) as (e & d & He & _).
  pose proof (proj1 (partition_key_of_provider_and_type
                       _ _ _ _ _ _ _ _ _ _ He Hp)) as Hk.
  vm_compute in He. injection He as <-.
  vm_compute in Hk. vm_compute. exact Hk.
Defined.

(** C10.  [process] mutates nothing it is given: whatever it returns or
    raises, every object of the heap is as it was before the call, so the
    input event has its [patient_id] and its payload reference, and the
    payload dictionary its entries.  The payload of a returned record is a
    dictionary at a new address, in which every key outside the sensitive
    fields has the value the input has for it. *)
Theorem process_leaves_input_unchanged
    cipher key utcnow redis_up py_str ev w r w' e d :
  heap w !! ev = Some (OEvent e) ->
  heap w !! payload e = Some (ODict d) ->
  process cipher key utcnow redis_up py_str ev w = (r, w') ->
  heap w' !! ev = Some (OEvent e)
  /\ heap w' !! payload e = Some (ODict d)
  /\ (forall l o, heap w !! l = Some o -> heap w' !! l = Some o)
  /\ forall pe, r = Ok pe ->
       payload (base pe) <> payload e
       /\ heap w !! payload (base pe) = None
       /\ exists d', heap w' !! payload (base pe) = Some (ODict d')
            /\ forall k,
                 ~ In k ["ssn"; "mrn"; "dob"; "address"; "phone"; "email";
                         "insurance_id"; "diagnosis_code"] ->
                 dict_get d' k = dict_get d k.
Proof.
  intros He Hd H.
  destruct (process_inv _ _ _ _ _ _ _ _ _ _ _ He Hd H) as [Hsub Hpe].
  assert (Hkeep : forall l o, heap w !! l = Some o -> heap w' !! l = Some o).
  { intros l o Hl. eapply lookup_weaken; [exact Hl|exact Hsub]. }
  split; [apply Hkeep, He|]. split; [apply Hkeep, Hd|]. split; [exact Hkeep|].
  intros pe ->.
  destruct (Hpe pe eq_refl) as (_ & _ & _ & _ & _ & Hfresh & d' & Hd' & Hk & _).
  split; [|split; [exact Hfresh|]].
  - intros E. rewrite E in Hfresh. congruence.
  - exists d'. split; [exact Hd'|]. exact Hk.
Qed.

(** The sample event: after [process] its payload still has the diagnosis
    code in clear, and the record's payload has the visit type of the
    input. *)
Lemma process_leaves_sample_event_unchanged :
  exists r w' d,
    process Fixture.mock_cipher "test-key" Fixture.mock_utcnow
            Fixture.mock_redis Fixture.mock_str
            Fixture.sample_loc Fixture.sample_world = (r, w')
    /\ heap w' !! 1%positive = Some (ODict d)
    /\ dict_get d "diagnosis_code" = Some (VStr "I10").
Proof.
  let r := eval vm_compute in
      (process Fixture.mock_cipher "test-key" Fixture.mock_utcnow
               Fixture.mock_redis Fixture.mock_str
               Fixture.sample_loc Fixture.sample_world) in
  match r with (?r, ?w') => exists r, w' end.
  exists (raw_payload Fixture.sample_event).
  assert (Hp : process Fixture.mock_cipher "test-key" Fixture.mock_utcnow
                 Fixture.mock_redis Fixture.mock_str
                 Fixture.sample_loc Fixture.sample_world = (_, _))
    by (vm_compute; reflexivity).
  split; [exact Hp|].
  assert (He : heap Fixture.sample_world !! Fixture.sample_loc
               = Some (OEvent {|
                   event_id := raw_event_id Fixture.sample_event;
                   event_type := PATIENT_VISIT;
                   timestamp := raw_timestamp Fixture.sample_event;
                   provider_id := "PROV-001";
                   patient_id := "PAT-12345";
                   facility_id := raw_facility_id Fixture.sample_event;
                   department := raw_department Fixture.sample_event;
                   payload := 1%positive;
                   metadata := Fixture.metadata0 |}))
    by (vm_compute; reflexivity).
  assert (Hd : heap Fixture.sample_world !! 1%positive
               = Some (ODict (raw_payload Fixture.sample_event)))
    by (vm_compute; reflexivity).
  split; [|reflexivity].
  exact (proj1 (proj2 (process_leaves_input_unchanged
                         _ _ _ _ _ _ _ _ _ _ _ He Hd Hp))).
Defined.

(** *** Validation *)

Lemma validate_str_field_blank name max_length msg v :
  PyStr.blank v = true -> validate_str_field name max_length msg v <> [].
Proof.
  unfold validate_str_field. intros Hb.
  destruct (Nat.ltb _ 1); [discriminate|].
  destruct (Nat.ltb max_length _); [discriminate|].
  rewrite Hb. discriminate.
Qed.

Lemma validate_str_field_ok name max_length msg v :
  PyStr.blank v = false -> String.length v <= max_length ->
  validate_str_field name max_length msg v = [].
Proof.
  unfold validate_str_field. intros Hb Hlen.
  destruct (Nat.ltb_spec (String.length v) 1) as [Hlt|_].
  - destruct v; [discriminate Hb | simpl in Hlt; lia].
  - destruct (Nat.ltb_spec max_length (String.length v)) as [Hlt|_]; [lia|].
    rewrite Hb. reflexivity.
Qed.

(** C9, counterexample: a provider identifier of 51 characters is not
    blank, and is rejected by [max_length=50]. *)
Lemma long_provider_id_is_rejected : ~ nonblank_identifiers_pass.
Proof.
  intros H.
  destruct (H (Fixture.with_ids
                 "PPPPPPPPPPPPPPPPPPPPPPPPPPPPPPPPPPPPPPPPPPPPPPPPPPP"
                 "PAT-12345" Fixture.sample_event)
              Fixture.empty_world eq_refl eq_refl) as (ev & w' & Hnew).
  vm_compute in Hnew. discriminate Hnew.
Qed.

(** C9 (as amended).  A request whose provider or patient identifier is
    empty or all whitespace is rejected with a validation error, and the
    world is then exactly as before: no encryption call, no allocation, no
    cache write, nothing published.  A request whose identifiers are not
    blank and within the length limits (50 and 100 characters) passes
    validation, still without any encryption call. *)
Theorem blank_identifiers_rejected_before_encryption
    cipher utcnow redis_up py_str client_put_record settings exn_str body w :
  (PyStr.blank (raw_provider_id body) = true
   \/ PyStr.blank (raw_patient_id body) = true ->
   exists errors w',
     ingest_event cipher utcnow redis_up py_str client_put_record settings
                  exn_str body w
     = (Raise (ValidationError errors), w')
     /\ errors <> [] /\ w' = w /\ enc_calls w' = enc_calls w)
  /\ (PyStr.blank (raw_provider_id body) = false ->
      PyStr.blank (raw_patient_id body) = false ->
      String.length (raw_provider_id body) <= 50 ->
      String.length (raw_patient_id body) <= 100 ->
      exists ev w',
        HealthcareEvent_new body w = (Ok ev, w')
        /\ enc_calls w' = enc_calls w).
Proof.
  split.
  - intros Hblank.
    assert (Herr : validation_errors (raw_provider_id body) (raw_patient_id body)
                   <> []).
    { unfold validation_errors. intros E. apply app_eq_nil in E as [E1 E2].
      destruct Hblank as [Hb|Hb].
      - exact (validate_str_field_blank _ _ _ _ Hb E1).
      - exact (validate_str_field_blank _ _ _ _ Hb E2). }
    destruct (validation_errors (raw_provider_id body) (raw_patient_id body))
      as [|err errs] eqn:Hv; [congruence|].
    exists (err :: errs), w. split; [|auto].
    unfold ingest_event. apply bind_Raise.
    unfold HealthcareEvent_new. rewrite Hv. reflexivity.
  - intros Hb1 Hb2 Hl1 Hl2.
    unfold HealthcareEvent_new, validation_errors,
      validate_provider_id, validate_patient_id.
    rewrite (validate_str_field_ok _ _ _ _ Hb1 Hl1).
    rewrite (validate_str_field_ok _ _ _ _ Hb2 Hl2). simpl.
    eexists _, _. split; reflexivity.
Qed.

(** A whitespace-only provider identifier is rejected and nothing has
    happened; the sample event of the tests passes validation. *)
Lemma blank_provider_rejected_sample_accepted :
  (exists errors w',
     ingest_event Fixture.mock_cipher Fixture.mock_utcnow Fixture.mock_redis
       Fixture.mock_str (fun _ _ _ _ => PutOk "shardId-0" "1") default_settings
       RoutesFixture.exn_str
       (Fixture.with_ids "   " "PAT-12345" Fixture.sample_event)
       Fixture.empty_world
     = (Raise (ValidationError errors), w')
     /\ errors <> [] /\ w' = Fixture.empty_world
     /\ enc_calls w' = enc_calls Fixture.empty_world)
  /\ (exists ev w',
        HealthcareEvent_new Fixture.sample_event Fixture.empty_world = (Ok ev, w')
        /\ enc_calls w' = enc_calls Fixture.empty_world).
Proof.
  split.
  - apply (proj1 (blank_identifiers_rejected_before_encryption
                    Fixture.mock_cipher Fixture.mock_utcnow Fixture.mock_redis
                    Fixture.mock_str (fun _ _ _ _ => PutOk "shardId-0" "1")
                    default_settings RoutesFixture.exn_str
                    (Fixture.with_ids "   " "PAT-12345" Fixture.sample_event)
                    Fixture.empty_world)).
    left. reflexivity.
  - apply (proj2 (blank_identifiers_rejected_before_encryption
                    Fixture.mock_cipher Fixture.mock_utcnow Fixture.mock_redis
                    Fixture.mock_str (fun _ _ _ _ => PutOk "shardId-0" "1")
                    default_settings RoutesFixture.exn_str
                    Fixture.sample_event Fixture.empty_world));
      try reflexivity; simpl; lia.
Defined.

End PipelineTheorems.

(** ** The stream producer *)

Section ProducerFacts.

Import Event.

Context (client_put_record :
           list effect -> string -> list N -> option string -> put_outcome)
        (client_put_records :
           list effect -> string -> list (list N * option string)
           -> put_records_outcome)
        (self : KinesisProducer).

Local Abbreviation put_record := (put_record client_put_record).
Local Abbreviation _put_record := (_put_record client_put_record self).
Local Abbreviation _send_to_dlq := (_send_to_dlq client_put_record self).
Local Abbreviation send_attempt := (send_attempt client_put_record self).
Local Abbreviation send_loop := (send_loop client_put_record self).
Local Abbreviation send_event := (send_event client_put_record self).

Lemma wire_record_eval event w r :
  wire_of (heap w) event = Some r -> wire_record event w = (Ok r, w).
Proof.
  unfold wire_of, wire_record, processed_dump_json. intros H.
  destruct (heap w !! payload (base event)) as [[d|]|] eqn:E; try discriminate H.
  inversion H; subst r; clear H.
  rewrite (bind_Ok _ _ _ _ _ (bind_Ok _ _ _ _ _ (read_dict_Some _ _ _ E))).
  reflexivity.
Qed.

Lemma put_record_eval stream data key w :
  put_record stream data key w
  = (match client_put_record (trace w) stream data key with
     | PutOk shard sequence => Ok (shard, sequence)
     | PutFail e => Raise e
     end,
     emit (EPutRecord stream data key
             (client_put_record (trace w) stream data key)) w).
Proof.
  unfold Producer.put_record. destruct (client_put_record _ _ _ _); reflexivity.
Qed.

(** One dead-letter write: a single [put_record] on the dead-letter stream
    with the wire record of the event, then a log line; a client error is
    swallowed. *)
Lemma _send_to_dlq_eval event w r :
  wire_of (heap w) event = Some r ->
  let answer := client_put_record (trace w) (dlq_stream_name self) (fst r) (snd r) in
  let w1 := emit (EPutRecord (dlq_stream_name self) (fst r) (snd r) answer) w in
  _send_to_dlq event w =
  match answer with
  | PutOk _ _ => (Ok tt, emit (ELog "warning" "event_sent_to_dlq") w1)
  | PutFail (ClientError _) => (Ok tt, emit (ELog "error" "dlq_publish_failed") w1)
  | PutFail e => (Raise e, w1)
  end.
Proof.
  intros Hr. cbv zeta. unfold Producer._send_to_dlq, except_ClientError.
  rewrite (bind_Ok _ _ _ _ _ (wire_record_eval _ _ _ Hr)).
  unfold mbind at 1, M_bind at 1. rewrite put_record_eval.
  destruct (client_put_record _ _ _ _) as [sh sq|[]]; reflexivity.
Qed.

(** One turn of the retry loop. *)
Lemma send_attempt_eval event attempt w r :
  wire_of (heap w) event = Some r ->
  let answer := client_put_record (trace w) (stream_name self) (fst r) (snd r) in
  let w1 := emit (EPutRecord (stream_name self) (fst r) (snd r) answer) w in
  send_attempt event attempt w =
  match answer with
  | PutOk _ _ => (Ok (Return true), emit (ELog "info" "event_published") w1)
  | PutFail (ClientError code) =>
      let w2 := emit (ELog "warning" "kinesis_publish_retry") w1 in
      if String.eqb code "ProvisionedThroughputExceededException"
      then (Ok Continue,
            emit (ESleep (base_delay self * inject_Z (2 ^ Z.of_nat attempt))) w2)
      else (Ok Break, w2)
  | PutFail e => (Raise e, w1)
  end.
Proof.
  intros Hr. cbv zeta. unfold Producer.send_attempt, except_ClientError.
  unfold mbind at 1, M_bind at 1. unfold Producer._put_record.
  rewrite (bind_Ok _ _ _ _ _ (wire_record_eval _ _ _ Hr)).
  rewrite put_record_eval.
  destruct (client_put_record _ _ _ _) as [sh sq|[]]; try reflexivity.
  destruct (String.eqb code _); reflexivity.
Qed.

Lemma calls_app t1 t2 : calls (t1 ++ t2) = calls t1 ++ calls t2.
Proof. unfold calls. apply List.filter_app. Qed.

Lemma puts_on_app stream t1 t2 :
  puts_on stream (t1 ++ t2) = puts_on stream t1 ++ puts_on stream t2.
Proof.
  induction t1 as [|e t1 IH]; simpl; [reflexivity|].
  destruct e; try exact IH. destruct (String.eqb _ _); simpl; rewrite IH; reflexivity.
Qed.

Lemma delivered_app stream t1 t2 :
  delivered stream (t1 ++ t2) = delivered stream t1 || delivered stream t2.
Proof. unfold delivered. rewrite puts_on_app. apply existsb_app. Qed.

Lemma _send_to_dlq_total event w r :
  wire_of (heap w) event = Some r ->
  client_errors_only client_put_record ->
  exists w' answer level line,
    _send_to_dlq event w = (Ok tt, w')
    /\ heap w' = heap w
    /\ trace w' = trace w
                  ++ [EPutRecord (dlq_stream_name self) (fst r) (snd r) answer;
                      ELog level line].
Proof.
  intros Hr Hce.
  pose proof (_send_to_dlq_eval event w r Hr) as Hd. cbv zeta in Hd.
  destruct (client_put_record (trace w) (dlq_stream_name self) r.1 r.2)
    as [sh sq|e] eqn:Ea.
  - eexists _, (PutOk sh sq), _, _. split; [exact Hd|]. split; [reflexivity|].
    simpl. rewrite <- app_assoc. reflexivity.
  - destruct (Hce _ _ _ _ _ Ea) as [code ->].
    eexists _, (PutFail (ClientError code)), _, _.
    split; [exact Hd|]. split; [reflexivity|].
    simpl. rewrite <- app_assoc. reflexivity.
Qed.

Lemma send_loop_throttled event r attempts :
  (forall history data key,
     client_put_record history (stream_name self) data key = throttled) ->
  forall w,
    wire_of (heap w) event = Some r ->
    exists w' t,
      send_loop event attempts w = (Ok None, w')
      /\ heap w' = heap w
      /\ trace w' = trace w ++ t
      /\ calls t = throttled_attempts self r attempts.
Proof.
  intros Hthr. induction attempts as [|a attempts IH]; intros w Hr.
  - exists w, []. simpl. rewrite app_nil_r. auto.
  - cbn [Producer.send_loop].
    pose proof (send_attempt_eval event a w r Hr) as Ha. cbv zeta in Ha.
    rewrite Hthr in Ha. unfold throttled in Ha. simpl in Ha.
    rewrite (bind_Ok _ _ _ _ _ Ha).
    match type of Ha with _ = (_, ?w2) => set (w2' := w2) in * end.
    destruct (IH w2' Hr) as (w' & t & Hl & Hh & Ht & Hc).
    exists w', ([EPutRecord (stream_name self) (fst r) (snd r) throttled;
                 ELog "warning" "kinesis_publish_retry";
                 ESleep (base_delay self * inject_Z (2 ^ Z.of_nat a))] ++ t).
    split; [exact Hl|]. split; [exact Hh|]. split.
    + rewrite Ht. unfold w2'. simpl. rewrite <- !app_assoc. reflexivity.
    + rewrite calls_app, Hc. reflexivity.
Qed.

(** [k] throttled attempts, then an attempt refused with another client
    error: the loop stops there, whatever attempts are left. *)
Lemma send_loop_refused event r code k :
  code <> "ProvisionedThroughputExceededException" ->
  forall first more w,
    wire_of (heap w) event = Some r ->
    (forall history data key,
       client_put_record history (stream_name self) data key
       = if Nat.ltb (length (puts_on (stream_name self) history))
                    (length (puts_on (stream_name self) (trace w)) + k)
         then throttled
         else PutFail (ClientError code)) ->
    exists w' t,
      send_loop event (seq first (k + S more)) w = (Ok None, w')
      /\ heap w' = heap w
      /\ trace w' = trace w ++ t
      /\ calls t
         = throttled_attempts self r (seq first k)
           ++ [EPutRecord (stream_name self) (fst r) (snd r)
                 (PutFail (ClientError code))].
Proof.
  intros Hcode. apply String.eqb_neq in Hcode.
  induction k as [|k IH]; intros first more w Hr Hans.
  - cbn [Nat.add seq Producer.send_loop].
    pose proof (send_attempt_eval event first w r Hr) as Ha. cbv zeta in Ha.
    rewrite Hans, Nat.add_0_r, Nat.ltb_irrefl, Hcode in Ha.
    rewrite (bind_Ok _ _ _ _ _ Ha).
    eexists _, [_; _]. split; [reflexivity|]. split; [reflexivity|]. split.
    + simpl. rewrite <- app_assoc. reflexivity.
    + reflexivity.
  - cbn [Nat.add seq Producer.send_loop].
    pose proof (send_attempt_eval event first w r Hr) as Ha. cbv zeta in Ha.
    rewrite Hans in Ha.
    replace (Nat.ltb _ _) with true in Ha by (symmetry; apply Nat.ltb_lt; lia).
    unfold throttled in Ha. simpl in Ha.
    rewrite (bind_Ok _ _ _ _ _ Ha).
    match type of Ha with _ = (_, ?w2) => set (w1 := w2) in * end.
    assert (Hputs : length (puts_on (stream_name self) (trace w1))
                    = S (length (puts_on (stream_name self) (trace w)))).
    { unfold w1. simpl. rewrite !puts_on_app. simpl.
      rewrite String.eqb_refl. simpl. rewrite !length_app. simpl. lia. }
    destruct (IH (S first) more w1 Hr) as (w' & t & Hl & Hh & Ht & Hc).
    { intros history data key. rewrite Hans, Hputs.
      replace (S (length (puts_on (stream_name self) (trace w))) + k)
        with (length (puts_on (stream_name self) (trace w)) + S k) by lia.
      reflexivity. }
    exists w', ([EPutRecord (stream_name self) (fst r) (snd r) throttled;
                 ELog "warning" "kinesis_publish_retry";
                 ESleep (base_delay self * inject_Z (2 ^ Z.of_nat first))] ++ t).
    split; [exact Hl|]. split; [exact Hh|]. split.
    + rewrite Ht. unfold w1. simpl. rewrite <- !app_assoc. reflexivity.
    + rewrite calls_app, Hc. reflexivity.
Qed.

(** [k] throttled attempts, then an attempt that fails with an exception
    that is no client error: the exception leaves the loop. *)
Lemma send_loop_raised event r e k :
  is_ClientError e = false ->
  forall first more w,
    wire_of (heap w) event = Some r ->
    (forall history data key,
       client_put_record history (stream_name self) data key
       = if Nat.ltb (length (puts_on (stream_name self) history))
                    (length (puts_on (stream_name self) (trace w)) + k)
         then throttled
         else PutFail e) ->
    exists w' t,
      send_loop event (seq first (k + S more)) w = (Raise e, w')
      /\ trace w' = trace w ++ t
      /\ calls t
         = throttled_attempts self r (seq first k)
           ++ [EPutRecord (stream_name self) (fst r) (snd r) (PutFail e)].
Proof.
  intros He.
  induction k as [|k IH]; intros first more w Hr Hans.
  - cbn [Nat.add seq Producer.send_loop].
    pose proof (send_attempt_eval event first w r Hr) as Ha. cbv zeta in Ha.
    rewrite Hans, Nat.add_0_r, Nat.ltb_irrefl in Ha.
    assert (Ha' : send_attempt event first w
                  = (Raise e,
                     emit (EPutRecord (stream_name self) (fst r) (snd r)
                             (PutFail e)) w))
      by (destruct e; try discriminate He; exact Ha).
    rewrite (bind_Raise _ _ _ _ _ Ha').
    eexists _, [_]. split; [reflexivity|]. split; reflexivity.
  - cbn [Nat.add seq Producer.send_loop].
    pose proof (send_attempt_eval event first w r Hr) as Ha. cbv zeta in Ha.
    rewrite Hans in Ha.
    replace (Nat.ltb _ _) with true in Ha by (symmetry; apply Nat.ltb_lt; lia).
    unfold throttled in Ha. simpl in Ha.
    rewrite (bind_Ok _ _ _ _ _ Ha).
    match type of Ha with _ = (_, ?w2) => set (w1 := w2) in * end.
    assert (Hputs : length (puts_on (stream_name self) (trace w1))
                    = S (length (puts_on (stream_name self) (trace w)))).
    { unfold w1. simpl. rewrite !puts_on_app. simpl.
      rewrite String.eqb_refl. simpl. rewrite !length_app. simpl. lia. }
    destruct (IH (S first) more w1 Hr) as (w' & t & Hl & Ht & Hc).
    { intros history data key. rewrite Hans, Hputs.
      replace (S (length (puts_on (stream_name self) (trace w))) + k)
        with (length (puts_on (stream_name self) (trace w)) + S k) by lia.
      reflexivity. }
    exists w', ([EPutRecord (stream_name self) (fst r) (snd r) throttled;
                 ELog "warning" "kinesis_publish_retry";
                 ESleep (base_delay self * inject_Z (2 ^ Z.of_nat first))] ++ t).
    split; [exact Hl|]. split.
    + rewrite Ht. unfold w1. simpl. rewrite <- !app_assoc. reflexivity.
    + rewrite calls_app, Hc. reflexivity.
Qed.

(** The dead-letter write, whatever the stream answers. *)
Lemma _send_to_dlq_any event w r :
  wire_of (heap w) event = Some r ->
  exists w' logs,
    _send_to_dlq event w
    = (match after_dead_letter
               (client_put_record (trace w) (dlq_stream_name self)
                                  (fst r) (snd r)) with
       | Ok _ => Ok tt
       | Raise e => Raise e
       end, w')
    /\ heap w' = heap w
    /\ trace w' = trace w
                  ++ EPutRecord (dlq_stream_name self) (fst r) (snd r)
                       (client_put_record (trace w) (dlq_stream_name self)
                                          (fst r) (snd r))
                     :: logs
    /\ calls logs = [].
Proof.
  intros Hr.
  pose proof (_send_to_dlq_eval event w r Hr) as Hd. cbv zeta in Hd.
  rewrite Hd.
  destruct (client_put_record (trace w) (dlq_stream_name self) r.1 r.2)
    as [sh sq|[]]; cbn [after_dead_letter is_ClientError].
  all: first [ eexists _, [_]; split; [reflexivity|]; split; [reflexivity|];
               split; [simpl; rewrite <- app_assoc; reflexivity|reflexivity]
             | eexists _, []; split; [reflexivity|]; split; [reflexivity|];
               split; reflexivity ].
Qed.

(** C3 (as amended).  When every [put_record] on the primary stream is
    throttled, [send_event] makes [max_retries] attempts, sleeps
    [base_delay * 2 ** attempt] after each of them, the last one included,
    and then makes one dead-letter write.  When an attempt, the first or a
    later one, fails with another client error, it makes no more attempt
    and no sleep: the dead-letter write follows at once.  In both cases it
    returns [False], unless the dead-letter write itself raises something
    that is no client error.  When an attempt fails with an exception that
    is no client error, [send_event] raises it at once: no further
    attempt, no sleep and no dead-letter write.  [max_retries] is 3 and
    [base_delay] a tenth of a second. *)
Theorem throttled_publish_retries_then_dead_letters event w r :
  wire_of (heap w) event = Some r ->
  ((forall history data key,
      client_put_record history (stream_name self) data key = throttled) ->
   exists w' t dlq_answer,
     send_event event w = (after_dead_letter dlq_answer, w')
     /\ trace w' = trace w ++ t
     /\ calls t
        = throttled_attempts self r (seq 0 (max_retries self))
          ++ [EPutRecord (dlq_stream_name self) (fst r) (snd r) dlq_answer]
     /\ (client_errors_only client_put_record ->
         after_dead_letter dlq_answer = Ok false))
  /\ (forall code k,
        k < max_retries self ->
        code <> "ProvisionedThroughputExceededException" ->
        (forall history data key,
           client_put_record history (stream_name self) data key
           = if Nat.ltb (length (puts_on (stream_name self) history))
                        (length (puts_on (stream_name self) (trace w)) + k)
             then throttled
             else PutFail (ClientError code)) ->
        exists w' t dlq_answer,
          send_event event w = (after_dead_letter dlq_answer, w')
          /\ trace w' = trace w ++ t
          /\ calls t
             = throttled_attempts self r (seq 0 k)
               ++ [ EPutRecord (stream_name self) (fst r) (snd r)
                      (PutFail (ClientError code));
                    EPutRecord (dlq_stream_name self) (fst r) (snd r)
                      dlq_answer ]
          /\ (client_errors_only client_put_record ->
              after_dead_letter dlq_answer = Ok false))
  /\ (forall e k,
        k < max_retries self ->
        is_ClientError e = false ->
        (forall history data key,
           client_put_record history (stream_name self) data key
           = if Nat.ltb (length (puts_on (stream_name self) history))
                        (length (puts_on (stream_name self) (trace w)) + k)
             then throttled
             else PutFail e) ->
        exists w' t,
          send_event event w = (Raise e, w')
          /\ trace w' = trace w ++ t
          /\ calls t
             = throttled_attempts self r (seq 0 k)
               ++ [ EPutRecord (stream_name self) (fst r) (snd r)
                      (PutFail e) ])
  /\ (forall settings,
        max_retries (KinesisProducer_init settings) = 3
        /\ base_delay (KinesisProducer_init settings) = 1 # 10).
Proof.
  intros Hr.
  assert (Hdlq : forall n w1 t,
             heap w1 = heap w -> trace w1 = trace w ++ t ->
             n = max_retries self ->
             send_loop event (seq 0 n) w = (Ok None, w1) ->
             exists w' t' dlq_answer,
               send_event event w = (after_dead_letter dlq_answer, w')
               /\ trace w' = trace w ++ t'
               /\ calls t'
                  = calls t
                    ++ [EPutRecord (dlq_stream_name self) (fst r) (snd r)
                          dlq_answer]
               /\ (client_errors_only client_put_record ->
                   after_dead_letter dlq_answer = Ok false)).
  { intros n w1 t Hh Ht -> Hl.
    unfold Producer.send_event. rewrite (bind_Ok _ _ _ _ _ Hl).
    assert (Hr1 : wire_of (heap w1) event = Some r) by (rewrite Hh; exact Hr).
    destruct (_send_to_dlq_any event w1 r Hr1)
      as (w2 & logs & Hd & _ & Ht2 & Hlogs).
    remember (client_put_record (trace w1) (dlq_stream_name self)
                (fst r) (snd r)) as answer eqn:Ea.
    exists w2, (t ++ EPutRecord (dlq_stream_name self) (fst r) (snd r) answer
                     :: logs), answer.
    split.
    { unfold mbind, M_bind. rewrite Hd. unfold after_dead_letter.
      destruct answer as [sh sq|e]; [reflexivity|].
      destruct (is_ClientError e); reflexivity. }
    split; [rewrite Ht2, Ht, <- app_assoc; reflexivity|].
    split.
    { rewrite calls_app. f_equal.
      change (EPutRecord (dlq_stream_name self) r.1 r.2 answer :: logs)
        with ([EPutRecord (dlq_stream_name self) r.1 r.2 answer] ++ logs).
      rewrite calls_app, Hlogs. reflexivity. }
    intros Hce. unfold after_dead_letter.
    destruct answer as [sh sq|e]; [reflexivity|].
    symmetry in Ea. destruct (Hce _ _ _ _ _ Ea) as [code ->]. reflexivity. }
  split; [|split; [|split]].
  - intros Hthr.
    destruct (send_loop_throttled event r (seq 0 (max_retries self)) Hthr w Hr)
      as (w1 & t & Hl & Hh & Ht & Hc).
    destruct (Hdlq _ w1 t Hh Ht eq_refl Hl)
      as (w' & t' & answer & Hs & Ht' & Hc' & Hok).
    exists w', t', answer. rewrite Hc', Hc. auto.
  - intros code k Hk Hcode Hans.
    destruct (send_loop_refused event r code k Hcode 0
                (max_retries self - S k) w Hr Hans)
      as (w1 & t & Hl & Hh & Ht & Hc).
    destruct (Hdlq (k + S (max_retries self - S k)) w1 t Hh Ht ltac:(lia) Hl)
      as (w' & t' & answer & Hs & Ht' & Hc' & Hok).
    exists w', t', answer. rewrite Hc', Hc, <- app_assoc. auto.
  - intros e k Hk He Hans.
    destruct (send_loop_raised event r e k He 0
                (max_retries self - S k) w Hr Hans)
      as (w1 & t & Hl & Ht & Hc).
    exists w1, t. split; [|auto].
    unfold Producer.send_event.
    replace (max_retries self) with (k + S (max_retries self - S k)) by lia.
    exact (bind_Raise _ _ _ _ _ Hl).
  - intros settings. split; reflexivity.
Qed.

(** The retry loop on any stream that raises client errors only: it never
    writes to the dead-letter stream, every record it sends is the wire
    record of the event, and it ends with [return True] exactly when an
    attempt was accepted. *)
Lemma send_loop_total event r attempts :
  client_errors_only client_put_record ->
  stream_name self <> dlq_stream_name self ->
  forall w,
    wire_of (heap w) event = Some r ->
    exists res w' t,
      send_loop event attempts w = (Ok res, w')
      /\ heap w' = heap w
      /\ trace w' = trace w ++ t
      /\ res <> Some false
      /\ delivered (stream_name self) t
         = match res with Some true => true | _ => false end
      /\ puts_on (dlq_stream_name self) t = []
      /\ Forall (fun p => fst p = r) (puts_on (stream_name self) t).
Proof.
  intros Hce Hne.
  assert (Heq : String.eqb (stream_name self) (dlq_stream_name self) = false)
    by (apply String.eqb_neq, Hne).
  induction attempts as [|a attempts IH]; intros w Hr.
  - exists None, w, []. simpl. rewrite app_nil_r.
    repeat split; auto; discriminate.
  - cbn [Producer.send_loop].
    pose proof (send_attempt_eval event a w r Hr) as Ha. cbv zeta in Ha.
    destruct (client_put_record (trace w) (stream_name self) r.1 r.2)
      as [sh sq|e] eqn:Ea.
    + rewrite (bind_Ok _ _ _ _ _ Ha).
      eexists (Some true), _, [_; _]. split; [reflexivity|].
      split; [reflexivity|]. split.
      { simpl. rewrite <- app_assoc. reflexivity. }
      split; [discriminate|]. unfold delivered. simpl.
      rewrite String.eqb_refl, Heq. simpl.
      repeat split; auto. constructor; [destruct r; reflexivity|constructor].
    + destruct (Hce _ _ _ _ _ Ea) as [code ->].
      destruct (String.eqb code "ProvisionedThroughputExceededException") eqn:Ec.
      * rewrite (bind_Ok _ _ _ _ _ Ha).
        match type of Ha with _ = (_, ?w2) => set (w1 := w2) in * end.
        destruct (IH w1 Hr) as (res & w' & t & Hl & Hh & Ht & Hres & Hdel & Hdlq & Hall).
        exists res, w',
          ([EPutRecord (stream_name self) (fst r) (snd r) (PutFail (ClientError code));
            ELog "warning" "kinesis_publish_retry";
            ESleep (base_delay self * inject_Z (2 ^ Z.of_nat a))] ++ t).
        split; [exact Hl|]. split; [exact Hh|]. split.
        { rewrite Ht. unfold w1. simpl. rewrite <- !app_assoc. reflexivity. }
        split; [exact Hres|].
        rewrite delivered_app, !puts_on_app, Hdel, Hdlq.
        unfold delivered. simpl. rewrite String.eqb_refl, Heq. simpl.
        repeat split; auto. constructor; [destruct r; reflexivity|exact Hall].
      * rewrite (bind_Ok _ _ _ _ _ Ha).
        eexists None, _, [_; _]. split; [reflexivity|].
        split; [reflexivity|]. split.
        { simpl. rewrite <- app_assoc. reflexivity. }
        split; [discriminate|]. unfold delivered. simpl.
        rewrite String.eqb_refl, Heq. simpl.
        repeat split; auto. constructor; [destruct r; reflexivity|constructor].
Qed.

(** C4 (as amended).  With a stream client that raises client errors
    only, [send_event] always returns, and it returns [True] exactly when
    the primary stream accepted the record.  It makes one dead-letter write
    when the record did not reach the primary stream and none when it did;
    that write is not retried, so the record is in the dead-letter stream
    only if this one write was accepted.  Every write, to either stream,
    carries the same bytes and the same partition key: the wire record of
    the event; the two streams have different names. *)
Theorem one_dead_letter_write_iff_not_delivered event w r :
  wire_of (heap w) event = Some r ->
  client_errors_only client_put_record ->
  stream_name self <> dlq_stream_name self ->
  exists b w' t,
    send_event event w = (Ok b, w')
    /\ trace w' = trace w ++ t
    /\ delivered (stream_name self) t = b
    /\ length (puts_on (dlq_stream_name self) t) = (if b then 0 else 1)
    /\ (delivered (dlq_stream_name self) t = true ->
        delivered (stream_name self) t = false)
    /\ Forall (fun p => fst p = r)
              (puts_on (stream_name self) t ++ puts_on (dlq_stream_name self) t)
    /\ stream_name (KinesisProducer_init default_settings)
       <> dlq_stream_name (KinesisProducer_init default_settings).
Proof.
  intros Hr Hce Hne.
  assert (Heq : String.eqb (stream_name self) (dlq_stream_name self) = false)
    by (apply String.eqb_neq, Hne).
  assert (Heq' : String.eqb (dlq_stream_name self) (stream_name self) = false)
    by (apply String.eqb_neq; congruence).
  assert (Hdefault : stream_name (KinesisProducer_init default_settings)
                     <> dlq_stream_name (KinesisProducer_init default_settings))
    by discriminate.
  destruct (send_loop_total event r (seq 0 (max_retries self)) Hce Hne w Hr)
    as (res & w1 & t & Hl & Hh & Ht & Hres & Hdel & Hdlq & Hall).
  unfold Producer.send_event. rewrite (bind_Ok _ _ _ _ _ Hl).
  destruct res as [[|]|]; [|congruence|].
  - exists true, w1, t. split; [reflexivity|]. split; [exact Ht|].
    split; [exact Hdel|]. split; [rewrite Hdlq; reflexivity|].
    split; [unfold delivered; rewrite Hdlq; discriminate|].
    split; [|exact Hdefault].
    rewrite Hdlq, app_nil_r. exact Hall.
  - assert (Hr1 : wire_of (heap w1) event = Some r) by (rewrite Hh; exact Hr).
    destruct (_send_to_dlq_total event w1 r Hr1 Hce)
      as (w2 & answer & level & line & Hd & _ & Ht2).
    rewrite (bind_Ok _ _ _ _ _ Hd).
    exists false, w2,
      (t ++ [EPutRecord (dlq_stream_name self) (fst r) (snd r) answer;
             ELog level line]).
    split; [reflexivity|]. split; [rewrite Ht2, Ht, <- app_assoc; reflexivity|].
    rewrite delivered_app, !puts_on_app, Hdel, Hdlq.
    unfold delivered. simpl. rewrite String.eqb_refl, Heq'. simpl.
    split; [reflexivity|]. split; [reflexivity|]. split; [reflexivity|].
    split; [|exact Hdefault].
    rewrite app_nil_r. apply Forall_app. split; [exact Hall|].
    constructor; [destruct r; reflexivity|constructor].
Qed.

End ProducerFacts.

Section BatchFacts.

Import Event.

Context (client_put_record :
           list effect -> string -> list N -> option string -> put_outcome)
        (client_put_records :
           list effect -> string -> list (list N * option string)
           -> put_records_outcome)
        (self : KinesisProducer).

Local Abbreviation _send_to_dlq := (_send_to_dlq client_put_record self).
Local Abbreviation _handle_failed_records :=
  (_handle_failed_records client_put_record self).
Local Abbreviation send_batch :=
  (send_batch client_put_record client_put_records self).

Lemma batch_calls_app t1 t2 : batch_calls (t1 ++ t2) = batch_calls t1 + batch_calls t2.
Proof. unfold batch_calls. rewrite List.filter_app, length_app. reflexivity. Qed.

Lemma map_M_wire_record events records w :
  Forall2 (fun event r => wire_of (heap w) event = Some r) events records ->
  map_M wire_record events w = (Ok records, w).
Proof.
  induction 1 as [|event r events records Hr _ IH]; simpl; [reflexivity|].
  rewrite (bind_Ok _ _ _ _ _ (wire_record_eval _ _ _ Hr)).
  rewrite (bind_Ok _ _ _ _ _ IH). reflexivity.
Qed.

(** The loop of [_handle_failed_records]: one dead-letter write for each
    event whose entry in the answer carries an error code, in order. *)
Lemma _handle_failed_records_eval events records results :
  client_errors_only client_put_record ->
  forall w,
    Forall2 (fun event r => wire_of (heap w) event = Some r) events records ->
    exists w' t,
      _handle_failed_records events results w = (Ok tt, w')
      /\ heap w' = heap w
      /\ trace w' = trace w ++ t
      /\ batch_calls t = 0
      /\ map fst (puts_on (dlq_stream_name self) t)
         = failed_records records results.
Proof.
  intros Hce w H. revert records results w H.
  unfold Producer._handle_failed_records, failed_records.
  induction events as [|event events IH]; intros records results w H;
    inversion H as [|? r ? records' Hr Hrest]; subst.
  - exists w, []. simpl. rewrite app_nil_r. auto.
  - destruct results as [|result results].
    { exists w, []. simpl. rewrite app_nil_r. auto. }
    cbn [combine for_each List.filter map snd fst].
    destruct (is_error result) eqn:Herr.
    + destruct (_send_to_dlq_total client_put_record self event w r Hr Hce)
        as (w1 & answer & level & line & Hd & Hh & Ht).
      rewrite (bind_Ok _ _ _ _ _ Hd).
      assert (H1 : Forall2 (fun event r => wire_of (heap w1) event = Some r)
                     events records') by (rewrite Hh; exact Hrest).
      destruct (IH records' results w1 H1) as (w' & t & Hl & Hh' & Ht' & Hb & Hp).
      exists w', ([EPutRecord (dlq_stream_name self) (fst r) (snd r) answer;
                   ELog level line] ++ t).
      split; [exact Hl|]. split; [congruence|].
      split; [rewrite Ht', Ht, <- app_assoc; reflexivity|].
      rewrite batch_calls_app, puts_on_app, map_app, Hb, Hp. simpl.
      rewrite String.eqb_refl. simpl. destruct r; auto.
    + change ((mret tt : M unit) w) with (Ok tt, w).
      rewrite (bind_Ok _ _ (Ok tt, w).2 tt w eq_refl).
      exact (IH records' results w Hrest).
Qed.




Lemma put_records_eval stream records w :
  put_records client_put_records stream records w
  = (match client_put_records (trace w) stream records with
     | BatchOk failed_count results => Ok (failed_count, results)
     | BatchFail e => Raise e
     end,
     emit (EPutRecords stream records
             (client_put_records (trace w) stream records)) w).
Proof.
  unfold put_records. destruct (client_put_records _ _ _); reflexivity.
Qed.





End BatchFacts.

Section ProducerExamples.

Import StreamFixture.

Lemma fixture_wire : wire_of (heap world) record = Some wire.
Proof. vm_compute. reflexivity. Qed.

Lemma always_throttled_client_errors : client_errors_only always_throttled.
Proof. intros h s d k e H. inversion H. eauto. Qed.

Lemma always_unavailable_client_errors : client_errors_only always_unavailable.
Proof. intros h s d k e H. inversion H. eauto. Qed.

Lemma throttled_once_client_errors : client_errors_only throttled_once.
Proof.
  intros h s d k e H. unfold throttled_once in H.
  destruct (Nat.ltb _ _); inversion H; eauto.
Qed.

(** Three throttled attempts with sleeps of 0.1, 0.2 and 0.4 seconds, then
    the dead-letter write; one throttled attempt and one refused attempt,
    then the dead-letter write; a connection that fails at the first
    attempt: the exception is raised after that one call. *)
Lemma three_attempts_then_dead_letter :
  (exists w' t dlq_answer,
     send_event always_throttled producer record world = (Ok false, w')
     /\ trace w' = trace world ++ t
     /\ calls t
        = [ EPutRecord "healthcare-events" (fst wire) (snd wire) throttled;
            ESleep ((1 # 10) * inject_Z 1);
            EPutRecord "healthcare-events" (fst wire) (snd wire) throttled;
            ESleep ((1 # 10) * inject_Z 2);
            EPutRecord "healthcare-events" (fst wire) (snd wire) throttled;
            ESleep ((1 # 10) * inject_Z 4);
            EPutRecord "healthcare-events-dlq" (fst wire) (snd wire) dlq_answer ])
  /\ (exists w' t dlq_answer,
        send_event throttled_once producer record world = (Ok false, w')
        /\ trace w' = trace world ++ t
        /\ calls t
           = [ EPutRecord "healthcare-events" (fst wire) (snd wire) throttled;
               ESleep ((1 # 10) * inject_Z 1);
               EPutRecord "healthcare-events" (fst wire) (snd wire)
                 (PutFail (ClientError "InternalFailure"));
               EPutRecord "healthcare-events-dlq" (fst wire) (snd wire)
                 dlq_answer ])
  /\ (exists w' t,
        send_event primary_disconnected producer record world
        = (Raise OtherError, w')
        /\ trace w' = trace world ++ t
        /\ calls t
           = [ EPutRecord "healthcare-events" (fst wire) (snd wire)
                 (PutFail OtherError) ]).
Proof.
  split; [|split].
  - destruct (proj1 (throttled_publish_retries_then_dead_letters
                       always_throttled producer record world wire
                       fixture_wire) ltac:(reflexivity))
      as (w' & t & answer & Hs & Ht & Hc & Hok).
    exists w', t, answer.
    rewrite Hs, (Hok always_throttled_client_errors). auto.
  - destruct (proj1 (proj2 (throttled_publish_retries_then_dead_letters
                              throttled_once producer record world wire
                              fixture_wire))
                "InternalFailure" 1 ltac:(simpl; lia) ltac:(discriminate)
                ltac:(reflexivity))
      as (w' & t & answer & Hs & Ht & Hc & Hok).
    exists w', t, answer.
    rewrite Hs, (Hok throttled_once_client_errors). auto.
  - apply (proj1 (proj2 (proj2 (throttled_publish_retries_then_dead_letters
                                  primary_disconnected producer record world
                                  wire fixture_wire)))
             OtherError 0).
    + simpl. lia.
    + reflexivity.
    + reflexivity.
Defined.

(** C3, counterexample: the connection to the primary stream fails at the
    first attempt, the dead-letter stream would accept.  The exception
    leaves [send_event] and nothing is written to the dead-letter
    stream. *)
Lemma connection_failure_is_not_dead_lettered :
  ~ nonretryable_failure_is_dead_lettered.
Proof.
  intros H.
  destruct (H primary_disconnected producer record world wire OtherError
              fixture_wire ltac:(simpl; lia) ltac:(discriminate)
              ltac:(discriminate) ltac:(reflexivity))
    as (t & Ht & _ & Hd).
  vm_compute in Ht. subst t. vm_compute in Hd. discriminate Hd.
Qed.

(** C4, counterexample: the primary stream and the dead-letter stream both
    refuse the record; it is in neither. *)
Lemma refused_by_both_streams : ~ dead_lettered_iff_not_delivered.
Proof.
  intros H.
  destruct (send_event always_unavailable producer record world) as [b w'] eqn:E.
  vm_compute in E. injection E as <- <-.
  specialize (H always_unavailable producer record world wire false _ _
                fixture_wire always_unavailable_client_errors
                ltac:(discriminate) eq_refl eq_refl).
  vm_compute in H. discriminate H.
Qed.

Lemma primary_unavailable_client_errors : client_errors_only primary_unavailable.
Proof.
  intros h s d k e H. unfold primary_unavailable in H.
  destruct (String.eqb s _); inversion H. eauto.
Qed.

(** The primary stream refuses the record with a client error: one
    dead-letter write, with the same bytes and key. *)
Lemma refused_record_is_dead_lettered :
  exists b w' t,
    send_event primary_unavailable producer record world = (Ok b, w')
    /\ trace w' = trace world ++ t
    /\ delivered "healthcare-events" t = b
    /\ length (puts_on "healthcare-events-dlq" t) = (if b then 0 else 1)
    /\ (delivered "healthcare-events-dlq" t = true ->
        delivered "healthcare-events" t = false)
    /\ Forall (fun p => fst p = wire)
              (puts_on "healthcare-events" t ++ puts_on "healthcare-events-dlq" t)
    /\ "healthcare-events" <> "healthcare-events-dlq".
Proof.
  apply (one_dead_letter_write_iff_not_delivered
           primary_unavailable producer record world wire
           fixture_wire primary_unavailable_client_errors).
  discriminate.
Defined.

Lemma fixture_batch_wire :
  Forall2 (fun event r => wire_of (heap world) event = Some r)
          batch [wire; wire; wire].
Proof. repeat constructor; exact fixture_wire. Qed.



End ProducerExamples.

(** ** The stream consumer *)

Section ConsumerFacts.

Context {data_t handler_t : Type}
        (json_loads : list N -> option data_t)
        (processor : data_t -> handler_t -> bool * handler_t).

Local Abbreviation process_record := (process_record json_loads processor).
Local Abbreviation _process_records := (_process_records json_loads processor).

Lemma checkpoint_after_app cp t1 t2 :
  checkpoint_after cp (t1 ++ t2) = checkpoint_after (checkpoint_after cp t1) t2.
Proof.
  revert cp. induction t1 as [|e t1 IH]; intros cp; simpl; [reflexivity|].
  destruct e as [| | |s [|]|]; apply IH.
Qed.

Lemma handled_app t1 t2 : handled (t1 ++ t2) = handled t1 ++ handled t2.
Proof.
  induction t1 as [|e t1 IH]; simpl; [reflexivity|].
  destruct e; simpl; rewrite IH; reflexivity.
Qed.

Lemma error_lines_app t1 t2 :
  error_lines (t1 ++ t2) = error_lines t1 ++ error_lines t2.
Proof.
  induction t1 as [|e t1 IH]; simpl; [reflexivity|].
  destruct e; try exact IH. destruct (_ && _); simpl; rewrite IH; reflexivity.
Qed.

Lemma positions_app cp t1 t2 :
  positions_follow_checkpoint cp (t1 ++ t2)
  <-> positions_follow_checkpoint cp t1
      /\ positions_follow_checkpoint (checkpoint_after cp t1) t2.
Proof.
  revert cp. induction t1 as [|e t1 IH]; intros cp; simpl; [tauto|].
  destruct e as [sh req ans| | |s [|]|]; simpl; rewrite ?IH; tauto.
Qed.

(** What one record does to the consumer: the events it adds, and the
    checkpoint of its shard, which moves exactly when the handler
    returned. *)
Lemma process_record_spec shard (c : KinesisConsumer handler_t) record :
  exists t,
    events (process_record shard c record) = events c ++ t
    /\ consumer_stream_name (process_record shard c record) = consumer_stream_name c
    /\ running (process_record shard c record) = running c
    /\ checkpoint_table (process_record shard c record)
       = match checkpoint_after None t with
         | Some s => <[shard := s]> (checkpoint_table c)
         | None => checkpoint_table c
         end
    /\ (t = [CLog "error" "record_processing_error" (SequenceNumber record)]
        /\ decodes json_loads record = false
        \/ t = [CHandled (SequenceNumber record) false;
                CLog "error" "record_processing_error" (SequenceNumber record)]
           /\ decodes json_loads record = true
        \/ t = [CHandled (SequenceNumber record) true]
           /\ decodes json_loads record = true).
Proof.
  unfold Consumer.process_record, decodes.
  destruct (json_loads (Data record)) as [data|].
  - destruct (processor data (handler c)) as [[|] h].
    + exists [CHandled (SequenceNumber record) true]. simpl. auto 10.
    + exists [CHandled (SequenceNumber record) false;
              CLog "error" "record_processing_error" (SequenceNumber record)].
      simpl. rewrite <- app_assoc. auto 10.
  - exists [CLog "error" "record_processing_error" (SequenceNumber record)].
    simpl. auto 10.
Qed.

(** The loop of [_process_records] over a batch. *)
Lemma process_batch_spec shard records : forall c : KinesisConsumer handler_t,
  exists t,
    events (fold_left (process_record shard) records c) = events c ++ t
    /\ consumer_stream_name (fold_left (process_record shard) records c)
       = consumer_stream_name c
    /\ running (fold_left (process_record shard) records c) = running c
    /\ checkpoint_table (fold_left (process_record shard) records c) !! shard
       = checkpoint_after (checkpoint_table c !! shard) t
    /\ (forall shard', shard' <> shard ->
          checkpoint_table (fold_left (process_record shard) records c) !! shard'
          = checkpoint_table c !! shard')
    /\ map fst (handled t)
       = map SequenceNumber (List.filter (decodes json_loads) records)
    /\ length (error_lines t) + length (List.filter snd (handled t))
       = length records
    /\ (forall cp, positions_follow_checkpoint cp t)
    /\ (forall cp s, checkpoint_after cp t = Some s ->
          cp = Some s \/ In s (map SequenceNumber records)).
Proof.
  induction records as [|record records IH]; intros c.
  - exists []. simpl. rewrite app_nil_r. repeat split; auto.
  - cbn [fold_left].
    destruct (process_record_spec shard c record)
      as (t1 & He1 & Hn1 & Hr1 & Hc1 & Hcases).
    destruct (IH (process_record shard c record))
      as (t2 & He2 & Hn2 & Hr2 & Hc2 & Ho2 & Hh2 & Hl2 & Hp2 & Hin2).
    exists (t1 ++ t2).
    split; [rewrite He2, He1, app_assoc; reflexivity|].
    split; [congruence|]. split; [congruence|].
    assert (Hcp1 : checkpoint_table (process_record shard c record) !! shard
                   = checkpoint_after (checkpoint_table c !! shard) t1).
    { rewrite Hc1.
      destruct Hcases as [[-> _]|[[-> _]|[-> _]]]; simpl; try reflexivity.
      apply lookup_insert_eq. }
    assert (Ho1 : forall shard', shard' <> shard ->
                    checkpoint_table (process_record shard c record) !! shard'
                    = checkpoint_table c !! shard').
    { intros shard' Hne. rewrite Hc1.
      destruct Hcases as [[-> _]|[[-> _]|[-> _]]]; simpl; try reflexivity.
      apply lookup_insert_ne. congruence. }
    split; [rewrite Hc2, Hcp1, checkpoint_after_app; reflexivity|].
    split; [intros shard' Hne; rewrite Ho2, Ho1 by exact Hne; reflexivity|].
    rewrite handled_app, error_lines_app, map_app, List.filter_app, !length_app.
    cbn [List.filter map]. rewrite Hh2.
    split; [|split; [|split]].
    + destruct Hcases as [[-> ->]|[[-> ->]|[-> ->]]]; reflexivity.
    + destruct Hcases as [[-> _]|[[-> _]|[-> _]]]; simpl in *; lia.
    + intros cp. apply positions_app. split; [|apply Hp2].
      destruct Hcases as [[-> _]|[[-> _]|[-> _]]]; simpl; auto.
    + intros cp s Hs. rewrite checkpoint_after_app in Hs.
      destruct (Hin2 _ _ Hs) as [H1|H1]; [|right; simpl; auto].
      destruct Hcases as [[-> _]|[[-> _]|[-> _]]]; simpl in H1; auto.
      inversion H1. right. simpl. auto.
Qed.

Lemma _process_records_events shard records (c : KinesisConsumer handler_t) :
  events (_process_records records shard c)
  = events (fold_left (process_record shard) records c)
    ++ [CLog "info" "records_processed" shard]
  /\ checkpoint_table (_process_records records shard c)
     = checkpoint_table (fold_left (process_record shard) records c).
Proof. split; reflexivity. Qed.

(** C2 (as amended).  A record whose handler raises is logged as an error
    and leaves the checkpoint where it was; the records after it are
    processed all the same, from the state it left, and each record whose
    handler returns sets the checkpoint to its sequence number.  Over a
    batch: every record that decodes is handed to the handler, in order,
    and the checkpoint of the shard ends at the marker of the last record
    whose handler returned. *)
Theorem handler_error_is_logged_and_batch_continues
    shard records (c : KinesisConsumer handler_t) :
  (forall c1 record data h,
     json_loads (Data record) = Some data ->
     processor data (handler c1) = (false, h) ->
     checkpoint_table (process_record shard c1 record) = checkpoint_table c1
     /\ events (process_record shard c1 record)
        = events c1
          ++ [CHandled (SequenceNumber record) false;
              CLog "error" "record_processing_error" (SequenceNumber record)])
  /\ (forall c1 record data h,
        json_loads (Data record) = Some data ->
        processor data (handler c1) = (true, h) ->
        checkpoint_table (process_record shard c1 record) !! shard
        = Some (SequenceNumber record))
  /\ (forall before record after,
        _process_records (before ++ record :: after) shard c
        = _process_records after shard
            (process_record shard
               (fold_left (process_record shard) before c) record))
  /\ exists t,
       events (_process_records records shard c)
       = events c ++ t ++ [CLog "info" "records_processed" shard]
       /\ map fst (handled t)
          = map SequenceNumber (List.filter (decodes json_loads) records)
       /\ length (error_lines t) + length (List.filter snd (handled t))
          = length records
       /\ checkpoint_table (_process_records records shard c) !! shard
          = checkpoint_after (checkpoint_table c !! shard) t.
Proof.
  split; [|split; [|split]].
  - intros c1 record data h Hd Hp. unfold Consumer.process_record.
    rewrite Hd, Hp. simpl. rewrite <- app_assoc. auto.
  - intros c1 record data h Hd Hp. unfold Consumer.process_record.
    rewrite Hd, Hp. simpl. apply lookup_insert_eq.
  - intros before record after. unfold Consumer._process_records.
    rewrite fold_left_app. reflexivity.
  - destruct (process_batch_spec shard records c)
      as (t & He & _ & _ & Hc & _ & Hh & Hl & _).
    exists t. destruct (_process_records_events shard records c) as [He' Hc'].
    rewrite He', Hc', He, Hc, <- app_assoc. auto.
Qed.

(** C8 (as amended).  The consumer writes the checkpoint without comparing
    it with the one it replaces: after a batch the checkpoint of the shard
    is the marker of the last record whose handler returned, and the one it
    had when there is none.  So a checkpoint once set stays set, the
    checkpoints of other shards are left alone, and the checkpoint never
    decreases provided the stream delivers the records in ascending order,
    none before the checkpoint. *)
Theorem checkpoint_is_last_handled_marker
    shard records (c : KinesisConsumer handler_t) :
  (exists t,
     events (_process_records records shard c)
     = events c ++ t ++ [CLog "info" "records_processed" shard]
     /\ checkpoint_table (_process_records records shard c) !! shard
        = checkpoint_after (checkpoint_table c !! shard) t)
  /\ (forall s, checkpoint_table c !! shard = Some s ->
        exists s', checkpoint_table (_process_records records shard c) !! shard
                   = Some s')
  /\ (forall shard', shard' <> shard ->
        checkpoint_table (_process_records records shard c) !! shard'
        = checkpoint_table c !! shard')
  /\ (ascending (map SequenceNumber records) ->
      (forall s, checkpoint_table c !! shard = Some s ->
                 Forall (seq_le s) (map SequenceNumber records)) ->
      forall before record after s s',
        records = before ++ record :: after ->
        checkpoint_table (fold_left (process_record shard) before c) !! shard
        = Some s ->
        checkpoint_table
          (process_record shard (fold_left (process_record shard) before c) record)
          !! shard = Some s' ->
        seq_le s s').
Proof.
  destruct (_process_records_events shard records c) as [He' Hc'].
  destruct (process_batch_spec shard records c)
    as (t & He & _ & _ & Hc & Ho & _ & _ & _ & Hin).
  split; [|split; [|split]].
  - exists t. rewrite He', Hc', He, Hc, <- app_assoc. auto.
  - intros s Hs. rewrite Hc', Hc, Hs. clear.
    revert s. induction t as [|e t IH]; intros s; simpl; [eauto|].
    destruct e as [| | |s1 [|]|]; apply IH.
  - intros shard' Hne. rewrite Hc'. apply Ho, Hne.
  - intros Hasc Hfrom before record after s s' -> Hs Hs'.
    destruct (process_batch_spec shard before c)
      as (tb & _ & _ & _ & Hcb & _ & _ & _ & _ & Hinb).
    rewrite Hcb in Hs.
    destruct (process_record_spec shard
                (fold_left (process_record shard) before c) record)
      as (t1 & _ & _ & _ & Hc1 & Hcases).
    rewrite Hc1 in Hs'.
    assert (Hrec : seq_le s (SequenceNumber record)).
    { destruct (Hinb _ _ Hs) as [H0|H0].
      - specialize (Hfrom s H0). rewrite map_app in Hfrom.
        apply Forall_app in Hfrom as [_ Hfrom].
        inversion Hfrom; assumption.
      - rewrite map_app in Hasc. clear - Hasc H0.
        induction before as [|b before IH]; simpl in *; [contradiction|].
        destruct Hasc as [Hb Hasc]. destruct H0 as [<-|H0].
        + apply Forall_app in Hb as [_ Hb]. inversion Hb; assumption.
        + apply IH; assumption. }
    destruct Hcases as [[-> _]|[[-> _]|[-> _]]]; simpl in Hs'.
    + rewrite Hcb, Hs in Hs'. inversion Hs'; subst. unfold seq_le. lia.
    + rewrite Hcb, Hs in Hs'. inversion Hs'; subst. unfold seq_le. lia.
    + rewrite lookup_insert_eq in Hs'. inversion Hs'; subst. exact Hrec.
Qed.

End ConsumerFacts.

Section ConsumerLoop.

Context {data_t handler_t : Type}
        (json_loads : list N -> option data_t)
        (processor : data_t -> handler_t -> bool * handler_t)
        (client_get_shard_iterator :
           list cevent -> string -> string -> iterator_type
           -> get_iterator_outcome)
        (client_get_records : list cevent -> string -> nat -> get_records_outcome)
        (stop_called : list cevent -> bool).

Local Abbreviation _process_records := (_process_records json_loads processor).
Local Abbreviation _get_shard_iterator :=
  (_get_shard_iterator (handler_t := handler_t) client_get_shard_iterator).
Local Abbreviation consume_loop :=
  (consume_loop json_loads processor client_get_shard_iterator
                client_get_records stop_called).
Local Abbreviation _consume_shard :=
  (_consume_shard json_loads processor client_get_shard_iterator
                  client_get_records stop_called).

(** With checkpoints that are not empty strings, the truth test of
    [_get_shard_iterator] is the test of presence. *)
Lemma iterator_request_position (c : KinesisConsumer handler_t) shard :
  checkpoint_nonempty c shard ->
  iterator_request c shard = position_for (checkpoint_table c !! shard).
Proof.
  unfold iterator_request, checkpoint_nonempty. intros H.
  destruct (checkpoint_table c !! shard) as [s|]; [|reflexivity].
  specialize (H s eq_refl). destruct s; [congruence|reflexivity].
Qed.

Lemma _get_shard_iterator_spec shard (c : KinesisConsumer handler_t) :
  exists answer,
    events (snd (_get_shard_iterator shard c))
    = events c ++ [CGetShardIterator shard (iterator_request c shard) answer]
    /\ checkpoint_table (snd (_get_shard_iterator shard c)) = checkpoint_table c
    /\ fst (_get_shard_iterator shard c)
       = match answer with
         | IteratorOk iterator => Ok iterator
         | IteratorFail e => Raise e
         end.
Proof.
  unfold Consumer._get_shard_iterator.
  destruct (client_get_shard_iterator _ _ _ _) as [it|e] eqn:E;
    eexists; simpl; rewrite ?E; eauto.
Qed.

Lemma process_records_step shard records (c : KinesisConsumer handler_t) :
  checkpoint_nonempty c shard ->
  Forall (fun r => SequenceNumber r <> EmptyString) records ->
  exists t,
    events (_process_records records shard c) = events c ++ t
    /\ positions_follow_checkpoint (checkpoint_table c !! shard) t
    /\ checkpoint_table (_process_records records shard c) !! shard
       = checkpoint_after (checkpoint_table c !! shard) t
    /\ checkpoint_nonempty (_process_records records shard c) shard.
Proof.
  intros Hne Hrec.
  destruct (process_batch_spec json_loads processor shard records c)
    as (t & He & _ & _ & Hc & _ & _ & _ & Hp & Hin).
  exists (t ++ [CLog "info" "records_processed" shard]).
  unfold Consumer._process_records. simpl.
  split; [rewrite He, app_assoc; reflexivity|].
  split; [apply positions_app; split; [apply Hp|simpl; exact I]|].
  split; [rewrite Hc, checkpoint_after_app; reflexivity|].
  intros s Hs. simpl in Hs. rewrite Hc in Hs.
  destruct (Hin _ _ Hs) as [H0|H0]; [exact (Hne _ H0)|].
  apply in_map_iff in H0 as (r & <- & Hr).
  rewrite Forall_forall in Hrec. apply Hrec.
  apply list_elem_of_In, Hr.
Qed.

Lemma positions_compose shard (c c4 : KinesisConsumer handler_t) t1
    (final : KinesisConsumer handler_t) :
  events c4 = events c ++ t1 ->
  positions_follow_checkpoint (checkpoint_table c !! shard) t1 ->
  checkpoint_table c4 !! shard
  = checkpoint_after (checkpoint_table c !! shard) t1 ->
  (exists t2, events final = events c4 ++ t2
              /\ positions_follow_checkpoint (checkpoint_table c4 !! shard) t2) ->
  exists t, events final = events c ++ t
            /\ positions_follow_checkpoint (checkpoint_table c !! shard) t.
Proof.
  intros He Hp Hc (t2 & He2 & Hp2). exists (t1 ++ t2).
  split; [rewrite He2, He, app_assoc; reflexivity|].
  apply positions_app. split; [exact Hp|]. rewrite <- Hc. exact Hp2.
Qed.

(** The loop: each position request it makes follows the checkpoint. *)
Lemma consume_loop_positions shard :
  sequence_numbers_nonempty client_get_records ->
  forall fuel iterator (c : KinesisConsumer handler_t),
    checkpoint_nonempty c shard ->
    exists t,
      events (snd (consume_loop fuel shard iterator c)) = events c ++ t
      /\ positions_follow_checkpoint (checkpoint_table c !! shard) t.
Proof.
  intros Hseq. induction fuel as [|fuel IH]; intros iterator c Hne.
  - exists []. simpl. rewrite app_nil_r. auto.
  - cbn [Consumer.consume_loop].
    set (c1 := poll_stop stop_called c).
    assert (He1 : events c1 = events c)
      by (unfold c1, poll_stop; destruct (stop_called _); reflexivity).
    assert (Hc1 : checkpoint_table c1 = checkpoint_table c)
      by (unfold c1, poll_stop; destruct (stop_called _); reflexivity).
    destruct (running c1 && iterator_truthy iterator).
    2:{ exists []. simpl. rewrite app_nil_r, He1. auto. }
    set (it := default EmptyString iterator).
    destruct (client_get_records (events c1) it 100) as [records next|e] eqn:Ea.
    + set (c2 := record_event (CGetRecords it 100 (RecordsOk records next)) c1).
      assert (Hne2 : checkpoint_nonempty c2 shard)
        by (intros s Hs; apply (Hne s); simpl in Hs; rewrite Hc1 in Hs; exact Hs).
      destruct records as [|r records].
      * apply (positions_compose shard c (record_event (CSleep 1) c2)
                 [CGetRecords it 100 (RecordsOk [] next); CSleep 1]).
        -- simpl. rewrite He1, <- app_assoc. reflexivity.
        -- simpl. exact I.
        -- simpl. rewrite Hc1. reflexivity.
        -- apply IH. exact Hne2.
      * destruct (process_records_step shard (r :: records) c2 Hne2
                    (Hseq _ _ _ _ _ Ea))
          as (tb & Heb & Hpb & Hcb & Hneb).
        apply (positions_compose shard c (_process_records (r :: records) shard c2)
                 (CGetRecords it 100 (RecordsOk (r :: records) next) :: tb)).
        -- rewrite Heb. simpl. rewrite He1, <- app_assoc. reflexivity.
        -- simpl. simpl in Hpb. rewrite Hc1 in Hpb. exact Hpb.
        -- rewrite Hcb. simpl. rewrite Hc1. reflexivity.
        -- apply IH. exact Hneb.
    + set (c2 := record_event (CGetRecords it 100 (RecordsFail e)) c1).
      assert (Hne2 : checkpoint_nonempty c2 shard)
        by (intros s Hs; apply (Hne s); simpl in Hs; rewrite Hc1 in Hs; exact Hs).
      assert (Hstop : exists t,
                 events c2 = events c ++ t
                 /\ positions_follow_checkpoint (checkpoint_table c !! shard) t).
      { exists [CGetRecords it 100 (RecordsFail e)].
        simpl. rewrite He1. auto. }
      destruct e as [errors| |code| |]; try exact Hstop.
      destruct (String.eqb code "ExpiredIteratorException").
      * destruct (_get_shard_iterator_spec shard c2) as (answer & He3 & Hc3 & Hr3).
        destruct (_get_shard_iterator shard c2) as [res c3].
        simpl in He3, Hc3, Hr3.
        assert (Hreq : iterator_request c2 shard
                       = position_for (checkpoint_table c !! shard)).
        { rewrite (iterator_request_position c2 shard Hne2). simpl.
          rewrite Hc1. reflexivity. }
        assert (Hc3' : checkpoint_table c3 !! shard = checkpoint_table c !! shard)
          by (rewrite Hc3; simpl; rewrite Hc1; reflexivity).
        assert (Hne3 : checkpoint_nonempty c3 shard)
          by (intros s Hs; apply (Hne s); rewrite <- Hc3'; exact Hs).
        destruct res as [iterator'|e'].
        -- apply (positions_compose shard c c3
                    [CGetRecords it 100
                       (RecordsFail (ClientError code));
                     CGetShardIterator shard
                       (position_for (checkpoint_table c !! shard)) answer]).
           ++ rewrite He3, Hreq. simpl. rewrite He1, <- app_assoc. reflexivity.
           ++ simpl. auto.
           ++ simpl. exact Hc3'.
           ++ apply IH. exact Hne3.
        -- exists [CGetRecords it 100 (RecordsFail (ClientError code));
                   CGetShardIterator shard
                     (position_for (checkpoint_table c !! shard)) answer].
           simpl. rewrite He3, Hreq. simpl. rewrite He1, <- app_assoc. auto.
      * apply (positions_compose shard c
                 (record_event (CSleep 5)
                    (record_event (CLog "error" "shard_consume_error" shard) c2))
                 [CGetRecords it 100 (RecordsFail (ClientError code));
                  CLog "error" "shard_consume_error" shard; CSleep 5]).
        -- simpl. rewrite He1, <- !app_assoc. reflexivity.
        -- simpl. exact I.
        -- simpl. rewrite Hc1. reflexivity.
        -- apply IH. intros s Hs. apply (Hne s). simpl in Hs.
           rewrite Hc1 in Hs. exact Hs.
Qed.

(** C7.  On a stream whose sequence numbers are not empty strings, and
    from a consumer whose checkpoint for the shard, if any, is not empty
    (none, for a new consumer): [_consume_shard] starts by asking for a
    position, and every position it asks for, at the start and after each
    expired iterator, is the one after the checkpoint of the shard as it is
    at that moment (the marker of the last record handled), and the newest
    record only while the shard has no checkpoint.  After an expired
    iterator the loop asks for a position again before it reads on. *)
Theorem position_is_derived_from_checkpoint
    shard fuel (c : KinesisConsumer handler_t) :
  sequence_numbers_nonempty client_get_records ->
  checkpoint_nonempty c shard ->
  (exists answer t,
     events (snd (_consume_shard fuel shard c))
     = events c
       ++ CGetShardIterator shard
            (position_for (checkpoint_table c !! shard)) answer :: t
     /\ positions_follow_checkpoint (checkpoint_table c !! shard) t)
  /\ (forall sequence_number,
        checkpoint_table c !! shard = Some sequence_number ->
        iterator_request c shard = AFTER_SEQUENCE_NUMBER sequence_number)
  /\ (checkpoint_table c !! shard = None -> iterator_request c shard = LATEST)
  /\ (forall iterator,
        running (poll_stop stop_called c) && iterator_truthy (Some iterator) = true ->
        client_get_records (events (poll_stop stop_called c)) iterator 100
        = RecordsFail (ClientError "ExpiredIteratorException") ->
        consume_loop (S fuel) shard (Some iterator) c
        = match _get_shard_iterator shard
                  (record_event
                     (CGetRecords iterator 100
                        (RecordsFail (ClientError "ExpiredIteratorException")))
                     (poll_stop stop_called c)) with
          | (Ok iterator', c') => consume_loop fuel shard (Some iterator') c'
          | (Raise e, c') => (Raised e, c')
          end).
Proof.
  intros Hseq Hne. split; [|split; [|split]].
  - unfold Consumer._consume_shard.
    destruct (_get_shard_iterator_spec shard c) as (answer & He & Hc & Hr).
    rewrite (iterator_request_position c shard Hne) in He.
    destruct (_get_shard_iterator shard c) as [res c1].
    simpl in He, Hc, Hr. exists answer.
    assert (Hne1 : checkpoint_nonempty c1 shard)
      by (intros s Hs; apply (Hne s); rewrite <- Hc; exact Hs).
    destruct res as [iterator|e].
    + destruct (consume_loop_positions shard Hseq fuel (Some iterator) c1 Hne1)
        as (t & Het & Hpt).
      exists t. rewrite Het, He, <- app_assoc. rewrite Hc in Hpt. auto.
    + exists []. simpl. rewrite He. auto.
  - intros s Hs. rewrite (iterator_request_position c shard Hne), Hs. reflexivity.
  - intros Hs. rewrite (iterator_request_position c shard Hne), Hs. reflexivity.
  - intros iterator Hrun Hans. cbn [Consumer.consume_loop].
    rewrite Hrun. cbn [default from_option id]. rewrite Hans. reflexivity.
Qed.

End ConsumerLoop.

Section ConsumerExamples.

Import ConsumerFixture.

(** C2, counterexample: a batch of one record on which the handler raises;
    the shard has no checkpoint afterwards. *)
Lemma poison_record_leaves_checkpoint : ~ poison_record_advances_checkpoint.
Proof.
  intros H.
  specialize (H loads counting shard consumer (bad "1") poison 1 eq_refl eq_refl).
  vm_compute in H. discriminate H.
Qed.

(** A poison record followed by a good one: both are handed to the
    handler, one error is logged, and the checkpoint is the marker of the
    good one. *)
Lemma poison_then_good_record :
  exists t,
    events (_process_records loads counting [bad "1"; good "2"] shard consumer)
    = events consumer ++ t ++ [CLog "info" "records_processed" shard]
    /\ map fst (handled t) = ["1"; "2"]
    /\ length (error_lines t) + length (List.filter snd (handled t)) = 2
    /\ checkpoint_table
         (_process_records loads counting [bad "1"; good "2"] shard consumer)
       !! shard
       = checkpoint_after None t.
Proof.
  exact (proj2 (proj2 (proj2 (handler_error_is_logged_and_batch_continues
                                loads counting shard [bad "1"; good "2"]
                                consumer)))).
Defined.

(** C8, counterexample: with the checkpoint at [2], a batch that holds the
    record [1] moves the checkpoint back to [1]. *)
Lemma stale_record_moves_checkpoint_back : ~ checkpoint_never_decreases.
Proof.
  intros H.
  specialize (H loads counting [good "1"] shard
                (_process_records loads counting [good "2"] shard consumer)
                "2" "1" eq_refl eq_refl).
  unfold seq_le in H. vm_compute in H. exact (H eq_refl).
Qed.

(** Records [1] and [2] in ascending order on a new shard: the checkpoint
    goes from [1] to [2]. *)
Lemma ascending_records_move_checkpoint_forward :
  checkpoint_table
    (fold_left (process_record loads counting shard) [good "1"] consumer)
  !! shard = Some "1"
  /\ checkpoint_table
       (process_record loads counting shard
          (fold_left (process_record loads counting shard) [good "1"] consumer)
          (good "2"))
     !! shard = Some "2"
  /\ seq_le "1" "2".
Proof.
  split; [vm_compute; reflexivity|]. split; [vm_compute; reflexivity|].
  refine (proj2 (proj2 (proj2 (checkpoint_is_last_handled_marker
                                 loads counting shard [good "1"; good "2"]
                                 consumer)))
            _ _ [good "1"] (good "2") [] "1" "2" eq_refl _ _).
  - simpl. repeat split; repeat constructor. unfold seq_le. vm_compute. discriminate.
  - intros s Hs. vm_compute in Hs. discriminate Hs.
  - vm_compute. reflexivity.
  - vm_compute. reflexivity.
Defined.

Lemma fixture_sequence_numbers : sequence_numbers_nonempty get_records.
Proof.
  intros history iterator limit records next H. unfold get_records in H.
  destruct (Nat.ltb _ _); inversion H; subst.
  repeat constructor. discriminate.
Qed.

Lemma resumed_checkpoint : checkpoint_nonempty resumed shard.
Proof. intros s Hs. vm_compute in Hs. inversion Hs. discriminate. Qed.

(** After a restart with checkpoint [5]: the loop asks for the position
    after [5], not for the newest record. *)
Lemma resumes_after_checkpoint :
  exists answer t,
    events (snd (_consume_shard loads counting get_shard_iterator get_records
                   never_stopped 3 shard resumed))
    = events resumed
      ++ CGetShardIterator shard (AFTER_SEQUENCE_NUMBER "5") answer :: t
    /\ positions_follow_checkpoint (Some "5") t.
Proof.
  exact (proj1 (position_is_derived_from_checkpoint
                  loads counting get_shard_iterator get_records never_stopped
                  shard 3 resumed fixture_sequence_numbers resumed_checkpoint)).
Defined.

End ConsumerExamples.

(** * Part II, continued: properties of the code around the pipeline *)

(** ** More on [process]: the cipher calls, the payload, the status cache *)

Section ProcessorDetails.

Import Event.

Context (cipher : nat -> string -> option string) (current_key_id : string)
        (utcnow : nat -> string) (redis_up : nat -> bool)
        (py_str : pyval -> string).

(** What a call of [encrypt_phi] answers and what it leaves alone. *)
Lemma encrypt_phi_full data w r w' :
  encrypt_phi cipher data w = (r, w') ->
  w' = add_enc_call data w
  /\ r = (if PyStr.truthy data
          then match cipher (length (enc_calls w)) data with
               | Some c => Ok c
               | None => Raise CipherError
               end
          else Ok data).
Proof.
  unfold encrypt_phi. intros H.
  destruct (PyStr.truthy data); simpl in H;
    [destruct (cipher _ _)|]; inversion H; auto.
Qed.

(** One turn of the loop of [_encrypt_payload]. *)
Lemma encrypt_field_full l field w r w' d :
  heap w !! l = Some (ODict d) ->
  encrypt_field cipher py_str l field w = (r, w') ->
  match dict_get d field with
  | None => w' = w /\ r = Ok tt
  | Some v =>
      match (if PyStr.truthy (py_str v)
             then cipher (length (enc_calls w)) (py_str v)
             else Some (py_str v)) with
      | Some c =>
          r = Ok tt
          /\ w' = set_heap (<[l := ODict (dict_set d field (VStr c))]> (heap w))
                           (add_enc_call (py_str v) w)
      | None => r = Raise CipherError /\ w' = add_enc_call (py_str v) w
      end
  end.
Proof.
  intros Hl H. unfold encrypt_field in H.
  rewrite (bind_Ok _ _ _ _ _ (read_dict_Some _ _ _ Hl)) in H.
  destruct (dict_get d field) as [v|] eqn:Hv.
  - apply bind_inv in H as [(c & w1 & Hc & H)|(e & Hc & H)];
      apply encrypt_phi_full in Hc as [Hw Hc].
    + subst w1.
      assert (Hl1 : heap (add_enc_call (py_str v) w) !! l = Some (ODict d))
        by exact Hl.
      rewrite (bind_Ok _ _ _ _ _ (read_dict_Some _ _ _ Hl1)) in H.
      unfold write_obj, modify in H. inversion H; subst w' r; clear H.
      destruct (PyStr.truthy (py_str v));
        [destruct (cipher _ _)|]; inversion Hc; subst; auto.
    + subst w' r.
      destruct (PyStr.truthy (py_str v));
        [destruct (cipher _ _)|]; inversion Hc; subst; auto.
  - apply mret_inv in H as [-> ->]. auto.
Qed.

Lemma values_of_ext fields d d1 :
  (forall f, In f fields -> dict_get d1 f = dict_get d f) ->
  values_of py_str fields d1 = values_of py_str fields d.
Proof.
  induction fields as [|x fields IH]; intros H; [reflexivity|].
  unfold values_of in *. simpl. rewrite (H x) by (left; reflexivity).
  f_equal. apply IH. intros f Hf. apply H. right. exact Hf.
Qed.

Lemma dict_mem_get d k v : dict_get d k = Some v -> dict_mem d k = true.
Proof. unfold dict_mem. intros ->. reflexivity. Qed.

(** The whole loop, when it does not raise: the copy keeps its keys and
    their order, a field outside the list keeps its value, a field of the
    list that is there holds the cipher's answer, and the cipher is asked
    once for each such field, in the order of the list. *)
Lemma for_each_encrypt_full l : forall fields, NoDup fields -> forall w w' d,
  heap w !! l = Some (ODict d) ->
  for_each (encrypt_field cipher py_str l) fields w = (Ok tt, w') ->
  exists d',
    heap w' = <[l := ODict d']> (heap w)
    /\ dict_keys d' = dict_keys d
    /\ (forall k, ~ In k fields -> dict_get d' k = dict_get d k)
    /\ (forall k v, In k fields -> dict_get d k = Some v ->
          exists c, dict_get d' k = Some (VStr c)
            /\ (if PyStr.truthy (py_str v)
                then exists n, cipher n (py_str v) = Some c
                else c = py_str v))
    /\ enc_calls w' = enc_calls w ++ values_of py_str fields d
    /\ clock_reads w' = clock_reads w
    /\ status_store w' = status_store w
    /\ trace w' = trace w.
Proof.
  induction fields as [|x fields IH]; intros Hnd w w' d Hl H.
  - apply mret_inv in H as [_ ->]. exists d.
    unfold values_of. simpl. rewrite app_nil_r.
    repeat split; auto.
    + symmetry. apply insert_id. exact Hl.
    + intros k v [].
  - apply NoDup_cons in Hnd as [Hx Hnd']. rewrite list_elem_of_In in Hx.
    simpl in H. apply bind_Ok_inv in H as ([] & w1 & H1 & H).
    pose proof (encrypt_field_full _ _ _ _ _ _ Hl H1) as Hf.
    destruct (dict_get d x) as [v|] eqn:Hv.
    + destruct (if PyStr.truthy (py_str v)
                then cipher (length (enc_calls w)) (py_str v)
                else Some (py_str v)) as [c|] eqn:Hc;
        [|destruct Hf as [Hf _]; discriminate Hf].
      destruct Hf as [_ ->].
      set (d1 := dict_set d x (VStr c)) in *.
      destruct (IH Hnd' _ _ d1 (lookup_insert_eq _ _ _) H)
        as (d' & Hh & Hk & Hout & Hin & He & Hcl & Hst & Htr).
      exists d'. simpl in *.
      split; [rewrite Hh; apply insert_insert_eq|].
      split; [rewrite Hk; apply dict_keys_set, (dict_mem_get _ _ _ Hv)|].
      split.
      { intros k Hk'.
        rewrite Hout by (intros Hi; apply Hk'; right; exact Hi).
        apply dict_get_set_ne. intros ->. apply Hk'. left. reflexivity. }
      split.
      { intros k v' [->|Hk'] Hv'.
        - rewrite Hv in Hv'. inversion Hv'; subst v'.
          exists c. split.
          + rewrite (Hout _ Hx). apply dict_get_set_eq.
          + destruct (PyStr.truthy (py_str v)); [eauto|congruence].
        - apply Hin; [exact Hk'|].
          unfold d1. rewrite dict_get_set_ne; [exact Hv'|].
          intros ->. tauto. }
      split; [|auto].
      rewrite He, <- app_assoc. f_equal.
      unfold values_of at 2. simpl. rewrite Hv. simpl. f_equal.
      apply values_of_ext. intros f Hf.
      apply dict_get_set_ne. intros ->. tauto.
    + destruct Hf as [-> _].
      destruct (IH Hnd' _ _ d Hl H)
        as (d' & Hh & Hk & Hout & Hin & He & Hcl & Hst & Htr).
      exists d'. repeat split; auto.
      * intros k Hk'. apply Hout. intros Hi. apply Hk'. right. exact Hi.
      * intros k v' [->|Hk'] Hv'; [congruence|]. apply Hin; assumption.
      * rewrite He. unfold values_of at 2. simpl. rewrite Hv. reflexivity.
Qed.

(** Whatever the loop does, it leaves the clock, the status cache and the
    trace alone, and what it raises comes from the cipher. *)
Lemma for_each_encrypt_frame l : forall fields w r w' d,
  heap w !! l = Some (ODict d) ->
  for_each (encrypt_field cipher py_str l) fields w = (r, w') ->
  clock_reads w' = clock_reads w
  /\ status_store w' = status_store w
  /\ trace w' = trace w
  /\ (r = Ok tt
      \/ r = Raise CipherError /\ exists n s, cipher n s = None).
Proof.
  induction fields as [|x fields IH]; intros w r w' d Hl H.
  - apply mret_inv in H as [-> ->]. auto.
  - simpl in H. apply bind_inv in H as [([] & w1 & H1 & H)|(e & H1 & H)];
      pose proof (encrypt_field_full _ _ _ _ _ _ Hl H1) as Hf;
      destruct (dict_get d x) as [v|];
      try destruct (if PyStr.truthy (py_str v)
                    then cipher (length (enc_calls w)) (py_str v)
                    else Some (py_str v)) as [c|] eqn:Hc.
    + destruct Hf as [_ ->].
      destruct (IH _ _ _ _ (lookup_insert_eq _ _ _) H) as (? & ? & ? & ?).
      simpl in *. auto.
    + destruct Hf as [Hf _]. discriminate Hf.
    + destruct Hf as [-> _]. eapply IH; eassumption.
    + destruct Hf as [Hf _]. discriminate Hf.
    + destruct Hf as [Hf ->]. inversion Hf; subst. simpl.
      repeat split; auto. right. split; [reflexivity|].
      destruct (PyStr.truthy (py_str v)); [eauto|discriminate Hc].
    + destruct Hf as [_ Hf]. discriminate Hf.
Qed.

Lemma sensitive_fields_NoDup : NoDup sensitive_fields.
Proof. compute_done. Qed.

Lemma alloc_full o w r w' :
  alloc o w = (r, w') ->
  exists l, r = Ok l /\ heap w !! l = None
            /\ w' = set_heap (<[l := o]> (heap w)) w.
Proof.
  unfold alloc. intros H. inversion H; subst; clear H.
  exists (fresh (dom (heap w))). repeat split.
  apply not_elem_of_dom. apply is_fresh.
Qed.

(** [_encrypt_payload], step by step. *)
Lemma _encrypt_payload_full p w r w' d :
  heap w !! p = Some (ODict d) ->
  _encrypt_payload cipher py_str p w = (r, w') ->
  clock_reads w' = clock_reads w
  /\ status_store w' = status_store w
  /\ trace w' = trace w
  /\ match r with
     | Raise ex => ex = CipherError /\ exists n s, cipher n s = None
     | Ok l =>
         exists d',
           heap w !! l = None
           /\ heap w' = <[l := ODict d']> (heap w)
           /\ dict_keys d' = dict_keys d
           /\ (forall k, ~ In k sensitive_fields -> dict_get d' k = dict_get d k)
           /\ (forall k v, In k sensitive_fields -> dict_get d k = Some v ->
                 exists c, dict_get d' k = Some (VStr c)
                   /\ (if PyStr.truthy (py_str v)
                       then exists n, cipher n (py_str v) = Some c
                       else c = py_str v))
           /\ enc_calls w' = enc_calls w ++ sensitive_values py_str d
     end.
Proof.
  intros Hp H. unfold _encrypt_payload in H.
  rewrite (bind_Ok _ _ _ _ _ (read_dict_Some _ _ _ Hp)) in H.
  apply bind_inv in H as [(l & w1 & H1 & H)|(e & H1 & H)];
    apply alloc_full in H1 as (l0 & Hr & Hfresh & Hw1);
    [|discriminate Hr].
  inversion Hr; subst l0; clear Hr.
  assert (Hl1 : heap w1 !! l = Some (ODict d))
    by (subst w1; apply lookup_insert_eq).
  apply bind_inv in H as [([] & w2 & H2 & H)|(e & H2 & H)].
  - apply mret_inv in H as [-> ->].
    destruct (for_each_encrypt_full l _ sensitive_fields_NoDup _ _ _ Hl1 H2)
      as (d' & Hh & Hk & Hout & Hin & He & Hcl & Hst & Htr).
    subst w1. simpl in *.
    repeat split; auto.
    exists d'. repeat split; auto.
    rewrite Hh. apply insert_insert_eq.
  - destruct (for_each_encrypt_frame l _ _ _ _ _ Hl1 H2)
      as (Hcl & Hst & Htr & [Hr|[Hr Hn]]); [discriminate Hr|].
    subst w1 r. inversion Hr; subst e. simpl in *. auto.
Qed.

(** [process], step by step, on an event [e] at [ev] whose payload
    dictionary is [d]. *)
Lemma process_full ev w r w' e d :
  heap w !! ev = Some (OEvent e) ->
  heap w !! payload e = Some (ODict d) ->
  process cipher current_key_id utcnow redis_up py_str ev w = (r, w') ->
  trace w' = trace w
  /\ match r with
     | Raise ex =>
         status_store w' = status_store w
         /\ (ex = CipherError /\ (exists n s, cipher n s = None)
             \/ exists c,
                  (if PyStr.truthy (patient_id e)
                   then cipher (length (enc_calls w)) (patient_id e) = Some c
                   else c = patient_id e)
                  /\ validation_errors (provider_id e) c <> []
                  /\ ex = ValidationError (validation_errors (provider_id e) c))
     | Ok pe =>
         exists c d',
           pe = {| base := {|
                     event_id := event_id e;
                     event_type := event_type e;
                     timestamp := timestamp e;
                     provider_id := provider_id e;
                     patient_id := c;
                     facility_id := facility_id e;
                     department := department e;
                     payload := payload (base pe);
                     metadata := metadata e |};
                   processed_at := utcnow (clock_reads w);
                   encryption_key_id := Some current_key_id;
                   checksum := Some (event_checksum e d);
                   partition_key :=
                     Some (provider_id e +:+ ":"
                           +:+ EventType_value (event_type e)) |}
           /\ (if PyStr.truthy (patient_id e)
               then cipher (length (enc_calls w)) (patient_id e) = Some c
               else c = patient_id e)
           /\ validation_errors (provider_id e) c = []
           /\ heap w' !! payload (base pe) = Some (ODict d')
           /\ dict_keys d' = dict_keys d
           /\ (forall k, ~ In k sensitive_fields -> dict_get d' k = dict_get d k)
           /\ (forall k v, In k sensitive_fields -> dict_get d k = Some v ->
                 exists c', dict_get d' k = Some (VStr c')
                   /\ (if PyStr.truthy (py_str v)
                       then exists n, cipher n (py_str v) = Some c'
                       else c' = py_str v))
           /\ enc_calls w'
              = enc_calls w ++ patient_id e :: sensitive_values py_str d
           /\ clock_reads w' = clock_reads w + 2
           /\ status_store w'
              = (if redis_up (clock_reads w + 2)
                 then <[status_key (event_id e)
                        := ("processed", utcnow (clock_reads w + 1), 3600)]>
                        (status_store w)
                 else status_store w)
     end.
Proof.
  intros He Hd H. unfold process in H.
  rewrite (bind_Ok _ _ _ _ _ (read_event_Some _ _ _ He)) in H.
  apply bind_inv in H as [(c & w0 & H0 & H)|(ex & H0 & H)];
    apply encrypt_phi_full in H0 as [Hw0 Hc].
  2:{ subst w' r. simpl. split; [reflexivity|]. split; [reflexivity|]. left.
      destruct (PyStr.truthy (patient_id e)); [|discriminate Hc].
      destruct (cipher _ _) eqn:Hn; inversion Hc. eauto. }
  assert (Hc' : if PyStr.truthy (patient_id e)
                then cipher (length (enc_calls w)) (patient_id e) = Some c
                else c = patient_id e).
  { destruct (PyStr.truthy (patient_id e));
      [destruct (cipher _ _)|]; inversion Hc; reflexivity. }
  clear Hc.
  assert (He0 : heap w0 !! ev = Some (OEvent e)) by (subst w0; exact He).
  assert (Hd0 : heap w0 !! payload e = Some (ODict d)) by (subst w0; exact Hd).
  rewrite (bind_Ok _ _ _ _ _ (read_event_Some _ _ _ He0)) in H.
  apply bind_inv in H as [(l & w1 & H1 & H)|(ex & H1 & H)];
    destruct (_encrypt_payload_full _ _ _ _ _ Hd0 H1)
      as (Hcl1 & Hst1 & Htr1 & Hr1).
  2:{ destruct Hr1 as [-> Hn]. subst r w0. simpl in *. auto. }
  destruct Hr1 as (d' & Hfresh & Hh1 & Hk & Hout & Hin & Henc1).
  assert (Hne1 : ev <> l) by (intros ->; congruence).
  assert (Hne2 : payload e <> l) by (intros E; rewrite E in Hd0; congruence).
  assert (He1 : heap w1 !! ev = Some (OEvent e))
    by (rewrite Hh1, lookup_insert_ne by auto; exact He0).
  assert (Hd1 : heap w1 !! payload e = Some (ODict d))
    by (rewrite Hh1, lookup_insert_ne by auto; exact Hd0).
  assert (Hl1 : heap w1 !! l = Some (ODict d'))
    by (rewrite Hh1; apply lookup_insert_eq).
  rewrite (bind_Ok _ _ _ _ _ (_generate_checksum_eval _ _ _ _ He1 Hd1)) in H.
  rewrite (bind_Ok _ _ _ _ _ (_generate_partition_key_eval _ _ _ He1)) in H.
  rewrite (bind_Ok _ _ _ _ _ (read_event_Some _ _ _ He1)) in H.
  rewrite (bind_Ok _ _ _ _ _ (datetime_utcnow_eval utcnow w1)) in H.
  unfold ProcessedEvent_new in H.
  destruct (validation_errors (provider_id e) c) as [|err errs] eqn:Hv.
  2:{ unfold raise in H. simpl in H. inversion H; subst r w'. subst w0.
      simpl in *. split; [exact Htr1|]. split; [exact Hst1|].
      right. exists c. rewrite Hv. repeat split; auto; discriminate. }
  assert (Hl2 : heap (tick w1) !! l = Some (ODict d')) by exact Hl1.
  rewrite (bind_Ok _ _ _ _ _
             (bind_Ok _ _ _ _ _ (read_dict_Some _ _ _ Hl2))) in H.
  set (p := fresh (dom (heap (tick w1)))) in H.
  assert (Hp : heap w1 !! p = None)
    by (apply (not_elem_of_dom (heap w1)), (is_fresh (dom (heap w1)))).
  set (w3 := set_heap (<[p := ODict d']> (heap (tick w1))) (tick w1)) in H.
  assert (He3 : heap w3 !! ev = Some (OEvent e)).
  { unfold w3. simpl. rewrite lookup_insert_ne; [exact He1|].
    intros ->. congruence. }
  rewrite (bind_Ok _ _ _ _ _ (read_event_Some _ _ _ He3)) in H.
  rewrite (bind_Ok _ _ _ _ _ (datetime_utcnow_eval utcnow w3)) in H.
  assert (Hclock : clock_reads w1 = clock_reads w)
    by (rewrite Hcl1; subst w0; reflexivity).
  assert (Hstore : status_store w1 = status_store w)
    by (rewrite Hst1; subst w0; reflexivity).
  assert (Hcalls : enc_calls w1
                   = enc_calls w ++ patient_id e :: sensitive_values py_str d).
  { rewrite Henc1. subst w0. simpl. rewrite <- app_assoc. reflexivity. }
  assert (Htrace : trace w1 = trace w) by (rewrite Htr1; subst w0; reflexivity).
  unfold cache_set in H. unfold mbind, M_bind, mret, M_ret in H. simpl in H.
  rewrite Hclock in H.
  replace (S (S (clock_reads w))) with (clock_reads w + 2) in H by lia.
  replace (S (clock_reads w)) with (clock_reads w + 1) in H by lia.
  destruct (redis_up (clock_reads w + 2)) eqn:Hup;
    inversion H; subst r w'; clear H; simpl;
    (split; [exact Htrace|]); exists c, d'; simpl;
    rewrite ?Hclock, ?Hstore, ?lookup_insert_eq;
    repeat split; auto; lia.
Qed.

(** The key identifier goes into the record and nowhere else. *)
Lemma process_with_another_key key ev w pe w' :
  process cipher current_key_id utcnow redis_up py_str ev w = (Ok pe, w') ->
  encryption_key_id pe = Some current_key_id
  /\ process cipher key utcnow redis_up py_str ev w
     = (Ok {| base := base pe;
              processed_at := processed_at pe;
              encryption_key_id := Some key;
              checksum := checksum pe;
              partition_key := partition_key pe |}, w').
Proof.
  intros H. unfold process in *.
  do 8 (let Hs := fresh "Hs" in
        apply bind_Ok_inv in H as (? & ? & Hs & H);
        rewrite (bind_Ok _ _ _ _ _ Hs); clear Hs).
  apply bind_Ok_inv in H as (p & w7 & Hp & H).
  unfold ProcessedEvent_new in Hp.
  match type of Hp with
  | context [validation_errors ?a ?b] =>
      destruct (validation_errors a b) eqn:Hv; [|discriminate Hp]
  end.
  apply bind_Ok_inv in Hp as (d & wa & Hd & Hp).
  apply bind_Ok_inv in Hp as (q & wb & Hq & Hp).
  apply mret_inv in Hp as [Hpe Hw7]. inversion Hpe; subst p; clear Hpe.
  match type of Hd with
  | read_dict _ ?w6 = _ =>
  match goal with
  | |- context [ProcessedEvent_new ?e ?c ?l ?now key ?cs ?pk] =>
      assert (Hnew : ProcessedEvent_new e c l now key cs pk w6
                     = (Ok {| base := {| event_id := event_id e;
                                         event_type := event_type e;
                                         timestamp := timestamp e;
                                         provider_id := provider_id e;
                                         patient_id := c;
                                         facility_id := facility_id e;
                                         department := department e;
                                         payload := q;
                                         metadata := metadata e |};
                              processed_at := now;
                              encryption_key_id := Some key;
                              checksum := Some cs;
                              partition_key := Some pk |}, w7))
  end end.
  { unfold ProcessedEvent_new. rewrite Hv.
    rewrite (bind_Ok _ _ _ _ _ Hd), (bind_Ok _ _ _ _ _ Hq), Hw7.
    reflexivity. }
  rewrite (bind_Ok _ _ _ _ _ Hnew). clear Hnew.
  do 3 (let Hs := fresh "Hs" in
        apply bind_Ok_inv in H as (? & ? & Hs & H);
        rewrite (bind_Ok _ _ _ _ _ Hs); clear Hs).
  apply mret_inv in H as [Hpe ->]. inversion Hpe; subst pe; clear Hpe.
  split; reflexivity.
Qed.

(** X1.  The payload of a processed record has the keys of the input
    payload in the same order.  A value under a key outside the list of
    sensitive fields is the input's value, nested values included; a value
    under a sensitive key is a string: what the cipher answered for
    [str(value)], or the empty string when [str(value)] is empty. *)
Theorem payload_keeps_keys_and_hides_sensitive_values ev w pe w' e d :
  heap w !! ev = Some (OEvent e) ->
  heap w !! payload e = Some (ODict d) ->
  process cipher current_key_id utcnow redis_up py_str ev w = (Ok pe, w') ->
  exists d',
    heap w' !! payload (base pe) = Some (ODict d')
    /\ dict_keys d' = dict_keys d
    /\ (forall k, ~ In k sensitive_fields -> dict_get d' k = dict_get d k)
    /\ (forall k v, In k sensitive_fields -> dict_get d k = Some v ->
          exists c, dict_get d' k = Some (VStr c)
            /\ (if PyStr.truthy (py_str v)
                then exists n, cipher n (py_str v) = Some c
                else c = EmptyString)).
Proof.
  intros He Hd H.
  destruct (process_full _ _ _ _ _ _ He Hd H)
    as (_ & c & d' & _ & _ & _ & Hp & Hk & Hout & Hin & _).
  exists d'. repeat split; auto.
  intros k v Hk' Hv. destruct (Hin k v Hk' Hv) as (c' & Hc' & Hrel).
  exists c'. split; [exact Hc'|].
  destruct (py_str v); simpl in *; auto.
Qed.

(** X2.  When [process] returns, it has asked the cipher for the patient
    identifier first and then for [str(value)] of each sensitive field
    the payload holds, in the order of the list of [_encrypt_payload],
    and for nothing else: one call with a payload that holds none of
    them, nine at most. *)
Theorem cipher_is_asked_for_identifier_then_fields ev w pe w' e d :
  heap w !! ev = Some (OEvent e) ->
  heap w !! payload e = Some (ODict d) ->
  process cipher current_key_id utcnow redis_up py_str ev w = (Ok pe, w') ->
  enc_calls w' = enc_calls w ++ patient_id e :: sensitive_values py_str d
  /\ length (sensitive_values py_str d) <= 8
  /\ ((forall k, In k sensitive_fields -> dict_get d k = None) ->
      enc_calls w' = enc_calls w ++ [patient_id e]).
Proof.
  intros He Hd H.
  destruct (process_full _ _ _ _ _ _ He Hd H)
    as (_ & c & d' & _ & _ & _ & _ & _ & _ & _ & Hcalls & _).
  split; [exact Hcalls|]. split.
  - unfold sensitive_values, values_of, sensitive_fields. simpl.
    repeat match goal with
           | |- context [dict_get d ?k] => destruct (dict_get d k)
           end; simpl; lia.
  - intros Hnone. rewrite Hcalls. do 2 f_equal.
    unfold sensitive_values, values_of.
    assert (Hall : forall fields,
               (forall k, In k fields -> dict_get d k = None) ->
               flat_map
                 (fun field =>
                    match dict_get d field with
                    | Some v => [py_str v]
                    | None => []
                    end) fields = []).
    { induction fields as [|x fields IH]; intros Hf; [reflexivity|].
      simpl. rewrite (Hf x) by (left; reflexivity). simpl.
      apply IH. intros k Hk. apply Hf. right. exact Hk. }
    apply Hall, Hnone.
Qed.

(** X3.  A record that [process] returns carries as [processed_at] the
    clock's reading at its construction and the key identifier of the
    encryption service.  The status of the event is cached under
    [event:<event_id>:status] with the next reading of the clock and a
    lifetime of 3600 seconds when Redis answers, and nowhere when it does
    not: the record is returned all the same.  When [process] raises,
    nothing is cached. *)
Theorem status_is_cached_when_process_returns ev w r w' e d :
  heap w !! ev = Some (OEvent e) ->
  heap w !! payload e = Some (ODict d) ->
  process cipher current_key_id utcnow redis_up py_str ev w = (r, w') ->
  match r with
  | Ok pe =>
      processed_at pe = utcnow (clock_reads w)
      /\ encryption_key_id pe = Some current_key_id
      /\ clock_reads w' = clock_reads w + 2
      /\ status_store w'
         = (if redis_up (clock_reads w + 2)
            then <[status_key (event_id e)
                   := ("processed", utcnow (clock_reads w + 1), 3600)]>
                   (status_store w)
            else status_store w)
  | Raise _ => status_store w' = status_store w
  end.
Proof.
  intros He Hd H.
  destruct (process_full _ _ _ _ _ _ He Hd H) as (_ & Hr).
  destruct r as [pe|ex].
  - destruct Hr as (c & d' & Hpe & _ & _ & _ & _ & _ & _ & _ & Hcl & Hst).
    rewrite Hpe. simpl. auto.
  - apply Hr.
Qed.

(** X4.  [process] returns a record for an event with a valid provider
    identifier and a patient identifier that is not empty, when the cipher
    answers every call and its answers pass the constraints of
    [patient_id]: not blank, 100 characters at most.  The record carries
    the cipher's answer as its patient identifier and the other inherited
    fields of the input. *)
Theorem process_returns_when_cipher_answers ev w e d :
  heap w !! ev = Some (OEvent e) ->
  heap w !! payload e = Some (ODict d) ->
  validate_provider_id (provider_id e) = [] ->
  patient_id e <> EmptyString ->
  (forall n s, cipher n s <> None) ->
  (forall n s c, cipher n s = Some c -> validate_patient_id c = []) ->
  exists pe w',
    process cipher current_key_id utcnow redis_up py_str ev w = (Ok pe, w')
    /\ cipher (length (enc_calls w)) (patient_id e)
       = Some (patient_id (base pe))
    /\ event_id (base pe) = event_id e
    /\ event_type (base pe) = event_type e
    /\ timestamp (base pe) = timestamp e
    /\ provider_id (base pe) = provider_id e
    /\ facility_id (base pe) = facility_id e
    /\ department (base pe) = department e
    /\ metadata (base pe) = metadata e.
Proof.
  intros He Hd Hprov Hid Hserve Hvalid.
  destruct (process cipher current_key_id utcnow redis_up py_str ev w)
    as [r w'] eqn:H.
  destruct (process_full _ _ _ _ _ _ He Hd H) as (_ & Hr).
  assert (Ht : PyStr.truthy (patient_id e) = true)
    by (destruct (patient_id e); [congruence|reflexivity]).
  rewrite Ht in Hr.
  destruct r as [pe|ex].
  - destruct Hr as (c & d' & Hpe & Hc & _).
    exists pe, w'. rewrite Hpe. simpl. repeat split; auto.
  - exfalso. destruct Hr as (_ & [[_ (n & s & Hn)]|(c & Hc & Hv & _)]).
    + exact (Hserve n s Hn).
    + apply Hv. unfold validation_errors.
      rewrite Hprov, (Hvalid _ _ _ Hc). reflexivity.
Qed.

(** X5.  [process] raises only what the cipher raised, or the validation
    error of a record whose encrypted patient identifier does not pass the
    constraints inherited from [HealthcareEvent].  In both cases it has
    called neither the stream nor the cache: the calls of the trace and
    the status cache are as before. *)
Theorem process_raises_cipher_or_validation_error ev w ex w' e d :
  heap w !! ev = Some (OEvent e) ->
  heap w !! payload e = Some (ODict d) ->
  process cipher current_key_id utcnow redis_up py_str ev w = (Raise ex, w') ->
  calls (trace w') = calls (trace w)
  /\ status_store w' = status_store w
  /\ (ex = CipherError /\ (exists n s, cipher n s = None)
      \/ exists c,
           (if PyStr.truthy (patient_id e)
            then cipher (length (enc_calls w)) (patient_id e) = Some c
            else c = patient_id e)
           /\ validation_errors (provider_id e) c <> []
           /\ ex = ValidationError (validation_errors (provider_id e) c)).
Proof.
  intros He Hd H.
  destruct (process_full _ _ _ _ _ _ He Hd H) as (Ht & Hs & Hex).
  rewrite Ht. auto.
Qed.

End ProcessorDetails.

Lemma sample_event_in_heap :
  heap Fixture.sample_world !! Fixture.sample_loc = Some (OEvent Sample.event)
  /\ heap Fixture.sample_world !! Event.payload Sample.event
     = Some (ODict Sample.payload_dict).
Proof. split; vm_compute; reflexivity. Qed.

Ltac exists_outcome t :=
  let r := eval vm_compute in t in
  match r with
  | (Ok ?a, ?w) => exists a, w
  | (Raise ?e, ?w) => exists e, w
  end.

Lemma sample_payload_after_processing :
  exists pe w',
    process Fixture.mock_cipher "test-key" Fixture.mock_utcnow
            Fixture.mock_redis Fixture.mock_str
            Fixture.sample_loc Fixture.sample_world = (Ok pe, w')
    /\ exists d',
         heap w' !! Event.payload (Event.base pe) = Some (ODict d')
         /\ Event.dict_keys d' = ["visit_type"; "duration_minutes"; "diagnosis_code"]
         /\ (forall k, ~ In k sensitive_fields ->
               Event.dict_get d' k = Event.dict_get Sample.payload_dict k)
         /\ (forall k v, In k sensitive_fields ->
               Event.dict_get Sample.payload_dict k = Some v ->
               exists c, Event.dict_get d' k = Some (Event.VStr c)
                 /\ (if PyStr.truthy (Fixture.mock_str v)
                     then exists n,
                         Fixture.mock_cipher n (Fixture.mock_str v) = Some c
                     else c = EmptyString)).
Proof.
  exists_outcome
    (process Fixture.mock_cipher "test-key" Fixture.mock_utcnow
             Fixture.mock_redis Fixture.mock_str
             Fixture.sample_loc Fixture.sample_world).
  assert (Hp : process Fixture.mock_cipher "test-key" Fixture.mock_utcnow
                 Fixture.mock_redis Fixture.mock_str
                 Fixture.sample_loc Fixture.sample_world = (Ok _, _))
    by (vm_compute; reflexivity).
  split; [exact Hp|].
  exact (payload_keeps_keys_and_hides_sensitive_values _ _ _ _ _ _ _ _ _ _ _
           (proj1 sample_event_in_heap) (proj2 sample_event_in_heap) Hp).
Defined.

Lemma sample_cipher_calls :
  exists pe w',
    process Fixture.mock_cipher "test-key" Fixture.mock_utcnow
            Fixture.mock_redis Fixture.mock_str
            Fixture.sample_loc Fixture.sample_world = (Ok pe, w')
    /\ (enc_calls w'
        = enc_calls Fixture.sample_world
          ++ "PAT-12345" :: sensitive_values Fixture.mock_str Sample.payload_dict
        /\ length (sensitive_values Fixture.mock_str Sample.payload_dict) <= 8
        /\ ((forall k, In k sensitive_fields ->
               Event.dict_get Sample.payload_dict k = None) ->
            enc_calls w' = enc_calls Fixture.sample_world ++ ["PAT-12345"])).
Proof.
  exists_outcome
    (process Fixture.mock_cipher "test-key" Fixture.mock_utcnow
             Fixture.mock_redis Fixture.mock_str
             Fixture.sample_loc Fixture.sample_world).
  assert (Hp : process Fixture.mock_cipher "test-key" Fixture.mock_utcnow
                 Fixture.mock_redis Fixture.mock_str
                 Fixture.sample_loc Fixture.sample_world = (Ok _, _))
    by (vm_compute; reflexivity).
  split; [exact Hp|].
  exact (cipher_is_asked_for_identifier_then_fields _ _ _ _ _ _ _ _ _ _ _
           (proj1 sample_event_in_heap) (proj2 sample_event_in_heap) Hp).
Defined.

Lemma sample_status_is_cached :
  exists pe w',
    process Fixture.mock_cipher "test-key" Fixture.mock_utcnow
            Fixture.mock_redis Fixture.mock_str
            Fixture.sample_loc Fixture.sample_world = (Ok pe, w')
    /\ Event.processed_at pe = "2024-01-15T10:30:01"
    /\ Event.encryption_key_id pe = Some "test-key"
    /\ clock_reads w' = 2
    /\ status_store w'
       = <["event:7c9e6679-7425-40de-944b-e07fc1f90ae7:status"
           := ("processed", "2024-01-15T10:30:01", 3600)]> ∅.
Proof.
  exists_outcome
    (process Fixture.mock_cipher "test-key" Fixture.mock_utcnow
             Fixture.mock_redis Fixture.mock_str
             Fixture.sample_loc Fixture.sample_world).
  assert (Hp : process Fixture.mock_cipher "test-key" Fixture.mock_utcnow
                 Fixture.mock_redis Fixture.mock_str
                 Fixture.sample_loc Fixture.sample_world = (Ok _, _))
    by (vm_compute; reflexivity).
  split; [exact Hp|].
  exact (status_is_cached_when_process_returns _ _ _ _ _ _ _ _ _ _ _
           (proj1 sample_event_in_heap) (proj2 sample_event_in_heap) Hp).
Defined.

Lemma sample_event_is_processed :
  exists pe w',
    process Fixture.mock_cipher "test-key" Fixture.mock_utcnow
            Fixture.mock_redis Fixture.mock_str
            Fixture.sample_loc Fixture.sample_world = (Ok pe, w')
    /\ Fixture.mock_cipher (length (enc_calls Fixture.sample_world)) "PAT-12345"
       = Some (Event.patient_id (Event.base pe))
    /\ Event.event_id (Event.base pe) = Event.event_id Sample.event
    /\ Event.event_type (Event.base pe) = Event.event_type Sample.event
    /\ Event.timestamp (Event.base pe) = Event.timestamp Sample.event
    /\ Event.provider_id (Event.base pe) = Event.provider_id Sample.event
    /\ Event.facility_id (Event.base pe) = Event.facility_id Sample.event
    /\ Event.department (Event.base pe) = Event.department Sample.event
    /\ Event.metadata (Event.base pe) = Event.metadata Sample.event.
Proof.
  apply (process_returns_when_cipher_answers
           Fixture.mock_cipher "test-key" Fixture.mock_utcnow
           Fixture.mock_redis Fixture.mock_str
           Fixture.sample_loc Fixture.sample_world
           Sample.event Sample.payload_dict).
  - vm_compute. reflexivity.
  - vm_compute. reflexivity.
  - reflexivity.
  - discriminate.
  - discriminate.
  - intros n s c H. inversion H. reflexivity.
Defined.

Lemma failing_cipher_fails_processing :
  exists ex w',
    process Sample.refusing_cipher "test-key" Fixture.mock_utcnow
            Fixture.mock_redis Fixture.mock_str
            Fixture.sample_loc Fixture.sample_world = (Raise ex, w')
    /\ calls (trace w') = calls (trace Fixture.sample_world)
    /\ status_store w' = status_store Fixture.sample_world
    /\ (ex = CipherError /\ (exists n s, Sample.refusing_cipher n s = None)
        \/ exists c,
             (if PyStr.truthy (Event.patient_id Sample.event)
              then Sample.refusing_cipher
                     (length (enc_calls Fixture.sample_world))
                     (Event.patient_id Sample.event) = Some c
              else c = Event.patient_id Sample.event)
             /\ Event.validation_errors (Event.provider_id Sample.event) c <> []
             /\ ex = ValidationError
                       (Event.validation_errors
                          (Event.provider_id Sample.event) c)).
Proof.
  exists_outcome
    (process Sample.refusing_cipher "test-key" Fixture.mock_utcnow
             Fixture.mock_redis Fixture.mock_str
             Fixture.sample_loc Fixture.sample_world).
  assert (Hp : process Sample.refusing_cipher "test-key" Fixture.mock_utcnow
                 Fixture.mock_redis Fixture.mock_str
                 Fixture.sample_loc Fixture.sample_world = (Raise _, _))
    by (vm_compute; reflexivity).
  split; [exact Hp|].
  exact (process_raises_cipher_or_validation_error _ _ _ _ _ _ _ _ _ _ _
           (proj1 sample_event_in_heap) (proj2 sample_event_in_heap) Hp).
Defined.

(** ** The codecs of the encryption service *)

Section Codecs.

Local Open Scope N_scope.

Lemma below_256 (p : N -> bool) :
  forallb p (map N.of_nat (seq 0 256)) = true ->
  forall a, a < 256 -> p a = true.
Proof.
  intros H a Ha. rewrite forallb_forall in H. apply H.
  rewrite <- (N2Nat.id a). apply in_map. apply in_seq. lia.
Qed.

Lemma pairs_below_256 (p : N -> N -> bool) :
  forallb (fun a => forallb (p a) (map N.of_nat (seq 0 256)))
          (map N.of_nat (seq 0 256)) = true ->
  forall a b, a < 256 -> b < 256 -> p a b = true.
Proof.
  intros H a b Ha Hb.
  apply (below_256 (p a)); [|exact Hb].
  exact (below_256 (fun a => forallb (p a) (map N.of_nat (seq 0 256))) H a Ha).
Qed.

(** A six-bit value is read back from its character, which is an ASCII
    character and not the pad character. *)
Lemma char_of_value s :
  s < 64 ->
  Base64.value_of (Base64.char_of s) = Some s
  /\ (Base64.char_of s =? Base64.pad_char) = false
  /\ Base64.char_of s < 128.
Proof.
  intros Hs.
  assert (H : (match Base64.value_of (Base64.char_of s) with
               | Some v => v =? s
               | None => false
               end
               && negb (Base64.char_of s =? Base64.pad_char)
               && (Base64.char_of s <? 128))%bool = true).
  { revert s Hs.
    assert (H64 : forall s, s < 256 ->
              (negb (s <? 64)
               || (match Base64.value_of (Base64.char_of s) with
                   | Some v => v =? s
                   | None => false
                   end
                   && negb (Base64.char_of s =? Base64.pad_char)
                   && (Base64.char_of s <? 128)))%bool = true).
    { apply below_256. vm_compute. reflexivity. }
    intros s Hs. specialize (H64 s ltac:(lia)).
    apply N.ltb_lt in Hs. rewrite Hs in H64. exact H64. }
  apply andb_true_iff in H as [H H3]. apply andb_true_iff in H as [H1 H2].
  destruct (Base64.value_of (Base64.char_of s)) as [v|]; [|discriminate H1].
  apply N.eqb_eq in H1. subst v.
  apply negb_true_iff in H2. apply N.ltb_lt in H3. auto.
Qed.

(** The groups of six bits of one, two and three bytes, and the bytes read
    back from them. *)
Lemma sextets_of_pair a b :
  a < 256 -> b < 256 ->
  N.shiftr a 2 < 64
  /\ N.lor (N.shiftl (N.land a 3) 4) (N.shiftr b 4) < 64
  /\ N.shiftl (N.land a 3) 4 < 64
  /\ N.shiftl (N.land b 15) 2 < 64
  /\ N.lor (N.shiftl (N.land a 15) 2) (N.shiftr b 6) < 64
  /\ N.land b 63 < 64
  /\ N.lor (N.shiftl (N.shiftr a 2) 2)
           (N.shiftr (N.lor (N.shiftl (N.land a 3) 4) (N.shiftr b 4)) 4) = a
  /\ N.land (N.lor (N.shiftl (N.land a 3) 4) (N.shiftr b 4)) 15 = N.shiftr b 4
  /\ N.lor (N.shiftl (N.shiftr a 2) 2) (N.shiftr (N.shiftl (N.land a 3) 4) 4) = a
  /\ N.lor (N.shiftl (N.shiftr a 4) 4)
           (N.shiftr (N.lor (N.shiftl (N.land a 15) 2) (N.shiftr b 6)) 2) = a
  /\ N.land (N.lor (N.shiftl (N.land a 15) 2) (N.shiftr b 6)) 3 = N.shiftr b 6
  /\ N.lor (N.shiftl (N.shiftr a 4) 4) (N.shiftr (N.shiftl (N.land a 15) 2) 2) = a
  /\ N.lor (N.shiftl (N.shiftr b 6) 6) (N.land b 63) = b.
Proof.
  intros Ha Hb.
  assert (H : ((N.shiftr a 2 <? 64)
    && (N.lor (N.shiftl (N.land a 3) 4) (N.shiftr b 4) <? 64)
    && (N.shiftl (N.land a 3) 4 <? 64)
    && (N.shiftl (N.land b 15) 2 <? 64)
    && (N.lor (N.shiftl (N.land a 15) 2) (N.shiftr b 6) <? 64)
    && (N.land b 63 <? 64)
    && (N.lor (N.shiftl (N.shiftr a 2) 2)
           (N.shiftr (N.lor (N.shiftl (N.land a 3) 4) (N.shiftr b 4)) 4) =? a)
    && (N.land (N.lor (N.shiftl (N.land a 3) 4) (N.shiftr b 4)) 15 =? N.shiftr b 4)
    && (N.lor (N.shiftl (N.shiftr a 2) 2) (N.shiftr (N.shiftl (N.land a 3) 4) 4) =? a)
    && (N.lor (N.shiftl (N.shiftr a 4) 4)
           (N.shiftr (N.lor (N.shiftl (N.land a 15) 2) (N.shiftr b 6)) 2) =? a)
    && (N.land (N.lor (N.shiftl (N.land a 15) 2) (N.shiftr b 6)) 3 =? N.shiftr b 6)
    && (N.lor (N.shiftl (N.shiftr a 4) 4) (N.shiftr (N.shiftl (N.land a 15) 2) 2) =? a)
    && (N.lor (N.shiftl (N.shiftr b 6) 6) (N.land b 63) =? b))%bool = true).
  { revert a b Ha Hb.
    apply (pairs_below_256
      (fun a b => ((N.shiftr a 2 <? 64)
    && (N.lor (N.shiftl (N.land a 3) 4) (N.shiftr b 4) <? 64)
    && (N.shiftl (N.land a 3) 4 <? 64)
    && (N.shiftl (N.land b 15) 2 <? 64)
    && (N.lor (N.shiftl (N.land a 15) 2) (N.shiftr b 6) <? 64)
    && (N.land b 63 <? 64)
    && (N.lor (N.shiftl (N.shiftr a 2) 2)
           (N.shiftr (N.lor (N.shiftl (N.land a 3) 4) (N.shiftr b 4)) 4) =? a)
    && (N.land (N.lor (N.shiftl (N.land a 3) 4) (N.shiftr b 4)) 15 =? N.shiftr b 4)
    && (N.lor (N.shiftl (N.shiftr a 2) 2) (N.shiftr (N.shiftl (N.land a 3) 4) 4) =? a)
    && (N.lor (N.shiftl (N.shiftr a 4) 4)
           (N.shiftr (N.lor (N.shiftl (N.land a 15) 2) (N.shiftr b 6)) 2) =? a)
    && (N.land (N.lor (N.shiftl (N.land a 15) 2) (N.shiftr b 6)) 3 =? N.shiftr b 6)
    && (N.lor (N.shiftl (N.shiftr a 4) 4) (N.shiftr (N.shiftl (N.land a 15) 2) 2) =? a)
    && (N.lor (N.shiftl (N.shiftr b 6) 6) (N.land b 63) =? b))%bool)).
    vm_compute. reflexivity. }
  repeat (apply andb_true_iff in H as [H ?]).
  repeat match goal with
         | H : (_ <? _) = true |- _ => apply N.ltb_lt in H
         | H : (_ =? _) = true |- _ => apply N.eqb_eq in H
         end.
  repeat split; assumption.
Qed.

Lemma a2b_base64_char s rest quad_pos leftchar pads :
  s < 64 ->
  Base64.a2b_base64 (Base64.char_of s :: rest) quad_pos leftchar pads
  = match quad_pos with
    | 0%nat => Base64.a2b_base64 rest 1 s 0
    | 1%nat =>
        cons (N.lor (N.shiftl leftchar 2) (N.shiftr s 4))
          <$> Base64.a2b_base64 rest 2 (N.land s 15) 0
    | 2%nat =>
        cons (N.lor (N.shiftl leftchar 4) (N.shiftr s 2))
          <$> Base64.a2b_base64 rest 3 (N.land s 3) 0
    | _ =>
        cons (N.lor (N.shiftl leftchar 6) s)
          <$> Base64.a2b_base64 rest 0 0 0
    end.
Proof.
  intros Hs. destruct (char_of_value s Hs) as (Hv & Hp & _).
  cbn [Base64.a2b_base64]. rewrite Hp, Hv. reflexivity.
Qed.

Lemma three_at_a_time {A} (P : list A -> Prop) :
  P [] -> (forall a, P [a]) -> (forall a b, P [a; b]) ->
  (forall a b c rest, P rest -> P (a :: b :: c :: rest)) ->
  forall l, P l.
Proof.
  intros H0 H1 H2 H3.
  assert (H : forall l, P l /\ (forall a, P (a :: l))
                        /\ (forall a b, P (a :: b :: l))).
  { induction l as [|x l (IH0 & IH1 & IH2)]; [auto|].
    split; [exact (IH1 x)|]. split; [exact (fun a => IH2 a x)|].
    intros a b. apply H3, IH0. }
  intros l. apply H.
Qed.

(** What [urlsafe_b64encode] writes, [urlsafe_b64decode] reads back. *)
Lemma urlsafe_b64decode_encode bs :
  Forall (fun b => b < 256) bs ->
  Base64.urlsafe_b64decode (Base64.urlsafe_b64encode bs) = Some bs.
Proof.
  unfold Base64.urlsafe_b64decode.
  induction bs as [|a|a b|a b c rest IH] using three_at_a_time; intros Hb.
  - reflexivity.
  - inversion Hb as [|? ? Ha _]; subst.
    destruct (sextets_of_pair a a Ha Ha)
      as (S0 & _ & S1 & _ & _ & _ & _ & _ & E & _).
    cbn [Base64.urlsafe_b64encode].
    rewrite (a2b_base64_char _ _ _ _ _ S0), (a2b_base64_char _ _ _ _ _ S1).
    rewrite E. reflexivity.
  - inversion Hb as [|? ? Ha Hb']; subst.
    inversion Hb' as [|? ? Hb0 _]; subst.
    destruct (sextets_of_pair a b Ha Hb0)
      as (S0 & S1 & _ & S2 & _ & _ & E1 & L1 & _).
    destruct (sextets_of_pair b b Hb0 Hb0)
      as (_ & _ & _ & _ & _ & _ & _ & _ & _ & _ & _ & E2 & _).
    cbn [Base64.urlsafe_b64encode].
    rewrite (a2b_base64_char _ _ _ _ _ S0), (a2b_base64_char _ _ _ _ _ S1),
            (a2b_base64_char _ _ _ _ _ S2).
    rewrite E1, L1, E2. reflexivity.
  - inversion Hb as [|? ? Ha Hb']; subst.
    inversion Hb' as [|? ? Hb0 Hb'']; subst.
    inversion Hb'' as [|? ? Hc Hrest]; subst.
    destruct (sextets_of_pair a b Ha Hb0)
      as (S0 & S1 & _ & _ & _ & _ & E1 & L1 & _).
    destruct (sextets_of_pair b c Hb0 Hc)
      as (_ & _ & _ & _ & S2 & S3 & _ & _ & _ & E2 & L2 & _ & E3).
    cbn [Base64.urlsafe_b64encode].
    rewrite (a2b_base64_char _ _ _ _ _ S0), (a2b_base64_char _ _ _ _ _ S1),
            (a2b_base64_char _ _ _ _ _ S2), (a2b_base64_char _ _ _ _ _ S3).
    rewrite E1, L1, E2, L2, E3, (IH Hrest). reflexivity.
Qed.

Lemma urlsafe_b64encode_length bs :
  length (Base64.urlsafe_b64encode bs) = (4 * ((length bs + 2) / 3))%nat.
Proof.
  induction bs as [|a|a b|a b c rest IH] using three_at_a_time;
    try reflexivity.
  cbn [Base64.urlsafe_b64encode length]. rewrite IH.
  replace (S (S (S (length rest))) + 2)%nat
    with ((length rest + 2) + 1 * 3)%nat by lia.
  rewrite Nat.div_add by lia. lia.
Qed.

Lemma urlsafe_b64encode_ascii bs :
  Forall (fun b => b < 256) bs ->
  Forall (fun ch => ch < 128) (Base64.urlsafe_b64encode bs).
Proof.
  assert (Hpad : Base64.pad_char < 128) by reflexivity.
  induction bs as [|a|a b|a b c rest IH] using three_at_a_time; intros Hb.
  - constructor.
  - inversion Hb as [|? ? Ha _]; subst.
    destruct (sextets_of_pair a a Ha Ha) as (S0 & _ & S1 & _).
    cbn [Base64.urlsafe_b64encode].
    repeat constructor; try exact Hpad; apply char_of_value; assumption.
  - inversion Hb as [|? ? Ha Hb']; subst.
    inversion Hb' as [|? ? Hb0 _]; subst.
    destruct (sextets_of_pair a b Ha Hb0) as (S0 & S1 & _ & S2 & _).
    cbn [Base64.urlsafe_b64encode].
    repeat constructor; try exact Hpad; apply char_of_value; assumption.
  - inversion Hb as [|? ? Ha Hb']; subst.
    inversion Hb' as [|? ? Hb0 Hb'']; subst.
    inversion Hb'' as [|? ? Hc Hrest]; subst.
    destruct (sextets_of_pair a b Ha Hb0) as (S0 & S1 & _).
    destruct (sextets_of_pair b c Hb0 Hc) as (_ & _ & _ & _ & S2 & S3 & _).
    cbn [Base64.urlsafe_b64encode].
    repeat (apply List.Forall_cons; [apply char_of_value; assumption|]).
    apply IH, Hrest.
Qed.

(** ASCII bytes decode to a string of the same length, whose encoding they
    are. *)
Lemma decode_ascii bs :
  Forall (fun ch => ch < 128) bs ->
  exists s, Utf8.decode bs = Some s
            /\ PyStr.encode s = bs
            /\ String.length s = length bs.
Proof.
  induction bs as [|b bs IH]; intros Hb.
  - exists EmptyString. auto.
  - inversion Hb as [|? ? Hlt Hrest]; subst.
    destruct (IH Hrest) as (s & Hd & He & Hl).
    exists (String (ascii_of_N b) s).
    cbn [Utf8.decode]. apply N.ltb_lt in Hlt as Hlt'. rewrite Hlt', Hd.
    split; [reflexivity|]. split.
    + cbn [PyStr.encode]. unfold PyStr.encode_char.
      rewrite N_ascii_embedding by lia. rewrite Hlt', He. reflexivity.
    + simpl. rewrite Hl. reflexivity.
Qed.

Lemma decode_encode_char c rest :
  Utf8.decode (PyStr.encode_char c ++ rest) = String c <$> Utf8.decode rest.
Proof.
  destruct c as [[] [] [] [] [] [] [] []]; reflexivity.
Qed.

(** [s.encode().decode()] is [s]. *)
Lemma decode_encode s : Utf8.decode (PyStr.encode s) = Some s.
Proof.
  induction s as [|c s IH]; [reflexivity|].
  cbn [PyStr.encode]. rewrite decode_encode_char, IH. reflexivity.
Qed.

End Codecs.

(** ** The encryption service *)

Section EncryptionFacts.

Import Event Encryption.

Context (fernet_encrypt : list N -> nat -> list N -> option (list N))
        (fernet_decrypt : list N -> list N -> option (list N))
        (pbkdf2 : list N -> list N -> list N)
        (encryption_settings : EncryptionSettings).

(** The text of a token: as many characters as its Base64 form has bytes,
    and the Base64 form is its encoding. *)
Lemma service_cipher_text self n data c :
  (forall key n m t, fernet_encrypt key n m = Some t ->
                     Forall (fun b => (b < 256)%N) t) ->
  service_cipher fernet_encrypt self n data = Some c ->
  exists t,
    fernet_encrypt (_cipher self) n (PyStr.encode data) = Some t
    /\ PyStr.encode c = Base64.urlsafe_b64encode t
    /\ String.length c = 4 * ((length t + 2) / 3).
Proof.
  intros Hbytes H. unfold service_cipher in H.
  destruct (fernet_encrypt (_cipher self) n (PyStr.encode data)) as [t|] eqn:Ht;
    [|discriminate H].
  exists t. split; [reflexivity|].
  destruct (decode_ascii _ (urlsafe_b64encode_ascii _ (Hbytes _ _ _ _ Ht)))
    as (s & Hd & He & Hl).
  rewrite Hd in H. inversion H; subst c.
  split; [exact He|]. rewrite Hl. apply urlsafe_b64encode_length.
Qed.

(** X6.  [decrypt_phi] gives back what [encrypt_phi] was given, the empty
    string included, for a cipher whose [decrypt] inverts its [encrypt]
    and whose tokens are byte strings that are not empty. *)
Theorem decrypt_phi_inverts_encrypt_phi self data w c w' :
  (forall key n m t,
     fernet_encrypt key n m = Some t ->
     fernet_decrypt key t = Some m
     /\ t <> [] /\ Forall (fun b => (b < 256)%N) t) ->
  service_encrypt_phi fernet_encrypt self data w = (Ok c, w') ->
  decrypt_phi fernet_decrypt self c = Plain data.
Proof.
  intros Hfernet H. unfold service_encrypt_phi in H.
  apply encrypt_phi_full in H as [_ H].
  destruct data as [|a data]; simpl in H.
  - inversion H. reflexivity.
  - destruct (service_cipher fernet_encrypt self (length (enc_calls w))
                (String a data)) as [c'|] eqn:Hc; inversion H; subst c'.
    destruct (service_cipher_text _ _ _ _
                (fun key n m t Ht => proj2 (proj2 (Hfernet key n m t Ht))) Hc)
      as (t & Ht & He & Hl).
    destruct (Hfernet _ _ _ _ Ht) as (Hdec & Hne & Hb).
    unfold decrypt_phi.
    assert (Htruthy : PyStr.truthy c = true).
    { assert (Hpos : 0 < String.length c).
      { rewrite Hl.
        assert (1 <= length t) by (destruct t; [congruence|simpl; lia]).
        assert (1 <= (length t + 2) / 3)
          by (apply Nat.div_le_lower_bound; lia).
        lia. }
      destruct c as [|x c]; [inversion Hpos|reflexivity]. }
    rewrite Htruthy. cbn [negb].
    rewrite He, (urlsafe_b64decode_encode _ Hb), Hdec, decode_encode.
    reflexivity.
Qed.

(** X7.  What [encrypt_phi] returns for a string that is not empty has
    four characters for every three bytes of the token, rounded up.  With
    tokens of more than 75 bytes, as all Fernet tokens are, that is more
    than the 100 characters [ProcessedEvent] allows for [patient_id]:
    [process] then returns no record, it raises the validation error of
    the record, or what the cipher raised. *)
Theorem fernet_ciphertext_is_too_long_for_a_record
    self utcnow redis_up py_str ev w e d :
  heap w !! ev = Some (OEvent e) ->
  heap w !! payload e = Some (ODict d) ->
  patient_id e <> EmptyString ->
  (forall key n m t,
     fernet_encrypt key n m = Some t ->
     75 < length t /\ Forall (fun b => (b < 256)%N) t) ->
  (forall n data c,
     service_cipher fernet_encrypt self n data = Some c ->
     exists t,
       fernet_encrypt (_cipher self) n (PyStr.encode data) = Some t
       /\ String.length c = 4 * ((length t + 2) / 3)
       /\ 100 < String.length c)
  /\ exists ex w',
       process (service_cipher fernet_encrypt self) (current_key_id self)
               utcnow redis_up py_str ev w = (Raise ex, w')
       /\ (ex = CipherError
           \/ ex = ValidationError
                     (validate_provider_id (provider_id e)
                      ++ [string_too_long "patient_id"])).
Proof.
  intros He Hd Hid Hfernet.
  assert (Hlong : forall n data c,
            service_cipher fernet_encrypt self n data = Some c ->
            exists t,
              fernet_encrypt (_cipher self) n (PyStr.encode data) = Some t
              /\ String.length c = 4 * ((length t + 2) / 3)
              /\ 100 < String.length c).
  { intros n data c Hc.
    destruct (service_cipher_text _ _ _ _
                (fun key n m t Ht => proj2 (Hfernet key n m t Ht)) Hc)
      as (t & Ht & _ & Hl).
    exists t. split; [exact Ht|]. split; [exact Hl|].
    destruct (Hfernet _ _ _ _ Ht) as [Hlen _].
    assert (26 <= (length t + 2) / 3)
      by (apply Nat.div_le_lower_bound; lia).
    lia. }
  split; [exact Hlong|].
  assert (Hinvalid : forall n c,
            service_cipher fernet_encrypt self n (patient_id e) = Some c ->
            validate_patient_id c = [string_too_long "patient_id"]).
  { intros n c Hc. destruct (Hlong _ _ _ Hc) as (_ & _ & _ & Hl).
    unfold validate_patient_id, validate_str_field.
    destruct (Nat.ltb_spec (String.length c) 1); [lia|].
    destruct (Nat.ltb_spec 100 (String.length c)); [reflexivity|lia]. }
  destruct (process (service_cipher fernet_encrypt self) (current_key_id self)
              utcnow redis_up py_str ev w) as [r w'] eqn:H.
  destruct (process_full _ _ _ _ _ _ _ _ _ _ _ He Hd H) as (_ & Hr).
  assert (Ht : PyStr.truthy (patient_id e) = true)
    by (destruct (patient_id e); [congruence|reflexivity]).
  rewrite Ht in Hr.
  destruct r as [pe|ex].
  - exfalso. destruct Hr as (c & d' & _ & Hc & Hv & _).
    unfold validation_errors in Hv. rewrite (Hinvalid _ _ Hc) in Hv.
    destruct (validate_provider_id (provider_id e)); discriminate Hv.
  - exists ex, w'. split; [reflexivity|].
    destruct Hr as (_ & [[-> _]|(c & Hc & _ & ->)]); [left; reflexivity|].
    right. unfold validation_errors. rewrite (Hinvalid _ _ Hc). reflexivity.
Qed.

(** X8.  [rotate_key] never returns: it stores the new key identifier and
    then raises [AttributeError], because the class has no method
    [_initialize_cipher].  The cipher is the one it was, so the service
    encrypts and decrypts as before, and every record processed afterwards
    names the new key. *)
Theorem rotate_key_renames_the_key_and_raises new_key_id self :
  exists self',
    rotate_key pbkdf2 encryption_settings new_key_id self
    = (Raise AttributeError, self')
    /\ current_key_id self' = new_key_id
    /\ _cipher self' = _cipher self
    /\ logged self' = logged self
    /\ service_cipher fernet_encrypt self' = service_cipher fernet_encrypt self
    /\ decrypt_phi fernet_decrypt self' = decrypt_phi fernet_decrypt self
    /\ forall utcnow redis_up py_str ev w pe w',
         process (service_cipher fernet_encrypt self') (current_key_id self')
                 utcnow redis_up py_str ev w = (Ok pe, w') ->
         encryption_key_id pe = Some new_key_id
         /\ exists pe0,
              process (service_cipher fernet_encrypt self) (current_key_id self)
                      utcnow redis_up py_str ev w = (Ok pe0, w')
              /\ base pe = base pe0
              /\ encryption_key_id pe0 = Some (current_key_id self).
Proof.
  eexists. split; [reflexivity|]. simpl.
  do 5 (split; [reflexivity|]).
  intros utcnow redis_up py_str ev w pe w' H.
  destruct (process_with_another_key _ _ _ _ _ (current_key_id self) _ _ _ _ H)
    as [Hk Hp].
  split; [exact Hk|].
  eexists. split; [exact Hp|]. split; reflexivity.
Qed.

End EncryptionFacts.

Lemma fixture_fernet_inverts key n m t :
  EncryptionFixture.fernet_encrypt key n m = Some t ->
  EncryptionFixture.fernet_decrypt key t = Some m
  /\ t <> [] /\ Forall (fun b => (b < 256)%N) t.
Proof.
  unfold EncryptionFixture.fernet_encrypt, EncryptionFixture.fernet_decrypt.
  destruct (EncryptionFixture.is_bytes m) eqn:Hm; intros H;
    [|discriminate H].
  assert (Ht : t = repeat 128%N 76 ++ m) by congruence. subst t. clear H.
  split; [|split].
  - reflexivity.
  - discriminate.
  - apply Forall_app_2.
    + apply List.Forall_forall. intros x Hx. apply repeat_spec in Hx. subst x.
      reflexivity.
    + apply List.Forall_forall. intros x Hx.
      unfold EncryptionFixture.is_bytes in Hm.
      rewrite forallb_forall in Hm. apply N.ltb_lt, Hm, Hx.
Qed.

Lemma fixture_fernet_tokens_are_long key n m t :
  EncryptionFixture.fernet_encrypt key n m = Some t ->
  75 < length t /\ Forall (fun b => (b < 256)%N) t.
Proof.
  intros H. split; [|apply (fixture_fernet_inverts key n m t H)].
  unfold EncryptionFixture.fernet_encrypt in H.
  destruct (EncryptionFixture.is_bytes m); [|discriminate H].
  assert (Ht : t = repeat 128%N 76 ++ m) by congruence. subst t.
  rewrite length_app, repeat_length. lia.
Qed.

Lemma sample_identifier_round_trip :
  exists c w',
    Encryption.service_encrypt_phi EncryptionFixture.fernet_encrypt
      EncryptionFixture.service "PAT-12345" Fixture.empty_world = (Ok c, w')
    /\ Encryption.decrypt_phi EncryptionFixture.fernet_decrypt
         EncryptionFixture.service c = Encryption.Plain "PAT-12345".
Proof.
  exists_outcome
    (Encryption.service_encrypt_phi EncryptionFixture.fernet_encrypt
       EncryptionFixture.service "PAT-12345" Fixture.empty_world).
  assert (Hp : Encryption.service_encrypt_phi EncryptionFixture.fernet_encrypt
                 EncryptionFixture.service "PAT-12345" Fixture.empty_world
               = (Ok _, _)) by (vm_compute; reflexivity).
  split; [exact Hp|].
  exact (decrypt_phi_inverts_encrypt_phi
           EncryptionFixture.fernet_encrypt EncryptionFixture.fernet_decrypt
           _ _ _ _ _ fixture_fernet_inverts Hp).
Defined.

Lemma sample_event_cannot_be_processed :
  (forall n data c,
     Encryption.service_cipher EncryptionFixture.fernet_encrypt
       EncryptionFixture.service n data = Some c ->
     exists t,
       EncryptionFixture.fernet_encrypt
         (Encryption._cipher EncryptionFixture.service) n (PyStr.encode data)
       = Some t
       /\ String.length c = 4 * ((length t + 2) / 3)
       /\ 100 < String.length c)
  /\ exists ex w',
       process (Encryption.service_cipher EncryptionFixture.fernet_encrypt
                  EncryptionFixture.service)
               (Encryption.current_key_id EncryptionFixture.service)
               Fixture.mock_utcnow Fixture.mock_redis Fixture.mock_str
               Fixture.sample_loc Fixture.sample_world = (Raise ex, w')
       /\ (ex = CipherError
           \/ ex = ValidationError
                     (Event.validate_provider_id
                        (Event.provider_id Sample.event)
                      ++ [Event.string_too_long "patient_id"])).
Proof.
  apply (fernet_ciphertext_is_too_long_for_a_record
           EncryptionFixture.fernet_encrypt EncryptionFixture.service
           Fixture.mock_utcnow Fixture.mock_redis Fixture.mock_str
           Fixture.sample_loc Fixture.sample_world
           Sample.event Sample.payload_dict).
  - vm_compute. reflexivity.
  - vm_compute. reflexivity.
  - discriminate.
  - exact fixture_fernet_tokens_are_long.
Defined.

(** ** API keys and scopes *)

Section AuthFacts.

Import Event Auth.

Variable cache_get : string -> option pyval.

Lemma static_key_lookup key :
  dict_get VALID_API_KEYS key
  = if String.eqb "dev-api-key-12345" key
    then Some (VDict [ ("name", VStr "Development Key");
                       ("provider_id", VStr "DEV-001");
                       ("scopes", VList [VStr "read"; VStr "write"; VStr "admin"]) ])
    else None.
Proof. reflexivity. Qed.

(** What [verify_api_key] answers, case by case. *)
Lemma verify_api_key_cases x_api_key :
  verify_api_key cache_get x_api_key
  = match x_api_key with
    | None => HTTPException 401 "Missing API key. Provide X-API-Key header."
    | Some key =>
        if negb (PyStr.truthy key)
        then HTTPException 401 "Missing API key. Provide X-API-Key header."
        else if String.eqb "dev-api-key-12345" key then Returned key
        else match cache_get ("api_key:" +:+ hash_key key) with
             | Some (VDict (_ :: _)) => Returned key
             | Some v =>
                 if truthy v then Failed AttributeError
                 else HTTPException 401 "Invalid API key"
             | None => HTTPException 401 "Invalid API key"
             end
    end.
Proof.
  destruct x_api_key as [key|]; [|reflexivity].
  unfold verify_api_key.
  destruct (negb (PyStr.truthy key)); [reflexivity|].
  rewrite static_key_lookup.
  destruct (String.eqb "dev-api-key-12345" key); [reflexivity|].
  cbn [falsy].
  destruct (cache_get ("api_key:" +:+ hash_key key)) as [v|]; [|reflexivity].
  destruct v as [|b|z|f|s|l|d]; cbn [falsy truthy default get_method negb];
    try reflexivity.
  - destruct b; reflexivity.
  - destruct (negb (z =? 0)%Z); reflexivity.
  - destruct (float_truthy f); reflexivity.
  - destruct (PyStr.truthy s); reflexivity.
  - destruct l; reflexivity.
  - destruct d; reflexivity.
Qed.

Lemma verify_api_key_returns_iff x_api_key key :
  verify_api_key cache_get x_api_key = Returned key
  <-> x_api_key = Some key
      /\ key <> EmptyString
      /\ (key = "dev-api-key-12345"
          \/ exists d, d <> []
               /\ cache_get ("api_key:" +:+ hash_key key) = Some (VDict d)).
Proof.
  rewrite verify_api_key_cases.
  destruct x_api_key as [k|];
    [|split; [discriminate|intros (H & _); discriminate H]].
  destruct k as [|a k]; cbn [PyStr.truthy negb].
  { split; [discriminate|]. intros (H & Hne & _). congruence. }
  destruct (String.eqb_spec "dev-api-key-12345" (String a k)) as [E|E].
  { split.
    - intros H. inversion H; subst key.
      split; [reflexivity|]. split; [discriminate|]. left. congruence.
    - intros (H & _). inversion H. reflexivity. }
  destruct (cache_get ("api_key:" +:+ hash_key (String a k))) as [v|] eqn:Hc.
  - split.
    + intros H.
      destruct v as [|b|z|f|s|l|[|kv d]]; cbn [truthy] in H.
      * discriminate H.
      * destruct b; discriminate H.
      * destruct (negb (z =? 0)%Z); discriminate H.
      * destruct (float_truthy f); discriminate H.
      * destruct (PyStr.truthy s); discriminate H.
      * destruct l; discriminate H.
      * discriminate H.
      * inversion H; subst key.
        split; [reflexivity|]. split; [discriminate|].
        right. exists (kv :: d). split; [discriminate|exact Hc].
    + intros (H & _ & [Hd|(d & Hne & Hd)]); inversion H; subst key.
      * congruence.
      * rewrite Hc in Hd. inversion Hd; subst v.
        destruct d; [congruence|reflexivity].
  - split; [discriminate|].
    intros (H & _ & [Hd|(d & _ & Hd)]); inversion H; subst key; congruence.
Qed.

(** X9.  [verify_api_key] returns exactly for a header that is not empty
    and holds the built-in development key, or a key for which the cache
    holds a [dict] that is not empty under [api_key:] followed by the
    SHA-256 of the key; what it returns is the header.  The cache is read
    under this one name only, and not at all for the development key.  A
    request without the header or with an empty one is answered 401. *)
Theorem verify_api_key_accepts_static_and_cached_keys x_api_key :
  (forall key,
     verify_api_key cache_get x_api_key = Returned key
     <-> x_api_key = Some key
         /\ key <> EmptyString
         /\ (key = "dev-api-key-12345"
             \/ exists d, d <> []
                  /\ cache_get ("api_key:" +:+ hash_key key) = Some (VDict d)))
  /\ (forall other_cache : string -> option pyval,
        (forall key, x_api_key = Some key ->
                     key <> "dev-api-key-12345" ->
                     other_cache ("api_key:" +:+ hash_key key)
                     = cache_get ("api_key:" +:+ hash_key key)) ->
        verify_api_key other_cache x_api_key
        = verify_api_key cache_get x_api_key)
  /\ (x_api_key = None \/ x_api_key = Some EmptyString ->
      verify_api_key cache_get x_api_key
      = HTTPException 401 "Missing API key. Provide X-API-Key header.").
Proof.
  split; [|split].
  - intros key. apply verify_api_key_returns_iff.
  - intros other Hsame.
    rewrite (verify_api_key_cases x_api_key).
    unfold verify_api_key.
    destruct x_api_key as [k|]; [|reflexivity].
    destruct (negb (PyStr.truthy k)); [reflexivity|].
    rewrite static_key_lookup.
    destruct (String.eqb_spec "dev-api-key-12345" k) as [E|E]; [reflexivity|].
    rewrite (Hsame k eq_refl) by congruence.
    cbn [falsy].
    destruct (cache_get ("api_key:" +:+ hash_key k)) as [v|]; [|reflexivity].
    destruct v as [|b|z|f|s|l|d]; cbn [falsy truthy default get_method negb];
      try reflexivity.
    + destruct b; reflexivity.
    + destruct (negb (z =? 0)%Z); reflexivity.
    + destruct (float_truthy f); reflexivity.
    + destruct (PyStr.truthy s); reflexivity.
    + destruct l; reflexivity.
    + destruct d; reflexivity.
  - intros [->| ->]; reflexivity.
Qed.

Lemma check_scope_cases scope key :
  check_scope scope key = String.eqb "dev-api-key-12345" key.
Proof.
  unfold check_scope. rewrite static_key_lookup.
  destruct (String.eqb "dev-api-key-12345" key); cbn.
  - apply orb_true_r.
  - reflexivity.
Qed.

(** X10.  The scope that [require_scope] is given decides nothing:
    [check_scope] holds exactly for the development key, which has the
    scope [admin], whatever scope is asked for.  So the dependency returns
    for the development key alone, and a key that [verify_api_key]
    accepts from the cache is answered 403 for every scope. *)
Theorem only_the_development_key_passes_a_scope_check scope x_api_key :
  (forall key, check_scope scope key = true <-> key = "dev-api-key-12345")
  /\ (require_scope cache_get scope x_api_key = Returned true
      <-> x_api_key = Some "dev-api-key-12345")
  /\ (forall key,
        verify_api_key cache_get x_api_key = Returned key ->
        key <> "dev-api-key-12345" ->
        require_scope cache_get scope x_api_key
        = HTTPException 403
            ("Insufficient permissions. Required scope: " +:+ scope)).
Proof.
  assert (Hcheck : forall key,
            check_scope scope key = true <-> key = "dev-api-key-12345").
  { intros key. rewrite check_scope_cases.
    destruct (String.eqb_spec "dev-api-key-12345" key); split; congruence. }
  split; [exact Hcheck|]. split.
  - unfold require_scope. split.
    + destruct (verify_api_key cache_get x_api_key) as [key| |] eqn:Hv;
        try discriminate.
      destruct (check_scope scope key) eqn:Hc; [|discriminate].
      intros _. apply Hcheck in Hc. subst key.
      apply verify_api_key_returns_iff in Hv. apply Hv.
    + intros ->.
      assert (Hv : verify_api_key cache_get (Some "dev-api-key-12345")
                   = Returned "dev-api-key-12345") by reflexivity.
      rewrite Hv, check_scope_cases. reflexivity.
  - intros key Hv Hne. unfold require_scope. rewrite Hv.
    destruct (check_scope scope key) eqn:Hc; [|reflexivity].
    apply Hcheck in Hc. congruence.
Qed.

End AuthFacts.

(** The issued key of the fixture is verified, and refused the scope
    [read] that the cache lists for it. *)
Example issued_key_is_verified_then_refused :
  Auth.verify_api_key AuthFixture.cache_get (Some AuthFixture.issued_key)
  = Auth.Returned AuthFixture.issued_key
  /\ Auth.require_scope AuthFixture.cache_get "read" (Some AuthFixture.issued_key)
     = Auth.HTTPException 403 "Insufficient permissions. Required scope: read".
Proof. split; vm_compute; reflexivity. Qed.

(** ** Digests *)

Section DigestFacts.

Lemma compress_length h block :
  length h = 8 -> length (Sha256.compress h block) = 8.
Proof.
  intros Hh. unfold Sha256.compress.
  rewrite length_map, length_combine, Hh. reflexivity.
Qed.

Lemma digest_length msg : length (Sha256.digest msg) = 8.
Proof.
  unfold Sha256.digest.
  generalize (Sha256.chunks (length (Sha256.pad msg)) 64 (Sha256.pad msg)).
  assert (H0 : length Sha256.H0 = 8) by (vm_compute; reflexivity).
  revert H0. generalize Sha256.H0.
  intros h Hh blocks. revert h Hh.
  induction blocks as [|b blocks IH]; intros h Hh; [exact Hh|].
  simpl. apply IH, compress_length, Hh.
Qed.

Lemma all_chars_append p a b :
  all_chars p (a +:+ b) = all_chars p a && all_chars p b.
Proof.
  induction a as [|c a IH]; simpl; [reflexivity|].
  rewrite IH. apply andb_assoc.
Qed.

Lemma string_length_append a b :
  String.length (a +:+ b) = String.length a + String.length b.
Proof. induction a as [|c a IH]; simpl; [reflexivity|]. rewrite IH. reflexivity. Qed.

Lemma hex_digit_is_hex v :
  (v < 16)%N -> is_hex_digit (Sha256.hex_digit v) = true.
Proof.
  intros Hv.
  assert (H : forall v, (v < 256)%N ->
            (negb (v <? 16)%N || is_hex_digit (Sha256.hex_digit v)) = true)
    by (apply below_256; vm_compute; reflexivity).
  specialize (H v ltac:(lia)). apply N.ltb_lt in Hv. rewrite Hv in H. exact H.
Qed.

Lemma hex_is_hex n x :
  String.length (Sha256.hex n x) = n
  /\ all_chars is_hex_digit (Sha256.hex n x) = true.
Proof.
  induction n as [|n [IHl IHc]]; [split; reflexivity|].
  cbn [Sha256.hex String.length all_chars]. rewrite IHl, IHc.
  split; [reflexivity|]. rewrite andb_true_r.
  apply hex_digit_is_hex.
  change 15%N with (N.ones 4). rewrite N.land_ones.
  apply N.mod_lt. discriminate.
Qed.

(** A SHA-256 digest in hexadecimal: 64 lower-case digits. *)
Lemma hexdigest_is_hex msg :
  String.length (Sha256.hexdigest msg) = 64
  /\ all_chars is_hex_digit (Sha256.hexdigest msg) = true.
Proof.
  unfold Sha256.hexdigest.
  assert (H : forall ws,
            String.length
              (fold_right (fun w acc => Sha256.hex 8 w +:+ acc) EmptyString ws)
            = 8 * length ws
            /\ all_chars is_hex_digit
                 (fold_right (fun w acc => Sha256.hex 8 w +:+ acc) EmptyString ws)
               = true).
  { induction ws as [|w ws [IHl IHc]]; [split; reflexivity|].
    cbn [fold_right]. rewrite string_length_append, all_chars_append.
    destruct (hex_is_hex 8 w) as [Hl Hc]. rewrite Hl, Hc, IHl, IHc.
    split; [simpl; lia|reflexivity]. }
  destruct (H (Sha256.digest msg)) as [Hl Hc].
  rewrite digest_length in Hl. auto.
Qed.

Lemma substring_prefix n : forall s,
  n <= String.length s ->
  String.length (substring 0 n s) = n
  /\ forall p, all_chars p s = true -> all_chars p (substring 0 n s) = true.
Proof.
  induction n as [|n IH]; intros s Hn.
  - destruct s; split; auto.
  - destruct s as [|c s]; simpl in Hn; [lia|].
    destruct (IH s ltac:(lia)) as [Hl Hc].
    cbn [substring String.length all_chars]. rewrite Hl.
    split; [reflexivity|].
    intros p Hp. apply andb_true_iff in Hp as [Hp1 Hp2].
    rewrite Hp1, (Hc p Hp2). reflexivity.
Qed.

(** X11.  Every digest the platform derives is a string of lower-case
    hexadecimal digits of a fixed length: 64 for the hash of an API key
    and for the checksum of an event, 16 for the hash of a patient
    identifier. *)
Theorem digests_are_hexadecimal_of_fixed_length :
  (forall api_key,
     String.length (Auth.hash_key api_key) = 64
     /\ all_chars is_hex_digit (Auth.hash_key api_key) = true)
  /\ (forall e d,
        String.length (event_checksum e d) = 64
        /\ all_chars is_hex_digit (event_checksum e d) = true)
  /\ (forall patient_id,
        String.length (_hash_patient_id patient_id) = 16
        /\ all_chars is_hex_digit (_hash_patient_id patient_id) = true).
Proof.
  split; [|split].
  - intros api_key. apply hexdigest_is_hex.
  - intros e d. apply hexdigest_is_hex.
  - intros patient_id. unfold _hash_patient_id.
    destruct (hexdigest_is_hex (PyStr.encode patient_id)) as [Hl Hc].
    destruct (substring_prefix 16 (Sha256.hexdigest (PyStr.encode patient_id))
                ltac:(lia)) as [Hl' Hc'].
    split; [exact Hl'|apply Hc', Hc].
Qed.

End DigestFacts.

(** ** Bounds on what the producer does for one event *)

Section ProducerBounds.

Import Event.

Context (client_put_record :
           list effect -> string -> list N -> option string -> put_outcome)
        (self : KinesisProducer).

Lemma sleeps_app t1 t2 : sleeps (t1 ++ t2) = sleeps t1 ++ sleeps t2.
Proof. unfold sleeps. apply flat_map_app. Qed.

Lemma puts_app t1 t2 : puts (t1 ++ t2) = puts t1 ++ puts t2.
Proof. unfold puts. apply flat_map_app. Qed.

(** The retry loop over the attempts [first], [first + 1], ...: each turn
    makes one call on the primary stream with the wire record of the
    event; the turns that go on to the next are the throttled ones, each
    followed by its sleep. *)
Lemma send_loop_bounded event r n : forall first w,
  wire_of (heap w) event = Some r ->
  exists t k p,
    trace (snd (send_loop client_put_record self event (seq first n) w))
    = trace w ++ t
    /\ heap (snd (send_loop client_put_record self event (seq first n) w))
       = heap w
    /\ k <= p /\ p <= S k /\ p <= n
    /\ sleeps t = map (backoff self) (seq first k)
    /\ puts t = repeat (stream_name self, r) p
    /\ batch_calls t = 0
    /\ fst (send_loop client_put_record self event (seq first n) w)
       <> Ok (Some false)
    /\ (fst (send_loop client_put_record self event (seq first n) w)
        = Ok (Some true) -> p = S k).
Proof.
  induction n as [|n IH]; intros first w Hr.
  - exists [], 0, 0. simpl. rewrite app_nil_r.
    repeat split; auto; discriminate.
  - cbn [seq Producer.send_loop].
    pose proof (send_attempt_eval client_put_record self event first w r Hr)
      as Ha. cbv zeta in Ha.
    assert (Hput : forall answer,
              puts [EPutRecord (stream_name self) (fst r) (snd r) answer]
              = [(stream_name self, r)])
      by (intros answer; destruct r; reflexivity).
    destruct (client_put_record (trace w) (stream_name self) (fst r) (snd r))
      as [sh sq|e] eqn:Hans.
    + rewrite (bind_Ok _ _ _ _ _ Ha).
      exists [EPutRecord (stream_name self) (fst r) (snd r) (PutOk sh sq);
              ELog "info" "event_published"], 0, 1.
      change (puts [EPutRecord (stream_name self) (fst r) (snd r) (PutOk sh sq);
                    ELog "info" "event_published"])
        with (puts [EPutRecord (stream_name self) (fst r) (snd r) (PutOk sh sq)]
              ++ []).
      rewrite Hput. simpl. unfold emit; simpl. rewrite <- app_assoc.
      repeat split; auto; try lia; discriminate.
    + destruct e as [errs| |code| |];
        try (rewrite (bind_Raise _ _ _ _ _ Ha);
             eexists [EPutRecord (stream_name self) (fst r) (snd r) _], 0, 1;
             rewrite Hput; simpl;
             repeat split; auto; try lia; discriminate).
      destruct (String.eqb code "ProvisionedThroughputExceededException") eqn:Hc.
      * rewrite (bind_Ok _ _ _ _ _ Ha).
        match goal with
        | |- context [Producer.send_loop _ _ _ _ ?w1] =>
            assert (Hr1 : wire_of (heap w1) event = Some r) by exact Hr;
            destruct (IH (S first) w1 Hr1)
              as (t & k & p & Ht & Hh & Hkp & Hpk & Hpn & Hs & Hp & Hb
                  & Hres & Htrue)
        end.
        exists ([EPutRecord (stream_name self) (fst r) (snd r)
                   (PutFail (ClientError code));
                 ELog "warning" "kinesis_publish_retry";
                 ESleep (backoff self first)] ++ t), (S k), (S p).
        split.
        { rewrite Ht. unfold emit; simpl. rewrite <- !app_assoc. reflexivity. }
        split; [rewrite Hh; reflexivity|].
        split; [lia|]. split; [lia|]. split; [lia|].
        split; [rewrite sleeps_app, Hs; reflexivity|].
        split.
        { rewrite puts_app, Hp.
          change (puts [EPutRecord (stream_name self) (fst r) (snd r)
                          (PutFail (ClientError code));
                        ELog "warning" "kinesis_publish_retry";
                        ESleep (backoff self first)])
            with (puts [EPutRecord (stream_name self) (fst r) (snd r)
                          (PutFail (ClientError code))] ++ []).
          rewrite Hput. reflexivity. }
        split; [rewrite batch_calls_app, Hb; reflexivity|].
        split; [exact Hres|].
        intros H. rewrite (Htrue H). reflexivity.
      * rewrite (bind_Ok _ _ _ _ _ Ha).
        exists [EPutRecord (stream_name self) (fst r) (snd r)
                  (PutFail (ClientError code));
                ELog "warning" "kinesis_publish_retry"], 0, 1.
        change (puts [EPutRecord (stream_name self) (fst r) (snd r)
                        (PutFail (ClientError code));
                      ELog "warning" "kinesis_publish_retry"])
          with (puts [EPutRecord (stream_name self) (fst r) (snd r)
                        (PutFail (ClientError code))] ++ []).
        rewrite Hput. simpl. unfold emit; simpl. rewrite <- app_assoc.
        repeat split; auto; try lia; discriminate.
Qed.

(** X12.  For one event [send_event] calls [put_record] on the primary
    stream at most [max_retries] times and on the dead-letter stream at
    most once, each time with the wire record of the event, and never
    calls [put_records], whatever the stream client answers or raises.  It
    sleeps only between attempts: [base_delay * 2 ** attempt] after each
    throttled attempt, in this order.  It returns [True] without a
    dead-letter write, and [False] after exactly one. *)
Theorem send_event_makes_bounded_calls event w r :
  wire_of (heap w) event = Some r ->
  exists t k p q,
    trace (snd (send_event client_put_record self event w)) = trace w ++ t
    /\ k <= p /\ p <= S k /\ p <= max_retries self /\ q <= 1
    /\ sleeps t = map (backoff self) (seq 0 k)
    /\ puts t = repeat (stream_name self, r) p
                ++ repeat (dlq_stream_name self, r) q
    /\ batch_calls t = 0
    /\ (fst (send_event client_put_record self event w) = Ok true ->
        q = 0 /\ p = S k)
    /\ (fst (send_event client_put_record self event w) = Ok false -> q = 1).
Proof.
  intros Hr. unfold Producer.send_event.
  destruct (send_loop_bounded event r (max_retries self) 0 w Hr)
    as (t & k & p & Ht & Hh & Hkp & Hpk & Hpn & Hs & Hp & Hb & Hres & Htrue).
  destruct (send_loop client_put_record self event
              (seq 0 (max_retries self)) w) as [res w1] eqn:Hloop.
  simpl in Ht, Hh, Hres, Htrue.
  destruct res as [[[|]|]|e].
  - rewrite (bind_Ok _ _ _ _ _ Hloop).
    exists t, k, p, 0. simpl. rewrite app_nil_r.
    repeat split; auto; try lia; discriminate.
  - congruence.
  - rewrite (bind_Ok _ _ _ _ _ Hloop).
    assert (Hr1 : wire_of (heap w1) event = Some r) by (rewrite Hh; exact Hr).
    pose proof (_send_to_dlq_eval client_put_record self event w1 r Hr1) as Hd.
    cbv zeta in Hd.
    assert (Hput : forall answer,
              puts [EPutRecord (dlq_stream_name self) (fst r) (snd r) answer]
              = [(dlq_stream_name self, r)])
      by (intros answer; destruct r; reflexivity).
    destruct (client_put_record (trace w1) (dlq_stream_name self) (fst r) (snd r))
      as [sh sq|e] eqn:Hans.
    + rewrite (bind_Ok _ _ _ _ _ Hd).
      exists (t ++ [EPutRecord (dlq_stream_name self) (fst r) (snd r)
                      (PutOk sh sq);
                    ELog "warning" "event_sent_to_dlq"]), k, p, 1.
      split; [simpl; rewrite Ht, <- !app_assoc; reflexivity|].
      rewrite sleeps_app, puts_app, batch_calls_app, Hs, Hp, Hb.
      change (puts [EPutRecord (dlq_stream_name self) (fst r) (snd r)
                      (PutOk sh sq);
                    ELog "warning" "event_sent_to_dlq"])
        with (puts [EPutRecord (dlq_stream_name self) (fst r) (snd r)
                      (PutOk sh sq)] ++ []).
      rewrite Hput. simpl. rewrite app_nil_r.
      repeat split; auto; try lia; discriminate.
    + destruct e as [errs| |code| |];
        try (rewrite (bind_Raise _ _ _ _ _ Hd);
             eexists (t ++ [EPutRecord (dlq_stream_name self) (fst r) (snd r) _]),
                     k, p, 1;
             (split; [simpl; rewrite Ht, <- !app_assoc; reflexivity|]);
             rewrite sleeps_app, puts_app, batch_calls_app, Hs, Hp, Hb, Hput;
             simpl; rewrite app_nil_r;
             repeat split; auto; try lia; discriminate).
      rewrite (bind_Ok _ _ _ _ _ Hd).
      exists (t ++ [EPutRecord (dlq_stream_name self) (fst r) (snd r)
                      (PutFail (ClientError code));
                    ELog "error" "dlq_publish_failed"]), k, p, 1.
      split; [simpl; rewrite Ht, <- !app_assoc; reflexivity|].
      rewrite sleeps_app, puts_app, batch_calls_app, Hs, Hp, Hb.
      change (puts [EPutRecord (dlq_stream_name self) (fst r) (snd r)
                      (PutFail (ClientError code));
                    ELog "error" "dlq_publish_failed"])
        with (puts [EPutRecord (dlq_stream_name self) (fst r) (snd r)
                      (PutFail (ClientError code))] ++ []).
      rewrite Hput. simpl. rewrite app_nil_r.
      repeat split; auto; try lia; discriminate.
  - rewrite (bind_Raise _ _ _ _ _ Hloop).
    exists t, k, p, 0. simpl. rewrite app_nil_r.
    repeat split; auto; try lia; discriminate.
Qed.

End ProducerBounds.

Lemma throttled_event_makes_four_calls :
  exists t k p q,
    trace (snd (send_event StreamFixture.always_throttled StreamFixture.producer
                  StreamFixture.record StreamFixture.world))
    = trace StreamFixture.world ++ t
    /\ k <= p /\ p <= S k /\ p <= 3 /\ q <= 1
    /\ sleeps t = map (backoff StreamFixture.producer) (seq 0 k)
    /\ puts t = repeat ("healthcare-events", StreamFixture.wire) p
                ++ repeat ("healthcare-events-dlq", StreamFixture.wire) q
    /\ batch_calls t = 0
    /\ (fst (send_event StreamFixture.always_throttled StreamFixture.producer
               StreamFixture.record StreamFixture.world) = Ok true ->
        q = 0 /\ p = S k)
    /\ (fst (send_event StreamFixture.always_throttled StreamFixture.producer
               StreamFixture.record StreamFixture.world) = Ok false -> q = 1).
Proof.
  exact (send_event_makes_bounded_calls StreamFixture.always_throttled
           StreamFixture.producer StreamFixture.record StreamFixture.world
           StreamFixture.wire fixture_wire).
Defined.

(** ** What [send_batch] reports *)

Section BatchSummary.

Import Event.

Context (client_put_record :
           list effect -> string -> list N -> option string -> put_outcome)
        (client_put_records :
           list effect -> string -> list (list N * option string)
           -> put_records_outcome)
        (self : KinesisProducer).

Lemma failed_records_bound (records : list (list N * option string)) results :
  length (failed_records records results)
  <= Nat.min (length records) (length results).
Proof.
  unfold failed_records. rewrite length_map.
  etransitivity; [apply List.filter_length_le|].
  rewrite length_combine. reflexivity.
Qed.

(** X13.  When the stream answers [put_records], the summary of
    [send_batch] repeats the stream's own [FailedRecordCount], zero when
    the answer has none: [total] is the number of events and [success] is
    [total - failed] in every case.  Which events are dead-lettered is
    decided apart from it: none unless the count is positive, and then the
    events paired by [zip] with an entry that carries an [ErrorCode], so
    never more than the answer has entries. *)
Theorem batch_summary_repeats_the_count_of_the_stream
    events records w failed_count results :
  Forall2 (fun event r => wire_of (heap w) event = Some r) events records ->
  client_errors_only client_put_record ->
  client_put_records (trace w) (stream_name self) records
  = BatchOk failed_count results ->
  exists w' t,
    send_batch client_put_record client_put_records self events w
    = (Ok {| total := Z.of_nat (length events);
             success := Z.of_nat (length events) - default 0%Z failed_count;
             failed := default 0%Z failed_count |}, w')
    /\ trace w' = trace w ++ t
    /\ batch_calls t = 1
    /\ map fst (puts_on (dlq_stream_name self) t)
       = (if (0 <? default 0 failed_count)%Z
          then failed_records records results
          else [])
    /\ length (puts_on (dlq_stream_name self) t)
       <= Nat.min (length events) (length results).
Proof.
  intros Hw Hce Hans.
  unfold Producer.send_batch.
  rewrite (bind_Ok _ _ _ _ _ (map_M_wire_record _ _ _ Hw)).
  unfold except_ClientError.
  assert (Hput : put_records client_put_records (stream_name self) records w
                 = (Ok (failed_count, results),
                    emit (EPutRecords (stream_name self) records
                            (BatchOk failed_count results)) w))
    by (rewrite put_records_eval, Hans; reflexivity).
  rewrite (bind_Ok _ _ _ _ _ Hput).
  cbv beta iota zeta delta [fst snd].
  set (w1 := emit _ w).
  set (w2 := emit (ELog "info" "batch_published") w1).
  rewrite (bind_Ok _ _ w1 tt w2 eq_refl).
  assert (Hw2 : Forall2 (fun event r => wire_of (heap w2) event = Some r)
                  events records) by exact Hw.
  destruct (_handle_failed_records_eval client_put_record self
              events records results Hce w2 Hw2)
    as (w3 & t & Hh & _ & Ht & Hb & Hp).
  destruct (0 <? default 0 failed_count)%Z eqn:Hk.
  - rewrite (bind_Ok _ _ _ _ _ Hh).
    exists w3, ([EPutRecords (stream_name self) records
                   (BatchOk failed_count results);
                 ELog "info" "batch_published"] ++ t).
    split; [reflexivity|].
    split; [rewrite Ht; unfold w2, w1; simpl; rewrite <- !app_assoc;
            reflexivity|].
    rewrite batch_calls_app, puts_on_app, Hb. simpl.
    split; [reflexivity|]. split; [exact Hp|].
    rewrite <- (length_map fst), Hp.
    rewrite (Forall2_length _ _ _ Hw). apply failed_records_bound.
  - exists w2, [EPutRecords (stream_name self) records
                  (BatchOk failed_count results);
                ELog "info" "batch_published"].
    split; [reflexivity|].
    split; [unfold w2, w1; simpl; rewrite <- !app_assoc; reflexivity|].
    simpl. repeat split; auto. lia.
Qed.

End BatchSummary.

Lemma miscounted_batch_is_not_dead_lettered :
  exists w' t,
    send_batch StreamFixture.primary_unavailable BatchFixture.miscounted
      StreamFixture.producer StreamFixture.batch StreamFixture.world
    = (Ok {| total := 3; success := 3; failed := 0 |}, w')
    /\ trace w' = trace StreamFixture.world ++ t
    /\ batch_calls t = 1
    /\ map fst (puts_on "healthcare-events-dlq" t) = []
    /\ length (puts_on "healthcare-events-dlq" t) <= 3.
Proof.
  exact (batch_summary_repeats_the_count_of_the_stream
           StreamFixture.primary_unavailable BatchFixture.miscounted
           StreamFixture.producer StreamFixture.batch
           [StreamFixture.wire; StreamFixture.wire; StreamFixture.wire]
           StreamFixture.world (Some 0%Z) StreamFixture.second_rejected
           fixture_batch_wire primary_unavailable_client_errors eq_refl).
Defined.

(** ** The consumer on a failing stream, and the default processor *)

Section ConsumerPolling.

Context {data_t handler_t : Type}
        (json_loads : list N -> option data_t)
        (processor : data_t -> handler_t -> bool * handler_t)
        (client_get_shard_iterator :
           list cevent -> string -> string -> iterator_type
           -> get_iterator_outcome)
        (client_get_records : list cevent -> string -> nat -> get_records_outcome)
        (stop_called : list cevent -> bool).

(** X14.  The loop of [_consume_shard] never gives up on a stream that
    keeps answering [get_records] with a client error other than the
    expiry of the iterator: as long as nobody calls [stop], every turn
    logs the error, sleeps five seconds and asks again with the same
    iterator.  No number of turns ends the loop; the handler and the
    checkpoints are not touched. *)
Theorem consumer_polls_a_failing_stream_forever
    shard iterator code fuel (c : KinesisConsumer handler_t) :
  running c = true ->
  iterator <> EmptyString ->
  code <> "ExpiredIteratorException" ->
  (forall history, stop_called history = false) ->
  (forall history,
     client_get_records history iterator 100 = RecordsFail (ClientError code)) ->
  exists c',
    consume_loop json_loads processor client_get_shard_iterator
                 client_get_records stop_called fuel shard (Some iterator) c
    = (OutOfFuel, c')
    /\ events c' = events c ++ failed_polls shard iterator code fuel
    /\ checkpoint_table c' = checkpoint_table c
    /\ handler c' = handler c
    /\ running c' = true.
Proof.
  intros Hrun Hit Hcode Hstop Hfail. revert c Hrun.
  induction fuel as [|fuel IH]; intros c Hrun.
  - exists c. unfold failed_polls. simpl. rewrite app_nil_r. auto.
  - cbn [Consumer.consume_loop].
    unfold poll_stop. rewrite Hstop, Hrun.
    assert (Htruthy : iterator_truthy (Some iterator) = true)
      by (destruct iterator; [congruence|reflexivity]).
    rewrite Htruthy. cbn [andb default from_option id].
    rewrite Hfail.
    apply String.eqb_neq in Hcode. rewrite Hcode.
    match goal with
    | |- context [consume_loop _ _ _ _ _ fuel shard (Some iterator) ?c2] =>
        destruct (IH c2 Hrun) as (c' & Hl & He & Hc & Hh & Hr)
    end.
    exists c'. split; [exact Hl|].
    split; [|auto].
    rewrite He. simpl. unfold failed_polls. simpl.
    rewrite <- !app_assoc. reflexivity.
Qed.

End ConsumerPolling.

Lemma unavailable_stream_is_polled_three_times :
  exists c',
    consume_loop ConsumerFixture.loads ConsumerFixture.counting
                 ConsumerFixture.get_shard_iterator PollFixture.unavailable
                 ConsumerFixture.never_stopped 3 ConsumerFixture.shard
                 (Some "iterator-1") PollFixture.consumer
    = (OutOfFuel, c')
    /\ events c'
       = events PollFixture.consumer
         ++ failed_polls ConsumerFixture.shard "iterator-1" "InternalFailure" 3
    /\ checkpoint_table c' = checkpoint_table PollFixture.consumer
    /\ handler c' = handler PollFixture.consumer
    /\ running c' = true.
Proof.
  apply (consumer_polls_a_failing_stream_forever
           ConsumerFixture.loads ConsumerFixture.counting
           ConsumerFixture.get_shard_iterator PollFixture.unavailable
           ConsumerFixture.never_stopped ConsumerFixture.shard
           "iterator-1" "InternalFailure" 3 PollFixture.consumer).
  - reflexivity.
  - discriminate.
  - discriminate.
  - reflexivity.
  - reflexivity.
Defined.

Section DefaultProcessor.

Import Event.

Context (json_loads : list N -> option pyval).

(** X15.  With the default processor a record is handled, and the
    checkpoint of its shard moves to it, exactly when its data decodes to
    a JSON object; the handler then logs the [event_id] of the object.
    Any other JSON value, and data that does not decode, is logged as a
    processing error and leaves the checkpoint alone.  A record that
    [send_event] or [send_batch] wrote is thus handled, once
    [json.loads] reads it back as the object that was written. *)
Theorem default_processor_handles_json_objects
    shard (c : KinesisConsumer (list (option pyval))) record :
  (forall d,
     json_loads (Data record) = Some (VDict d) ->
     checkpoint_table (process_record json_loads _default_processor shard c record)
     !! shard = Some (SequenceNumber record)
     /\ handler (process_record json_loads _default_processor shard c record)
        = handler c ++ [dict_get d "event_id"]
     /\ events (process_record json_loads _default_processor shard c record)
        = events c ++ [CHandled (SequenceNumber record) true])
  /\ ((forall d, json_loads (Data record) <> Some (VDict d)) ->
      checkpoint_table (process_record json_loads _default_processor shard c record)
      = checkpoint_table c
      /\ handler (process_record json_loads _default_processor shard c record)
         = handler c
      /\ error_lines
           (skipn (length (events c))
              (events (process_record json_loads _default_processor
                         shard c record)))
         = [SequenceNumber record])
  /\ (forall h event d written,
        h !! payload (base event) = Some (ODict d) ->
        wire_of h event = Some written ->
        Data record = fst written ->
        json_loads (fst written)
        = Some (VDict (Json.dump_processed_fields event d)) ->
        checkpoint_table
          (process_record json_loads _default_processor shard c record)
        !! shard = Some (SequenceNumber record)
        /\ handler (process_record json_loads _default_processor shard c record)
           = handler c ++ [Some (Json.opt_str (event_id (base event)))]).
Proof.
  assert (Hobject : forall d,
     json_loads (Data record) = Some (VDict d) ->
     checkpoint_table (process_record json_loads _default_processor shard c record)
     !! shard = Some (SequenceNumber record)
     /\ handler (process_record json_loads _default_processor shard c record)
        = handler c ++ [dict_get d "event_id"]
     /\ events (process_record json_loads _default_processor shard c record)
        = events c ++ [CHandled (SequenceNumber record) true]).
  { intros d Hd. unfold Consumer.process_record. rewrite Hd. simpl.
    rewrite lookup_insert_eq. auto. }
  split; [exact Hobject|]. split.
  - intros Hnot. unfold Consumer.process_record.
    destruct (json_loads (Data record)) as [v|] eqn:Hv.
    + destruct v as [|b|z|f|s|l|d]; try (exfalso; exact (Hnot d eq_refl)).
      all: simpl; rewrite <- ?app_assoc, drop_app_length; simpl; auto.
    + simpl. rewrite drop_app_length. simpl. auto.
  - intros h event d written Hp Hw Hdata Hloads.
    rewrite <- Hdata in Hloads.
    destruct (Hobject _ Hloads) as (Hc & Hh & _).
    split; [exact Hc|]. rewrite Hh. reflexivity.
Qed.

End DefaultProcessor.

(** ** Health checks *)

Section HealthFacts.

Import Event Health.

(** X16.  [detailed_health_check] answers for every behaviour of its two
    dependencies, exceptions included, and its answer is either
    [healthy] or [degraded].  It is [healthy] exactly when the database
    returned a row whose [health_check] is equal to 1 and the description
    of the stream holds the status [ACTIVE]; a dependency that raised is
    reported with the status [error] and makes the answer [degraded]. *)
Theorem health_is_reported_healthy_iff_both_dependencies_are db stream now :
  (overall (detailed_health_check db stream now) = "healthy"
   <-> (exists row,
          db = Fetched (Some row)
          /\ Py.eq_int (dict_get row "health_check") 1 = true)
       /\ (exists response description,
             stream = Described (VDict response)
             /\ dict_get response "StreamDescription" = Some (VDict description)
             /\ dict_get description "StreamStatus" = Some (VStr "ACTIVE")))
  /\ (overall (detailed_health_check db stream now) = "healthy"
      \/ overall (detailed_health_check db stream now) = "degraded")
  /\ (forall e, db = DbRaises e ->
        database (detailed_health_check db stream now)
        = {| healthy := false; status := VStr "error"; error := Some e |}
        /\ overall (detailed_health_check db stream now) = "degraded")
  /\ (forall e, stream = DescribeRaises e ->
        kinesis (detailed_health_check db stream now)
        = {| healthy := false; status := VStr "error"; error := Some e |}
        /\ overall (detailed_health_check db stream now) = "degraded").
Proof.
  assert (Hdb : healthy (get_db_health db) = true
                <-> exists row,
                      db = Fetched (Some row)
                      /\ Py.eq_int (dict_get row "health_check") 1 = true).
  { destruct db as [[row|]|e]; simpl.
    - split; [intros H; exists row; auto|].
      intros (row' & Hr & H). inversion Hr; subst. exact H.
    - split; [discriminate|]. intros (row' & Hr & _). discriminate Hr.
    - split; [discriminate|]. intros (row' & Hr & _). discriminate Hr. }
  assert (Hkin : healthy (get_kinesis_health stream) = true
                 <-> exists response description,
                       stream = Described (VDict response)
                       /\ dict_get response "StreamDescription"
                          = Some (VDict description)
                       /\ dict_get description "StreamStatus"
                          = Some (VStr "ACTIVE")).
  { split.
    - destruct stream as [response|e]; [|discriminate].
      destruct response as [|b|z|f|s|l|response]; try discriminate;
        try (unfold get_kinesis_health, Py.subscript; simpl;
             repeat match goal with
                    | |- context [match ?x with _ => _ end] => destruct x
                    end; discriminate).
      unfold get_kinesis_health. cbn [Py.subscript].
      destruct (dict_get response "StreamDescription") as [description|] eqn:Hd;
        [|discriminate].
      destruct description as [|b|z|f|s|l|description]; try discriminate;
        try (unfold Py.subscript; simpl;
             repeat match goal with
                    | |- context [match ?x with _ => _ end] => destruct x
                    end; discriminate).
      cbn [Py.subscript].
      destruct (dict_get description "StreamStatus") as [st|] eqn:Hs;
        [|discriminate].
      simpl. intros H. destruct st as [| | | |s| |]; try discriminate H.
      simpl in H. apply String.eqb_eq in H. subst s. eauto.
    - intros (response & description & -> & Hd & Hs).
      unfold get_kinesis_health. cbn [Py.subscript]. rewrite Hd.
      cbn [Py.subscript]. rewrite Hs. reflexivity. }
  unfold detailed_health_check. cbn [overall database kinesis forallb id].
  split; [|split; [|split]].
  - rewrite <- Hdb, <- Hkin.
    destruct (healthy (get_db_health db)),
             (healthy (get_kinesis_health stream)); simpl;
      split; try tauto; try discriminate; intros [? ?]; discriminate.
  - destruct (healthy (get_db_health db)),
             (healthy (get_kinesis_health stream)); simpl; auto.
  - intros e ->. simpl. auto.
  - intros e ->. simpl.
    destruct (healthy (get_db_health db)); auto.
Qed.

End HealthFacts.

(** ** Time series *)

Section TimeSeriesFacts.

Import Event Analytics.

Context (db_execute : string -> list (string * string) -> Health.db_answer)
        (float : Type)
        (float_sum float_average float_min float_max : list float -> float)
        (float_of_Z : Z -> float)
        (validate_datetime : pyval -> option string)
        (validate_float : pyval -> option float).

Local Abbreviation get_timeseries' :=
  (get_timeseries db_execute float float_sum float_average float_min float_max
     float_of_Z validate_datetime validate_float).

Local Abbreviation get_timeseries_data' :=
  (get_timeseries_data db_execute float float_sum float_average float_min
     float_max float_of_Z validate_datetime validate_float).

(** A key of the row is a string, and a string has no item
    [bucket_time]. *)
Lemma data_points_of_keys keys :
  data_points_of float validate_datetime validate_float (map VStr keys)
  = match keys with
    | [] => Py.Value []
    | _ :: _ => Py.Raises Py.TypeError
    end.
Proof. destruct keys; reflexivity. Qed.

(** X17.  [get_timeseries] never returns a data point.  [execute_query]
    gives it the first row as a [dict], and the loop that should walk over
    rows walks over the keys of this [dict]: when the query finds a row,
    the first key, a string, is asked for its item [bucket_time] and
    [TypeError] is raised, which the route does not catch.  When the query
    finds no row, the answer is the empty series, with all four figures
    zero.  An error of the database is passed on. *)
Theorem timeseries_never_holds_a_data_point
    metric_ time_range aggregation_ provider_id :
  let request := timeseries_request metric_ time_range aggregation_ provider_id in
  let empty_series :=
    {| metric := metric_;
       aggregation := aggregation_;
       data_points := [];
       total := float_of_Z 0;
       average := float_of_Z 0;
       min_value := float_of_Z 0;
       max_value := float_of_Z 0 |} in
  (forall column rest,
     db_execute (fst request) (snd request)
     = Health.Fetched (Some (column :: rest)) ->
     get_timeseries' metric_ time_range aggregation_ provider_id
     = Py.Raises Py.TypeError
     /\ (In metric_ valid_metrics ->
         get_timeseries_data' metric_ time_range aggregation_ provider_id
         = Uncaught Py.TypeError))
  /\ (db_execute (fst request) (snd request) = Health.Fetched None
      \/ db_execute (fst request) (snd request) = Health.Fetched (Some []) ->
      get_timeseries' metric_ time_range aggregation_ provider_id
      = Py.Value empty_series)
  /\ (forall e,
        db_execute (fst request) (snd request) = Health.DbRaises e ->
        get_timeseries' metric_ time_range aggregation_ provider_id
        = Py.Raises e)
  /\ (forall series,
        get_timeseries' metric_ time_range aggregation_ provider_id
        = Py.Value series ->
        series = empty_series)
  /\ (forall series,
        get_timeseries_data' metric_ time_range aggregation_ provider_id
        = Body series ->
        series = empty_series).
Proof.
  intros request empty_series.
  assert (Hcases :
    get_timeseries' metric_ time_range aggregation_ provider_id
    = match db_execute (fst request) (snd request) with
      | Health.Fetched (Some (_ :: _)) => Py.Raises Py.TypeError
      | Health.Fetched _ => Py.Value empty_series
      | Health.DbRaises e => Py.Raises e
      end).
  { unfold get_timeseries. fold request.
    destruct (db_execute (fst request) (snd request)) as [[[|[k v] row]|]|e];
      reflexivity. }
  assert (Hvalue : forall series,
            get_timeseries' metric_ time_range aggregation_ provider_id
            = Py.Value series -> series = empty_series).
  { intros series. rewrite Hcases.
    destruct (db_execute (fst request) (snd request)) as [[[|[k v] row]|]|e];
      intros H; inversion H; reflexivity. }
  split; [|split; [|split; [|split]]].
  - intros column rest Hdb.
    assert (Hraise : get_timeseries' metric_ time_range aggregation_ provider_id
                     = Py.Raises Py.TypeError)
      by (rewrite Hcases, Hdb; reflexivity).
    split; [exact Hraise|].
    intros Hin. unfold get_timeseries_data.
    assert (Hvalid : existsb (String.eqb metric_) valid_metrics = true).
    { apply existsb_exists. exists metric_. split; [exact Hin|].
      apply String.eqb_refl. }
    rewrite Hvalid, Hraise. reflexivity.
  - intros [Hdb|Hdb]; rewrite Hcases, Hdb; reflexivity.
  - intros e Hdb. rewrite Hcases, Hdb. reflexivity.
  - exact Hvalue.
  - intros series. unfold get_timeseries_data.
    destruct (negb (existsb (String.eqb metric_) valid_metrics)); [discriminate|].
    destruct (get_timeseries' metric_ time_range aggregation_ provider_id)
      as [data|e] eqn:Hg; [|discriminate].
    intros H. inversion H; subst. apply Hvalue. reflexivity.
Qed.

(** X18.  Whatever strings a caller passes, the text of the statement of
    [get_timeseries] is one of eight fixed texts: that of one of the four
    metrics, with or without the filter on the provider.  An unknown
    metric counts events, an unknown time range means 24 hours.  The
    provider identifier reaches the database as a bound parameter only,
    and an empty one is treated like none. *)
Theorem timeseries_statement_is_fixed_text
    metric_ time_range aggregation_ provider_id :
  (exists m,
     In m valid_metrics
     /\ fst (timeseries_request metric_ time_range aggregation_ provider_id)
        = fst (timeseries_request m "24h" HOUR
                 (if given provider_id then Some "x" else None))
     /\ (In metric_ valid_metrics -> m = metric_)
     /\ (~ In metric_ valid_metrics -> m = "event_count"))
  /\ (exists interval bucket,
        In interval ["INTERVAL '1 hour'"; "INTERVAL '24 hours'";
                     "INTERVAL '7 days'"; "INTERVAL '30 days'"]
        /\ In bucket ["1 minute"; "1 hour"; "1 day"; "1 week"]
        /\ (~ In time_range ["1h"; "24h"; "7d"; "30d"] ->
            interval = "INTERVAL '24 hours'")
        /\ snd (timeseries_request metric_ time_range aggregation_ provider_id)
           = [("interval", interval); ("bucket", bucket)]
             ++ match provider_id with
                | Some (String c p) => [("provider_id", String c p)]
                | _ => []
                end).
Proof.
  split.
  - assert (Hm : exists m,
              In m valid_metrics
              /\ metric_column metric_ = metric_column m
              /\ (In metric_ valid_metrics -> m = metric_)
              /\ (~ In metric_ valid_metrics -> m = "event_count")).
    { unfold metric_column, valid_metrics.
      destruct (String.eqb_spec metric_ "event_count") as [->|H1];
        [exists "event_count"; simpl; repeat split; auto; tauto|].
      destruct (String.eqb_spec metric_ "unique_patients") as [->|H2];
        [exists "unique_patients"; simpl; repeat split; auto; tauto|].
      destruct (String.eqb_spec metric_ "error_rate") as [->|H3];
        [exists "error_rate"; simpl; repeat split; auto; tauto|].
      destruct (String.eqb_spec metric_ "latency_p99") as [->|H4];
        [exists "latency_p99"; simpl; repeat split; auto; tauto|].
      exists "event_count". simpl. repeat split; auto.
      intros [E|[E|[E|[E|[]]]]]; congruence. }
    destruct Hm as (m & Hin & Hcol & Hsame & Hother).
    exists m. split; [exact Hin|]. split; [|auto].
    unfold timeseries_request. cbn [fst]. rewrite Hcol.
    destruct provider_id as [[|c p]|]; reflexivity.
  - exists (_parse_time_range time_range), (_get_bucket_interval aggregation_).
    split.
    { unfold _parse_time_range.
      repeat match goal with
             | |- context [String.eqb ?a ?b] => destruct (String.eqb a b)
             end; simpl; auto. }
    split; [destruct aggregation_; simpl; auto|].
    split.
    { intros Hnot. unfold _parse_time_range.
      repeat match goal with
             | |- context [String.eqb ?a ?b] =>
                 destruct (String.eqb_spec a b) as [->|?]
             end; try reflexivity; exfalso; apply Hnot; simpl; auto. }
    unfold timeseries_request. cbn [snd].
    destruct provider_id as [[|c p]|]; reflexivity.
Qed.

End TimeSeriesFacts.

(** A bucket in the database is answered with [TypeError]. *)
Example one_bucket_raises_type_error :
  Analytics.get_timeseries AnalyticsFixture.one_bucket Z
    (fun _ => 0%Z) (fun _ => 0%Z) (fun _ => 0%Z) (fun _ => 0%Z) id
    (fun _ => Some EmptyString) (fun _ => Some 0%Z)
    "event_count" "24h" Analytics.HOUR None
  = Py.Raises Py.TypeError.
Proof. reflexivity. Qed.

(** ** The batch route and the status route *)

Section RouteFacts.

Import Event Routes.

Context (cipher : nat -> string -> option string)
        (utcnow : nat -> string) (redis_up : nat -> bool)
        (py_str : pyval -> string)
        (settings : Settings)
        (exn_str : exn -> string)
        (expired : nat -> string -> bool).

Local Abbreviation process' :=
  (process cipher (KMS_KEY_ID settings) utcnow redis_up py_str).
Local Abbreviation ingest_one' :=
  (ingest_one cipher utcnow redis_up py_str settings exn_str).
Local Abbreviation ingest_batch' :=
  (ingest_batch cipher utcnow redis_up py_str settings exn_str).

(** The event at [ev], with its payload dictionary, in a heap. *)
Local Abbreviation holds h ev :=
  (exists e d, h !! ev = Some (OEvent e) /\ h !! payload e = Some (ODict d)).

(** One turn of the loop of [ingest_batch]. *)
Lemma ingest_one_cases ev w tasks e d :
  heap w !! ev = Some (OEvent e) ->
  heap w !! payload e = Some (ODict d) ->
  ingest_one' ev (w, tasks)
  = match process' ev w with
    | (Ok pe, w1) =>
        match event_id e with
        | Some id =>
            (Ok {| response_event_id := id;
                   response_status := "accepted";
                   response_timestamp := utcnow (clock_reads w1);
                   response_error := None |},
             (tick w1, tasks ++ [pe]))
        | None =>
            (Ok {| response_event_id := "unknown";
                   response_status := "rejected";
                   response_timestamp := utcnow (S (clock_reads w1));
                   response_error :=
                     Some (exn_str
                             (ValidationError
                                [value_error "event_id"
                                   "Input should be a valid string"])) |},
             (tick (tick w1), tasks ++ [pe]))
        end
    | (Raise ex, w1) =>
        (Ok {| response_event_id := or_unknown (event_id e);
               response_status := "rejected";
               response_timestamp := utcnow (clock_reads w1);
               response_error := Some (exn_str ex) |},
         (tick w1, tasks))
    end.
Proof.
  intros He Hd.
  unfold ingest_one, try_except, R_bind, lift. cbn [fst snd].
  destruct (process' ev w) as [[pe|ex] w1] eqn:Hp.
  - destruct (process_inv _ _ _ _ _ _ _ _ _ _ _ He Hd Hp) as [Hsub Hpe].
    destruct (Hpe pe eq_refl) as (_ & _ & _ & _ & Hid & _).
    unfold add_task. cbn [fst snd]. rewrite (datetime_utcnow_eval utcnow w1).
    rewrite Hid. unfold EventResponse_new.
    destruct (event_id e) as [id|] eqn:Hev; [reflexivity|].
    cbn [fst snd].
    assert (He1 : heap (tick w1) !! ev = Some (OEvent e))
      by (simpl; eapply lookup_weaken; [exact He|exact Hsub]).
    rewrite (read_event_Some _ _ _ He1).
    cbv beta iota zeta delta [datetime_utcnow fst snd R_ret EventResponse_new
                              or_unknown].
    rewrite Hev. reflexivity.
  - destruct (process_inv _ _ _ _ _ _ _ _ _ _ _ He Hd Hp) as [Hsub _].
    assert (He1 : heap w1 !! ev = Some (OEvent e))
      by (eapply lookup_weaken; [exact He|exact Hsub]).
    cbn [fst snd]. rewrite (read_event_Some _ _ _ He1). reflexivity.
Qed.

(** How a response relates to the event it answers. *)
Local Abbreviation answers h :=
  (fun ev response =>
     exists e,
       h !! ev = Some (OEvent e)
       /\ (response_status response = "accepted"
           /\ event_id e = Some (response_event_id response)
           /\ response_error response = None
           \/ response_status response = "rejected"
              /\ response_event_id response = or_unknown (event_id e)
              /\ response_error response <> None)).

Lemma holds_later (h h' : gmap loc pyobj) ev :
  h ⊆ h' -> holds h ev -> holds h' ev.
Proof.
  intros Hsub (e & d & He & Hd). exists e, d.
  split; eapply lookup_weaken; eassumption.
Qed.

Lemma Forall2_with_Forall {A B} (P P' : A -> B -> Prop) (Q : A -> Prop) l rs :
  (forall x r, Q x -> P x r -> P' x r) ->
  Forall Q l -> Forall2 P l rs -> Forall2 P' l rs.
Proof.
  intros Himp Hq H2. induction H2 as [|x r l rs Hp H2 IH]; constructor.
  - inversion Hq; subst. auto.
  - inversion Hq; subst. auto.
Qed.

Lemma answers_earlier (h h' : gmap loc pyobj) ev response :
  h ⊆ h' -> holds h ev -> answers h' ev response -> answers h ev response.
Proof.
  intros Hsub (e & d & He & _) (e' & He' & Hr).
  pose proof (lookup_weaken _ _ _ _ He Hsub) as He''.
  rewrite He' in He''. inversion He''; subst e'.
  exists e. auto.
Qed.

(** The loop of [ingest_batch]. *)
Lemma map_ingest_spec events : forall w tasks,
  Forall (fun ev => holds (heap w) ev) events ->
  exists responses w' queued,
    map_R ingest_one' events (w, tasks) = (Ok responses, (w', tasks ++ queued))
    /\ heap w ⊆ heap w'
    /\ trace w' = trace w
    /\ Forall2 (answers (heap w)) events responses
    /\ map response_event_id (List.filter is_accepted responses)
       = omap (fun pe => event_id (base pe)) queued
    /\ length queued <= length events.
Proof.
  induction events as [|ev events IH]; intros w tasks Hall.
  - exists [], w, []. cbn [map_R R_ret]. rewrite app_nil_r.
    repeat split; auto; constructor.
  - inversion Hall as [|? ? (e & d & He & Hd) Hrest]; subst.
    cbn [map_R]. unfold R_bind at 1.
    rewrite (ingest_one_cases ev w tasks e d He Hd).
    destruct (process' ev w) as [[pe|ex] w1] eqn:Hp;
      destruct (process_inv _ _ _ _ _ _ _ _ _ _ _ He Hd Hp) as [Hsub Hpe];
      destruct (process_full _ _ _ _ _ _ _ _ _ _ _ He Hd Hp) as [Htr _].
    + destruct (Hpe pe eq_refl) as (_ & _ & _ & _ & Hid & _).
      assert (Hall1 : forall w2, heap w2 = heap w1 ->
                Forall (fun ev => holds (heap w2) ev) events).
      { intros w2 Hw2. eapply Forall_impl; [exact Hrest|].
        intros ev' Hev'. rewrite Hw2. exact (holds_later _ _ _ Hsub Hev'). }
      destruct (event_id e) as [id|] eqn:Hev.
      * destruct (IH (tick w1) (tasks ++ [pe]) (Hall1 _ eq_refl))
          as (rs & w' & q & Hm & Hsub' & Htr' & Hans & Hacc & Hlen).
        unfold R_bind. rewrite Hm. cbn [R_ret].
        exists ({| response_event_id := id;
                   response_status := "accepted";
                   response_timestamp := utcnow (clock_reads w1);
                   response_error := None |} :: rs), w', (pe :: q).
        split; [rewrite <- app_assoc; reflexivity|].
        split; [etrans; [exact Hsub|exact Hsub']|].
        split; [rewrite Htr'; exact Htr|].
        split.
        { constructor.
          - exists e. split; [exact He|]. left. rewrite Hev. auto.
          - eapply Forall2_with_Forall; [|exact Hrest|exact Hans].
            intros ev' r Hh Ha. exact (answers_earlier _ _ _ _ Hsub Hh Ha). }
        split; [|simpl; lia].
        simpl. rewrite Hid. simpl. f_equal. exact Hacc.
      * destruct (IH (tick (tick w1)) (tasks ++ [pe]) (Hall1 _ eq_refl))
          as (rs & w' & q & Hm & Hsub' & Htr' & Hans & Hacc & Hlen).
        unfold R_bind. rewrite Hm. cbn [R_ret].
        eexists (_ :: rs), w', (pe :: q).
        split; [rewrite <- app_assoc; reflexivity|].
        split; [etrans; [exact Hsub|exact Hsub']|].
        split; [rewrite Htr'; exact Htr|].
        split.
        { constructor.
          - exists e. split; [exact He|]. right. rewrite Hev.
            repeat split; auto; discriminate.
          - eapply Forall2_with_Forall; [|exact Hrest|exact Hans].
            intros ev' r Hh Ha. exact (answers_earlier _ _ _ _ Hsub Hh Ha). }
        split; [|simpl; lia].
        simpl. rewrite Hid. exact Hacc.
    + assert (Hall1 : Forall (fun ev => holds (heap (tick w1)) ev) events).
      { eapply Forall_impl; [exact Hrest|].
        intros ev' Hev'. exact (holds_later _ _ _ Hsub Hev'). }
      destruct (IH (tick w1) tasks Hall1)
        as (rs & w' & q & Hm & Hsub' & Htr' & Hans & Hacc & Hlen).
      unfold R_bind. rewrite Hm. cbn [R_ret].
      eexists (_ :: rs), w', q.
      split; [reflexivity|].
      split; [etrans; [exact Hsub|exact Hsub']|].
      split; [rewrite Htr'; exact Htr|].
      split.
      { constructor.
        - exists e. split; [exact He|]. right.
          repeat split; auto; discriminate.
        - eapply Forall2_with_Forall; [|exact Hrest|exact Hans].
          intros ev' r Hh Ha. exact (answers_earlier _ _ _ _ Hsub Hh Ha). }
      split; [|simpl; lia].
      simpl. exact Hacc.
Qed.

(** X19.  [ingest_batch] answers a request of more than 500 events, which
    only a request built without validation can hold, with the status 400
    and touches nothing.  Otherwise it returns one response
    for each event, in the order of the request, and an event on which
    processing raises does not keep the later ones from being processed:
    a response is [accepted] with the identifier of its event and no
    error, or [rejected] with an error text and the identifier of the
    event, [unknown] when it has none.  The accepted responses are, in
    order, those of the queued records that have an identifier; the route
    itself calls no stream. *)
Theorem ingest_batch_answers_every_event events w tasks :
  Forall (fun ev => holds (heap w) ev) events ->
  (500 < length events ->
   ingest_batch' events (w, tasks)
   = (Ok (Auth.HTTPException 400 "Batch size exceeds maximum of 500 events"),
      (w, tasks)))
  /\ (length events <= 500 ->
      exists responses w' queued,
        ingest_batch' events (w, tasks)
        = (Ok (Auth.Returned responses), (w', tasks ++ queued))
        /\ length responses = length events
        /\ Forall2 (answers (heap w)) events responses
        /\ map response_event_id (List.filter is_accepted responses)
           = omap (fun pe => event_id (base pe)) queued
        /\ length queued <= length events
        /\ calls (trace w') = calls (trace w)).
Proof.
  intros Hall. split.
  - intros Hlen. unfold ingest_batch.
    apply Nat.ltb_lt in Hlen. rewrite Hlen. reflexivity.
  - intros Hlen. unfold ingest_batch.
    assert (Hle : Nat.ltb 500 (length events) = false)
      by (apply Nat.ltb_ge; exact Hlen).
    rewrite Hle.
    destruct (map_ingest_spec events w tasks Hall)
      as (rs & w' & q & Hm & _ & Htr & Hans & Hacc & Hq).
    exists rs, (emit (ELog "info" "batch_ingested") w'), q.
    split; [unfold R_bind; rewrite Hm; reflexivity|].
    split; [symmetry; eapply Forall2_length, Hans|].
    split; [exact Hans|]. split; [exact Hacc|]. split; [exact Hq|].
    simpl. rewrite calls_app, Htr. simpl. apply app_nil_r.
Qed.

(** X20.  An event whose [event_id] is null and which [process] handles
    is queued for publishing and, in the same turn, reported as rejected
    under the name [unknown]: the task is added before the response is
    built, and the accepted response cannot be built without an
    identifier. *)
Theorem event_without_identifier_is_queued_and_rejected
    ev w tasks e d pe w1 :
  heap w !! ev = Some (OEvent e) ->
  heap w !! payload e = Some (ODict d) ->
  event_id e = None ->
  process' ev w = (Ok pe, w1) ->
  ingest_one' ev (w, tasks)
  = (Ok {| response_event_id := "unknown";
           response_status := "rejected";
           response_timestamp := utcnow (S (clock_reads w1));
           response_error :=
             Some (exn_str
                     (ValidationError
                        [value_error "event_id"
                           "Input should be a valid string"])) |},
     (tick (tick w1), tasks ++ [pe]))
  /\ ingest_batch' [ev] (w, tasks)
     = (Ok (Auth.Returned
              [ {| response_event_id := "unknown";
                   response_status := "rejected";
                   response_timestamp := utcnow (S (clock_reads w1));
                   response_error :=
                     Some (exn_str
                             (ValidationError
                                [value_error "event_id"
                                   "Input should be a valid string"])) |} ]),
        (emit (ELog "info" "batch_ingested") (tick (tick w1)), tasks ++ [pe])).
Proof.
  intros He Hd Hid Hp.
  assert (Hone : ingest_one' ev (w, tasks)
    = (Ok {| response_event_id := "unknown";
             response_status := "rejected";
             response_timestamp := utcnow (S (clock_reads w1));
             response_error :=
               Some (exn_str
                       (ValidationError
                          [value_error "event_id"
                             "Input should be a valid string"])) |},
       (tick (tick w1), tasks ++ [pe])))
    by (rewrite (ingest_one_cases ev w tasks e d He Hd), Hp, Hid; reflexivity).
  split; [exact Hone|].
  unfold ingest_batch. cbn [length Nat.ltb Nat.leb map_R].
  unfold R_bind. rewrite Hone. reflexivity.
Qed.

(** X21.  The status route reads what [process] cached.  After [process]
    has returned for an event, a request for its identifier, or for
    [None] when it has no identifier, is answered with the status
    [processed] and the time of caching, as long as Redis answered when
    the status was cached, answers now and still holds the entry.  When
    Redis fails now or has dropped the entry, the answer is 404 although
    the event was processed. *)
Theorem status_route_reads_what_process_cached ev w pe w1 e d w2 :
  heap w !! ev = Some (OEvent e) ->
  heap w !! payload e = Some (ODict d) ->
  process' ev w = (Ok pe, w1) ->
  status_store w2 = status_store w1 ->
  (redis_up (clock_reads w + 2) = true ->
   redis_up (clock_reads w2) = true ->
   expired (clock_reads w2) (status_key (event_id e)) = false ->
   get_event_status redis_up expired (PyStr.format_opt (event_id e)) w2
   = (Ok (Auth.Returned ("processed", utcnow (clock_reads w + 1))), w2))
  /\ (redis_up (clock_reads w2) = true ->
      expired (clock_reads w2) (status_key (event_id e)) = true ->
      get_event_status redis_up expired (PyStr.format_opt (event_id e)) w2
      = (Ok (Auth.HTTPException 404 "Event not found"), w2))
  /\ (redis_up (clock_reads w2) = false ->
      get_event_status redis_up expired (PyStr.format_opt (event_id e)) w2
      = (Ok (Auth.HTTPException 404 "Event not found"),
         emit (ELog "warning" "cache_get_error") w2)).
Proof.
  intros He Hd Hp Hstore.
  destruct (process_full _ _ _ _ _ _ _ _ _ _ _ He Hd Hp)
    as (_ & c & d' & _ & _ & _ & _ & _ & _ & _ & _ & _ & Hst).
  unfold get_event_status, get_status, cache_get_status.
  fold (status_key (event_id e)).
  unfold mbind, M_bind. repeat split.
  - intros Hset Hnow Hheld. rewrite Hnow, Hheld, Hstore, Hst, Hset.
    rewrite lookup_insert_eq. reflexivity.
  - intros Hnow Hdropped. rewrite Hnow, Hdropped. reflexivity.
  - intros Hnow. rewrite Hnow. reflexivity.
Qed.

End RouteFacts.

Lemma anonymous_event_in_heap :
  heap RoutesFixture.anonymous_world !! Fixture.sample_loc
  = Some (OEvent RoutesFixture.anonymous_object)
  /\ heap RoutesFixture.anonymous_world
     !! Event.payload RoutesFixture.anonymous_object
     = Some (ODict Sample.payload_dict).
Proof. split; vm_compute; reflexivity. Qed.

Lemma sample_event_is_held :
  exists e d,
    heap Fixture.sample_world !! Fixture.sample_loc = Some (OEvent e)
    /\ heap Fixture.sample_world !! Event.payload e = Some (ODict d).
Proof.
  exists Sample.event, Sample.payload_dict. split; vm_compute; reflexivity.
Qed.

Lemma batch_of_two_is_answered :
  exists responses w' queued,
    Routes.ingest_batch Fixture.mock_cipher Fixture.mock_utcnow
      Fixture.mock_redis Fixture.mock_str default_settings
      RoutesFixture.exn_str [Fixture.sample_loc; Fixture.sample_loc]
      (Fixture.sample_world, [])
    = (Ok (Auth.Returned responses), (w', [] ++ queued))
    /\ length responses = 2
    /\ Forall2
         (fun ev response =>
            exists e,
              heap Fixture.sample_world !! ev = Some (OEvent e)
              /\ (Routes.response_status response = "accepted"
                  /\ Event.event_id e = Some (Routes.response_event_id response)
                  /\ Routes.response_error response = None
                  \/ Routes.response_status response = "rejected"
                     /\ Routes.response_event_id response
                        = Routes.or_unknown (Event.event_id e)
                     /\ Routes.response_error response <> None))
         [Fixture.sample_loc; Fixture.sample_loc] responses
    /\ map Routes.response_event_id (List.filter Routes.is_accepted responses)
       = omap (fun pe => Event.event_id (Event.base pe)) queued
    /\ length queued <= 2
    /\ calls (trace w') = calls (trace Fixture.sample_world).
Proof.
  apply (proj2 (ingest_batch_answers_every_event
                  Fixture.mock_cipher Fixture.mock_utcnow Fixture.mock_redis
                  Fixture.mock_str default_settings RoutesFixture.exn_str
                  [Fixture.sample_loc; Fixture.sample_loc]
                  Fixture.sample_world []
                  (Forall_cons_2 _ _ _ sample_event_is_held
                     (Forall_cons_2 _ _ _ sample_event_is_held
                        (Forall_nil_2 _))))).
  simpl. lia.
Defined.

Lemma anonymous_event_is_queued_and_rejected :
  exists pe w1,
    process Fixture.mock_cipher (KMS_KEY_ID default_settings)
      Fixture.mock_utcnow Fixture.mock_redis Fixture.mock_str
      Fixture.sample_loc RoutesFixture.anonymous_world = (Ok pe, w1)
    /\ Routes.ingest_batch Fixture.mock_cipher Fixture.mock_utcnow
         Fixture.mock_redis Fixture.mock_str default_settings
         RoutesFixture.exn_str [Fixture.sample_loc]
         (RoutesFixture.anonymous_world, [])
       = (Ok (Auth.Returned
                [ {| Routes.response_event_id := "unknown";
                     Routes.response_status := "rejected";
                     Routes.response_timestamp := "2024-01-15T10:30:01";
                     Routes.response_error := Some "validation error" |} ]),
          (emit (ELog "info" "batch_ingested") (tick (tick w1)), [pe])).
Proof.
  exists_outcome
    (process Fixture.mock_cipher (KMS_KEY_ID default_settings)
       Fixture.mock_utcnow Fixture.mock_redis Fixture.mock_str
       Fixture.sample_loc RoutesFixture.anonymous_world).
  assert (Hp : process Fixture.mock_cipher (KMS_KEY_ID default_settings)
                 Fixture.mock_utcnow Fixture.mock_redis Fixture.mock_str
                 Fixture.sample_loc RoutesFixture.anonymous_world = (Ok _, _))
    by (vm_compute; reflexivity).
  split; [exact Hp|].
  exact (proj2 (event_without_identifier_is_queued_and_rejected
                  Fixture.mock_cipher Fixture.mock_utcnow Fixture.mock_redis
                  Fixture.mock_str default_settings RoutesFixture.exn_str
                  _ _ [] _ _ _ _
                  (proj1 anonymous_event_in_heap)
                  (proj2 anonymous_event_in_heap) eq_refl Hp)).
Defined.

Lemma sample_status_is_served :
  exists pe w1,
    process Fixture.mock_cipher (KMS_KEY_ID default_settings)
      Fixture.mock_utcnow Fixture.mock_redis Fixture.mock_str
      Fixture.sample_loc Fixture.sample_world = (Ok pe, w1)
    /\ Routes.get_event_status Fixture.mock_redis RoutesFixture.never_expired
         "7c9e6679-7425-40de-944b-e07fc1f90ae7" w1
       = (Ok (Auth.Returned ("processed", "2024-01-15T10:30:01")), w1).
Proof.
  exists_outcome
    (process Fixture.mock_cipher (KMS_KEY_ID default_settings)
       Fixture.mock_utcnow Fixture.mock_redis Fixture.mock_str
       Fixture.sample_loc Fixture.sample_world).
  assert (Hp : process Fixture.mock_cipher (KMS_KEY_ID default_settings)
                 Fixture.mock_utcnow Fixture.mock_redis Fixture.mock_str
                 Fixture.sample_loc Fixture.sample_world = (Ok _, _))
    by (vm_compute; reflexivity).
  split; [exact Hp|].
  exact (proj1 (status_route_reads_what_process_cached
                  Fixture.mock_cipher Fixture.mock_utcnow Fixture.mock_redis
                  Fixture.mock_str default_settings
                  RoutesFixture.never_expired
                  _ _ _ _ _ _ _
                  (proj1 sample_event_in_heap) (proj2 sample_event_in_heap)
                  Hp eq_refl)
           eq_refl eq_refl eq_refl).
Defined.

(** ** The single-event route *)

Section SingleEventFacts.

Import Event Routes.

Context (cipher : nat -> string -> option string)
        (utcnow : nat -> string) (redis_up : nat -> bool)
        (py_str : pyval -> string)
        (client_put_record :
           list effect -> string -> list N -> option string -> put_outcome)
        (settings : Settings)
        (exn_str : exn -> string).

Local Abbreviation process' :=
  (process cipher (KMS_KEY_ID settings) utcnow redis_up py_str).
Local Abbreviation ingest_event_and_tasks' :=
  (ingest_event_and_tasks cipher utcnow redis_up py_str client_put_record
                          settings exn_str).
Local Abbreviation publish :=
  (send_event client_put_record (KinesisProducer_init settings)).

(** The route function and its background task, by what [process] does. *)
Lemma ingest_event_cases ev w e d :
  heap w !! ev = Some (OEvent e) ->
  heap w !! payload e = Some (ODict d) ->
  ingest_event_and_tasks' ev w
  = match process' ev w with
    | (Ok pe, w1) =>
        let w2 := tick (emit (ELog "info" "event_ingested") w1) in
        match event_id e with
        | Some id =>
            (Ok (Auth.Returned
                   {| response_event_id := id;
                      response_status := "accepted";
                      response_timestamp := utcnow (clock_reads w1);
                      response_error := None |}),
             snd (publish pe w2))
        | None =>
            (Ok (Auth.HTTPException 400
                   (exn_str
                      (ValidationError
                         [value_error "event_id"
                            "Input should be a valid string"]))),
             emit (ELog "error" "event_validation_failed") w2)
        end
    | (Raise ex, w1) =>
        if is_ValueError ex
        then (Ok (Auth.HTTPException 400 (exn_str ex)),
              emit (ELog "error" "event_validation_failed") w1)
        else (Raise ex, w1)
    end.
Proof.
  intros He Hd.
  unfold ingest_event_and_tasks, ingest_event_body, except_ValueError,
    R_bind, lift.
  cbn [fst snd].
  destruct (process' ev w) as [[pe|ex] w1] eqn:Hp.
  - destruct (process_inv _ _ _ _ _ _ _ _ _ _ _ He Hd Hp) as [_ Hpe].
    destruct (Hpe pe eq_refl) as (_ & _ & _ & _ & Hid & _).
    unfold add_task. cbn [fst snd]. rewrite Hid.
    destruct (event_id e) as [id|]; reflexivity.
  - cbn [fst snd]. destruct (is_ValueError ex); reflexivity.
Qed.

(** X22.  A request to the single-event route is answered [accepted] only
    for an event with an identifier for which [process] returned a record;
    the record is then published in the background, after the line
    [event_ingested] is logged and the time of the response is read.  A
    [ValueError], that of [process] or of the response for an event
    without identifier, is answered 400 with its text, and nothing is
    sent to a stream.  Any other exception of [process] leaves the route
    as it is. *)
Theorem single_event_is_published_only_when_accepted ev w e d :
  heap w !! ev = Some (OEvent e) ->
  heap w !! payload e = Some (ODict d) ->
  match ingest_event_and_tasks' ev w with
  | (Ok (Auth.Returned response), w') =>
      exists pe w1,
        process' ev w = (Ok pe, w1)
        /\ event_id e = Some (response_event_id response)
        /\ response_status response = "accepted"
        /\ response_timestamp response = utcnow (clock_reads w1)
        /\ response_error response = None
        /\ w' = snd (publish pe
                       (tick (emit (ELog "info" "event_ingested") w1)))
  | (Ok (Auth.HTTPException status_code detail), w') =>
      status_code = 400
      /\ calls (trace w') = calls (trace w)
      /\ exists ex,
           detail = exn_str ex /\ is_ValueError ex = true
           /\ (fst (process' ev w) = Raise ex
               \/ event_id e = None /\ exists pe, fst (process' ev w) = Ok pe)
  | (Ok (Auth.Failed _), _) => False
  | (Raise ex, w') =>
      process' ev w = (Raise ex, w') /\ is_ValueError ex = false
  end.
Proof.
  intros He Hd. rewrite (ingest_event_cases ev w e d He Hd).
  destruct (process' ev w) as [[pe|ex] w1] eqn:Hp;
    destruct (process_full _ _ _ _ _ _ _ _ _ _ _ He Hd Hp) as [Htr _].
  - cbv zeta. destruct (event_id e) as [id|] eqn:Hid.
    + exists pe, w1. auto 10.
    + split; [reflexivity|]. split.
      * simpl. rewrite !calls_app, Htr. simpl. rewrite !app_nil_r. reflexivity.
      * eexists. split; [reflexivity|]. split; [reflexivity|].
        right. split; [reflexivity|]. exists pe. reflexivity.
  - destruct (is_ValueError ex) eqn:Hv.
    + split; [reflexivity|]. split.
      * simpl. rewrite calls_app, Htr. simpl. apply app_nil_r.
      * exists ex. auto.
    + auto.
Qed.

End SingleEventFacts.

Lemma sample_event_is_accepted_then_published :
  exists response w',
    ingest_event_and_tasks Fixture.mock_cipher Fixture.mock_utcnow
      Fixture.mock_redis Fixture.mock_str StreamFixture.primary_unavailable
      default_settings RoutesFixture.exn_str
      Fixture.sample_loc Fixture.sample_world
    = (Ok (Auth.Returned response), w')
    /\ exists pe w1,
         process Fixture.mock_cipher (KMS_KEY_ID default_settings)
           Fixture.mock_utcnow Fixture.mock_redis Fixture.mock_str
           Fixture.sample_loc Fixture.sample_world = (Ok pe, w1)
         /\ Event.event_id Sample.event
            = Some (Routes.response_event_id response)
         /\ Routes.response_status response = "accepted"
         /\ Routes.response_timestamp response
            = Fixture.mock_utcnow (clock_reads w1)
         /\ Routes.response_error response = None
         /\ w' = snd (send_event StreamFixture.primary_unavailable
                        (KinesisProducer_init default_settings) pe
                        (tick (emit (ELog "info" "event_ingested") w1))).
Proof.
  pose proof (single_event_is_published_only_when_accepted
                Fixture.mock_cipher Fixture.mock_utcnow Fixture.mock_redis
                Fixture.mock_str StreamFixture.primary_unavailable
                default_settings RoutesFixture.exn_str
                Fixture.sample_loc Fixture.sample_world
                Sample.event Sample.payload_dict
                (proj1 sample_event_in_heap) (proj2 sample_event_in_heap))
    as H.
  destruct (ingest_event_and_tasks Fixture.mock_cipher Fixture.mock_utcnow
              Fixture.mock_redis Fixture.mock_str
              StreamFixture.primary_unavailable
              default_settings RoutesFixture.exn_str
              Fixture.sample_loc Fixture.sample_world)
    as [[[response|c detail|ex]|ex] w'] eqn:Hi;
    try (vm_compute in Hi; discriminate Hi).
  exists response, w'. split; [reflexivity|exact H].
Defined.
